(** * A shallow embedding of the text-command, rule, validation and search core

    The repository is a Next.js/TypeScript application.  The functions
    embedded here are

    - [normalize], [parseCommand], [evaluateCondition], [transformValue] and
      [applyModification] of [NaturalLanguageDataModifier.tsx];
    - [generateSchema] and [validateData] of the validation panel;
    - [processNaturalLanguage] of the rule builder;
    - [processQuery] and [searchData] of the natural-language search.

    JavaScript strings are modelled by [string]: the model covers ASCII text
    ([Js.isAscii]), on which [toLowerCase], [toUpperCase], [trim] and the
    classes [\s], [\w], [\d] are the functions below.  Numbers are modelled
    by [Z]: the model covers the integer-valued numbers (row counts, lengths,
    spreadsheet integers) whose [String] conversion is their decimal
    notation.

    Objects are read by their own keys ([Js.get], [Js.lookup]).  A read
    [o[k]] of the source also reaches the members every object inherits
    ([Js.inheritedNames]).  Where a statement depends on the read of an
    absent key, it either excludes these names or is made about the
    function written with the exception the read then leads to
    ([SearchRun], [ValidationOps.groupedErrors]).

    The regular-expression literals of the source are written as terms of
    [Regex.Re] and run by a backtracking matcher.  What the code leaves to
    its host is a parameter: the order of two numbers read by [parseFloat]
    and the regular expression built from a pattern the user typed
    ([Modifier.Host]), the e-mail check of the schema library and
    [Date.parse] ([Validation.Host]).  Every theorem holds for every
    host. *)

From Stdlib Require Import String Ascii List ZArith Bool Arith Lia.
From Stdlib Require Import Permutation Sorted DecimalString.
Import ListNotations.

Local Open Scope string_scope.
Local Open Scope bool_scope.

(* ================================================================== *)
(** ** The JavaScript runtime pieces the source relies on *)
(* ================================================================== *)

Module Js.

(** *** Characters *)

Definition code (c : ascii) : nat := nat_of_ascii c.

Definition between (lo hi : nat) (c : ascii) : bool :=
  (lo <=? code c)%nat && (code c <=? hi)%nat.

Definition isUpper : ascii -> bool := between 65 90.
Definition isLower : ascii -> bool := between 97 122.
Definition isDigit : ascii -> bool := between 48 57.

(** [\w] is [[A-Za-z0-9_]]. *)
Definition isWord (c : ascii) : bool :=
  isUpper c || isLower c || isDigit c || Ascii.eqb c "_".

(** [\s] on ASCII: tab, line feed, vertical tab, form feed, carriage return
    and space. *)
Definition isSpace (c : ascii) : bool :=
  between 9 13 c || Ascii.eqb c " ".

(** Line terminators, which [.] does not match. *)
Definition isLineTerminator (c : ascii) : bool :=
  (code c =? 10)%nat || (code c =? 13)%nat.

Definition lowerChar (c : ascii) : ascii :=
  if isUpper c then ascii_of_nat (code c + 32) else c.

Definition upperChar (c : ascii) : ascii :=
  if isLower c then ascii_of_nat (code c - 32) else c.

(** *** Strings *)

Fixpoint mapStr (f : ascii -> ascii) (s : string) : string :=
  match s with
  | EmptyString => EmptyString
  | String c s' => String (f c) (mapStr f s')
  end.

Fixpoint filterStr (p : ascii -> bool) (s : string) : string :=
  match s with
  | EmptyString => EmptyString
  | String c s' => if p c then String c (filterStr p s') else filterStr p s'
  end.

Fixpoint revStr (s : string) : string :=
  match s with
  | EmptyString => EmptyString
  | String c s' => revStr s' ++ String c EmptyString
  end.

(** [s.toLowerCase()] and [s.toUpperCase()]. *)
Definition toLowerCase : string -> string := mapStr lowerChar.
Definition toUpperCase : string -> string := mapStr upperChar.

(** [s.startsWith(p)]. *)
Definition startsWith (s p : string) : bool := String.prefix p s.

(** [s.includes(p)]: [p] occurs at some position of [s]. *)
Fixpoint includes (s p : string) : bool :=
  if String.prefix p s then true
  else match s with
       | EmptyString => false
       | String _ s' => includes s' p
       end.

(** [s.endsWith(p)]. *)
Definition endsWith (s p : string) : bool :=
  String.prefix (revStr p) (revStr s).

(** [s.split(sep)] for a one-character separator: the empty string gives
    one empty piece, two adjacent separators an empty piece between them. *)
Fixpoint split (sep : ascii) (s : string) : list string :=
  match s with
  | EmptyString => [EmptyString]
  | String c s' =>
      if Ascii.eqb c sep then EmptyString :: split sep s'
      else match split sep s' with
           | h :: t => String c h :: t
           | [] => [String c EmptyString]
           end
  end.

(** [s.split(/\s+/)]: the pieces between maximal runs of white space; a
    leading or trailing run leaves an empty first or last piece.  [inRun]
    tells that the previous character was white space. *)
Fixpoint splitSpacesAux (inRun : bool) (s : string) : list string :=
  match s with
  | EmptyString => [EmptyString]
  | String c s' =>
      if isSpace c then
        if inRun then splitSpacesAux true s'
        else EmptyString :: splitSpacesAux true s'
      else match splitSpacesAux false s' with
           | h :: t => String c h :: t
           | [] => [String c EmptyString]
           end
  end.

Definition splitSpaces (s : string) : list string := splitSpacesAux false s.

Fixpoint dropWhileStr (p : ascii -> bool) (s : string) : string :=
  match s with
  | EmptyString => EmptyString
  | String c s' => if p c then dropWhileStr p s' else s
  end.

(** [s.trim()]. *)
Definition trim (s : string) : string :=
  revStr (dropWhileStr isSpace (revStr (dropWhileStr isSpace s))).

Definition isEmpty (s : string) : bool :=
  match s with EmptyString => true | _ => false end.

(** The text on which the functions above are those of JavaScript: every
    character is below 128.  Beyond it [toLowerCase] and [toUpperCase] map
    more letters, some to several characters, and [trim] and [\s] know
    more white space (the no-break space among it). *)
Fixpoint isAscii (s : string) : bool :=
  match s with
  | EmptyString => true
  | String c s' => (code c <? 128)%nat && isAscii s'
  end.

(** [xs.join(sep)]. *)
Fixpoint join (sep : string) (xs : list string) : string :=
  match xs with
  | [] => EmptyString
  | [x] => x
  | x :: rest => x ++ sep ++ join sep rest
  end.

(** *** Values *)

(** The scalars a row holds.  [VUndefined] is what reading an absent key
    gives. *)
Inductive Value : Type :=
| VUndefined
| VNull
| VBool (b : bool)
| VNum (z : Z)
| VStr (s : string).

(** Decimal notation of an integer, as [String(n)] prints it below
    [1e21], where the exponent notation starts. *)
Definition decimal (z : Z) : string := NilZero.string_of_int (Z.to_int z).

(** [String(v)]. *)
Definition toString (v : Value) : string :=
  match v with
  | VUndefined => "undefined"
  | VNull => "null"
  | VBool true => "true"
  | VBool false => "false"
  | VNum z => decimal z
  | VStr s => s
  end.

(** Truthiness: [undefined], [null], [false], [0] and the empty string
    are falsy. *)
Definition truthy (v : Value) : bool :=
  match v with
  | VUndefined | VNull => false
  | VBool b => b
  | VNum z => negb (z =? 0)%Z
  | VStr s => negb (isEmpty s)
  end.

(** [a || b] on values. *)
Definition orElse (a b : Value) : Value := if truthy a then a else b.

(** *** Objects used as records *)

(** A row object: its own keys in [Object.keys] order with their values.
    Keys are distinct in every object the program builds. *)
Definition Row : Type := list (string * Value).

(** The names of the members every object inherits from
    [Object.prototype].  With no own key of that name, [o[k]] reads the
    inherited member: a function, and for [__proto__] the prototype
    itself.  Each is truthy, and none has a [toLowerCase] or a [push]. *)
Definition inheritedNames : list string :=
  [ "constructor"; "hasOwnProperty"; "isPrototypeOf"; "propertyIsEnumerable";
    "toLocaleString"; "toString"; "valueOf"; "__proto__";
    "__defineGetter__"; "__defineSetter__";
    "__lookupGetter__"; "__lookupSetter__" ].

Definition isInherited (k : string) : bool :=
  existsb (String.eqb k) inheritedNames.

(** [row[k]] read from the own keys of the row: the value of the key, and
    [undefined] for an absent key.  This is [row[k]] whenever [k] is an own
    key or [isInherited k = false]. *)
Fixpoint get (row : Row) (k : string) : Value :=
  match row with
  | [] => VUndefined
  | (k', v) :: rest => if String.eqb k' k then v else get rest k
  end.

(** [{ ...o, [k]: v }] and [o[k] = v]: an existing key keeps its place, a
    new key goes last.  (Keys that are array indices, which an object lists
    first, do not occur among the column names considered.) *)
Fixpoint set {A : Type} (o : list (string * A)) (k : string) (v : A)
  : list (string * A) :=
  match o with
  | [] => [(k, v)]
  | (k', v') :: rest =>
      if String.eqb k' k then (k', v) :: rest else (k', v') :: set rest k v
  end.

(** The own entry of [k] in an object used as a map from names to values
    of one type.  [None] tells that [k] is no own key: [o[k]] is then
    [undefined] when [isInherited k = false], and the inherited member
    otherwise. *)
Fixpoint lookup {A : Type} (o : list (string * A)) (k : string) : option A :=
  match o with
  | [] => None
  | (k', v) :: rest => if String.eqb k' k then Some v else lookup rest k
  end.

(** [Object.keys(row)]. *)
Definition keys (row : Row) : list string := map fst row.

(** *** Completions *)

(** How evaluating a piece of code ends: with a value, or with a thrown
    exception (a [TypeError] or a [SyntaxError]; the program never inspects
    which). *)
Inductive Completion (A : Type) : Type :=
| Normal (a : A)
| Throw.

Arguments Normal {A} a.
Arguments Throw {A}.

Definition bind {A B : Type} (c : Completion A) (f : A -> Completion B)
  : Completion B :=
  match c with
  | Normal a => f a
  | Throw => Throw
  end.

(** [xs.map(f)] with a callback that may throw: the first exception ends
    the traversal. *)
Fixpoint mapC {A B : Type} (f : A -> Completion B) (xs : list A)
  : Completion (list B) :=
  match xs with
  | [] => Normal []
  | x :: rest =>
      bind (f x) (fun y => bind (mapC f rest) (fun ys => Normal (y :: ys)))
  end.

(** [xs.filter(f)] with a callback that may throw. *)
Fixpoint filterC {A : Type} (f : A -> Completion bool) (xs : list A)
  : Completion (list A) :=
  match xs with
  | [] => Normal []
  | x :: rest =>
      bind (f x) (fun keep =>
      bind (filterC f rest) (fun ys =>
      Normal (if keep then x :: ys else ys)))
  end.

(** [xs.forEach(f)] with a callback that updates an accumulator and may
    throw. *)
Fixpoint foldC {A B : Type} (f : A -> B -> Completion A) (xs : list B) (a : A)
  : Completion A :=
  match xs with
  | [] => Normal a
  | x :: rest => bind (f a x) (foldC f rest)
  end.

(** Pairs every element with its index, as the callbacks of [map],
    [filter] and [forEach] receive them. *)
Fixpoint indexedFrom {A : Type} (i : nat) (xs : list A) : list (nat * A) :=
  match xs with
  | [] => []
  | x :: rest => (i, x) :: indexedFrom (S i) rest
  end.

Definition indexed {A : Type} (xs : list A) : list (nat * A) :=
  indexedFrom 0 xs.

End Js.

(* ================================================================== *)
(** ** Regular expressions of the source, with backtracking *)
(* ================================================================== *)

Module Regex.
Import Js.

(** The constructs the regular-expression literals of the source use. *)
Inductive Re : Type :=
| Chr (p : ascii -> bool)    (* one character of a class *)
| Eps                        (* the empty pattern *)
| Seq (r1 r2 : Re)
| Alt (r1 r2 : Re)           (* r1|r2, r1 tried first *)
| Star (r : Re)              (* r*, greedy *)
| Group (n : nat) (r : Re).  (* capturing group number n *)

Definition Plus (r : Re) : Re := Seq r (Star r).
Definition Opt (r : Re) : Re := Alt r Eps.

(** A literal character; under the [i] flag letters match in either case. *)
Definition chr (c : ascii) : Re := Chr (Ascii.eqb c).
Definition chrI (c : ascii) : Re :=
  Chr (fun x => Ascii.eqb (lowerChar x) (lowerChar c)).

Fixpoint lit (s : string) : Re :=
  match s with
  | EmptyString => Eps
  | String c s' => Seq (chr c) (lit s')
  end.

Fixpoint litI (s : string) : Re :=
  match s with
  | EmptyString => Eps
  | String c s' => Seq (chrI c) (litI s')
  end.

Definition space : Re := Chr isSpace.                      (* \s *)
Definition word : Re := Chr isWord.                        (* \w *)
Definition digit : Re := Chr isDigit.                      (* \d *)
Definition dot : Re := Chr (fun c => negb (isLineTerminator c)).   (* . *)
(** The quote characters: code 34 is the double quote, 39 the single one. *)
Definition isQuote (c : ascii) : bool :=
  (code c =? 34)%nat || (code c =? 39)%nat.

Definition quote : Re := Chr isQuote.                      (* a quote character *)
Definition notQuote : Re := Chr (fun c => negb (isQuote c)).   (* any other character *)
Definition notSpace : Re := Chr (fun c => negb (isSpace c)).       (* [^\s] *)

(** Captures, the most recent binding of a group first. *)
Definition Caps : Type := list (nat * string).

Fixpoint capture (caps : Caps) (n : nat) : option string :=
  match caps with
  | [] => None
  | (m, s) :: rest => if (m =? n)%nat then Some s else capture rest n
  end.

(** The backtracking matcher, in continuation-passing style: [rmatch r s
    caps k] matches [r] at the start of [s] and hands the rest of the input
    to [k]; when [k] fails the next alternative is tried.  An iteration of
    [Star] has to consume a character, so [length s] iterations suffice. *)
Fixpoint rmatch {A : Type} (r : Re) (s : string) (caps : Caps)
  (k : string -> Caps -> option A) : option A :=
  match r with
  | Chr p =>
      match s with
      | String c s' => if p c then k s' caps else None
      | EmptyString => None
      end
  | Eps => k s caps
  | Seq r1 r2 => rmatch r1 s caps (fun s1 c1 => rmatch r2 s1 c1 k)
  | Alt r1 r2 =>
      match rmatch r1 s caps k with
      | Some x => Some x
      | None => rmatch r2 s caps k
      end
  | Star r1 =>
      (fix loop (fuel : nat) (s0 : string) (c0 : Caps) : option A :=
         match fuel with
         | O => k s0 c0
         | S fuel' =>
             match rmatch r1 s0 c0
                     (fun s1 c1 =>
                        if (String.length s1 <? String.length s0)%nat
                        then loop fuel' s1 c1 else None) with
             | Some x => Some x
             | None => k s0 c0
             end
         end) (String.length s) s caps
  | Group n r1 =>
      rmatch r1 s caps
        (fun s1 c1 =>
           k s1 ((n, substring 0 (String.length s - String.length s1) s) :: c1))
  end.

(** A match: where it starts, the text matched, the input after it, and
    the captures. *)
Record Match : Type := mkMatch {
  index : nat;
  matched : string;
  rest : string;
  groups : Caps
}.

Definition matchHere (r : Re) (i : nat) (s : string) : option Match :=
  rmatch r s []
    (fun s1 c =>
       Some (mkMatch i (substring 0 (String.length s - String.length s1) s) s1 c)).

(** [re.exec(s)] from position [i] on: the leftmost match. *)
Fixpoint searchFrom (r : Re) (i : nat) (s : string) : option Match :=
  match matchHere r i s with
  | Some m => Some m
  | None =>
      match s with
      | EmptyString => None
      | String _ s' => searchFrom r (S i) s'
      end
  end.

(** [s.match(re)] without the [g] flag. *)
Definition search (r : Re) (s : string) : option Match := searchFrom r 0 s.

(** [re.test(s)]. *)
Definition test (r : Re) (s : string) : bool :=
  match search r s with Some _ => true | None => false end.

(** The successive matches a [g] regular expression finds: each search
    resumes where the previous match ended (one character further after an
    empty match). *)
Fixpoint allMatchesFrom (fuel : nat) (r : Re) (i : nat) (s : string)
  : list Match :=
  match fuel with
  | O => []
  | S fuel' =>
      match searchFrom r i s with
      | None => []
      | Some m =>
          match matched m, rest m with
          | EmptyString, EmptyString => [m]
          | EmptyString, String _ s' =>
              m :: allMatchesFrom fuel' r (S (index m)) s'
          | _, s' =>
              m :: allMatchesFrom fuel' r (index m + String.length (matched m)) s'
          end
      end
  end.

Definition allMatches (r : Re) (s : string) : list Match :=
  allMatchesFrom (S (String.length s)) r 0 s.

(** Group [n] of a match, [undefined] (here [None]) when it did not
    take part. *)
Definition group (m : Match) (n : nat) : option string := capture (groups m) n.

(** [m?.[n] || ''] for the result [m] of a search. *)
Definition groupOr (m : option Match) (n : nat) : string :=
  match m with
  | Some m' => match group m' n with Some s => s | None => EmptyString end
  | None => EmptyString
  end.

(** [re.test(s)] for a pattern anchored at both ends, [/^...$/]. *)
Definition fullMatch (r : Re) (s : string) : bool :=
  match rmatch r s [] (fun s1 _ => if isEmpty s1 then Some tt else None) with
  | Some _ => true
  | None => false
  end.

(** [r{0,n}], greedy. *)
Fixpoint upTo (n : nat) (r : Re) : Re :=
  match n with
  | O => Eps
  | S n' => Opt (Seq r (upTo n' r))
  end.

End Regex.

(* ================================================================== *)
(** ** NaturalLanguageDataModifier.tsx *)
(* ================================================================== *)

Module Modifier.
Import Js Regex.

Inductive Operation : Type := update | delete | add | replace | transform.

Inductive Status : Type := pending | applied | failed.

(** [interface DataModification]; the [timestamp] plays no part in the
    functions below and is left out. *)
Record DataModification : Type := mkModification {
  id : string;
  command : string;
  operation : Operation;
  field : string;
  condition : string;
  newValue : string;
  affectedRows : list nat;
  status : Status
}.

(** What [parseCommand] returns when it returns an object. *)
Record Parsed : Type := mkParsed {
  pOperation : Operation;
  pField : string;
  pCondition : string;
  pNewValue : string;
  pAffectedRows : list nat
}.

(** What the code asks of its host and the model leaves open: the order of
    two floating-point numbers read by [parseFloat], and the regular
    expression engine run on a pattern the user typed.

    - [parseFloatGt a b] is [parseFloat(a) > parseFloat(b)], [parseFloatLt a b]
      is [parseFloat(a) < parseFloat(b)];
    - [regexpReplace p s r] is [s.replace(new RegExp(p, 'gi'), r)] for a
      pattern source [p] that is not empty, [None] when the constructor
      throws a [SyntaxError]. *)
Record Host : Type := mkHost {
  parseFloatGt : string -> string -> bool;
  parseFloatLt : string -> string -> bool;
  regexpReplace : string -> string -> string -> option string
}.

(** [const normalize = (str) => str.replace(/\s|_/g, '').toLowerCase()]. *)
Definition normalize (str : string) : string :=
  toLowerCase (filterStr (fun c => negb (isSpace c || Ascii.eqb c "_")) str).

(** *** The regular-expression literals of [parseCommand] *)

(** [/to (uppercase|lowercase|capitalize|trim|reverse|length|wordcount)/] *)
Definition transformRe : Re :=
  Seq (lit "to ")
      (Group 1 (Alt (lit "uppercase") (Alt (lit "lowercase")
               (Alt (lit "capitalize") (Alt (lit "trim") (Alt (lit "reverse")
               (Alt (lit "length") (lit "wordcount")))))))).

(** [/transform.*to (\w+)/] *)
Definition transformToRe : Re :=
  Seq (lit "transform") (Seq (Star dot) (Seq (lit "to ") (Group 1 (Plus word)))).

(** The tail shared by the value patterns: an optional quote, a run of
    characters other than quotes as group [n], an optional quote. *)
Definition quoted (n : nat) : Re :=
  Seq (Opt quote) (Seq (Group n (Plus notQuote)) (Opt quote)).

(** [/where\s+(\w+)\s*(=|>|<|contains|starts with|ends with)\s*] followed by
    the quoted value as group 3, with the [i] flag. *)
Definition whereRe : Re :=
  Seq (litI "where") (Seq (Plus space) (Seq (Group 1 (Plus word))
  (Seq (Star space)
  (Seq (Group 2 (Alt (litI "=") (Alt (litI ">") (Alt (litI "<")
                (Alt (litI "contains") (Alt (litI "starts with")
                     (litI "ends with")))))))
  (Seq (Star space) (quoted 3)))))).

(** [/to\s+] , [/with\s+] and [/set\s+] followed by the quoted value as
    group 1, with the [i] flag. *)
Definition valueRe (keyword : string) : Re :=
  Seq (litI keyword) (Seq (Plus space) (quoted 1)).

(** [/row\s+(\d+)/gi] and [/row\s+/i] *)
Definition rowRe : Re := Seq (litI "row") (Seq (Plus space) (Group 1 (Plus digit))).
Definition rowPrefixRe : Re := Seq (litI "row") (Plus space).

(** [s.replace(re, '')] for a regular expression without the [g] flag:
    the first match is cut out. *)
Definition removeFirst (r : Re) (s : string) : string :=
  match search r s with
  | Some m => substring 0 (index m) s ++ rest m
  | None => s
  end.

Definition digitValue (c : ascii) : nat := code c - 48.

Fixpoint digitsValue (acc : nat) (s : string) : option nat :=
  match s with
  | String c s' =>
      if isDigit c then
        match digitsValue (acc * 10 + digitValue c) s' with
        | Some n => Some n
        | None => Some (acc * 10 + digitValue c)
        end
      else None
  | EmptyString => None
  end.

(** [parseInt(s)] on the strings the parser passes, which start with a
    digit: the value of the leading run of digits, [None] (for [NaN]) when
    there is none.  Signs and the [0x] prefix do not arise. *)
Definition parseInt (s : string) : option nat :=
  digitsValue 0 (dropWhileStr isSpace s).

Definition optList {A : Type} (o : option A) : list A :=
  match o with Some a => [a] | None => [] end.

(** *** [parseCommand] *)

(** The operation and, for a transform, the transform name: the first two
    statements of [parseCommand] and the [if]/[else if] chain. *)
Definition detectOperation (lowerCommand : string) : Operation * string :=
  match search transformRe lowerCommand with
  | Some m => (transform, groupOr (Some m) 1)
  | None =>
      if includes lowerCommand "delete" || includes lowerCommand "remove"
      then (delete, EmptyString)
      else if includes lowerCommand "add" || includes lowerCommand "insert"
      then (add, EmptyString)
      else if includes lowerCommand "replace" || includes lowerCommand "swap"
      then (replace, EmptyString)
      else if includes lowerCommand "transform" || includes lowerCommand "convert"
      then (transform, groupOr (search transformToRe lowerCommand) 1)
      else (update, EmptyString)
  end.

(** The [for ... of availableFields] loop: the first field whose
    normalized name occurs in the normalized command, [''] when none
    does. *)
Definition matchField (availableFields : list string) (lowerCommand : string)
  : string :=
  let normalizedCommand := normalize lowerCommand in
  match find (fun f => includes normalizedCommand (normalize f)) availableFields with
  | Some f => f
  | None => EmptyString
  end.

(** [`${whereMatch[1]} ${whereMatch[2]} ${whereMatch[3]}`], or ['']. *)
Definition extractCondition (lowerCommand : string) : string :=
  match search whereRe lowerCommand with
  | Some m =>
      groupOr (Some m) 1 ++ " " ++ groupOr (Some m) 2 ++ " " ++ groupOr (Some m) 3
  | None => EmptyString
  end.

(** [toMatch?.[1] || withMatch?.[1] || setMatch?.[1] || ''] *)
Definition extractNewValue (lowerCommand : string) : string :=
  let toV := groupOr (search (valueRe "to") lowerCommand) 1 in
  let withV := groupOr (search (valueRe "with") lowerCommand) 1 in
  let setV := groupOr (search (valueRe "set") lowerCommand) 1 in
  if negb (isEmpty toV) then toV
  else if negb (isEmpty withV) then withV
  else setV.

(** [rowMatches?.map(match => parseInt(match.replace(/row\s+/i, ''))) || []];
    a [NaN], which no row number equals, would be dropped. *)
Definition extractRows (lowerCommand : string) : list nat :=
  flat_map (fun m => optList (parseInt (removeFirst rowPrefixRe (matched m))))
           (allMatches rowRe lowerCommand).

(** [availableFields]: the keys of the first row. *)
Definition availableFields (data : list Row) : list string :=
  match data with
  | [] => []
  | first :: _ => keys first
  end.

(** [parseCommand(command)]: [None] is the [null] it returns when no field
    matched. *)
Definition parseCommand (fields : list string) (command : string)
  : option Parsed :=
  let lowerCommand := toLowerCase command in
  let '(operation0, newValue0) := detectOperation lowerCommand in
  let matchedField := matchField fields lowerCommand in
  let condition0 := extractCondition lowerCommand in
  let newValue1 :=
    if isEmpty newValue0 &&
       match operation0 with update | replace => true | _ => false end
    then extractNewValue lowerCommand
    else newValue0 in
  let rowNumbers := extractRows lowerCommand in
  if isEmpty matchedField then None
  else Some (mkParsed operation0 matchedField condition0 newValue1 rowNumbers).

(** *** [transformValue] *)

Definition capitalize (s : string) : string :=
  match s with
  | EmptyString => EmptyString
  | String c s' => String (upperChar c) (toLowerCase s')
  end.

Definition wordCount (s : string) : nat :=
  List.length (filter (fun w => (0 <? String.length w)%nat) (splitSpaces s)).

Definition transformValue (value : Value) (transformType : string) : Value :=
  let stringValue := toString value in
  let t := toLowerCase transformType in
  if String.eqb t "uppercase" then VStr (toUpperCase stringValue)
  else if String.eqb t "lowercase" then VStr (toLowerCase stringValue)
  else if String.eqb t "capitalize" then VStr (capitalize stringValue)
  else if String.eqb t "trim" then VStr (trim stringValue)
  else if String.eqb t "reverse" then VStr (revStr stringValue)
  else if String.eqb t "length" then VNum (Z.of_nat (String.length stringValue))
  else if String.eqb t "wordcount" then VNum (Z.of_nat (wordCount stringValue))
  else value.

(** *** Replacement with the empty pattern *)

(** The replacement text of [String.prototype.replace] for a pattern
    without groups: [$$] is a dollar sign, [$&] the match, [$`] the text
    before it, [$'] the text after it; any other dollar sign stands for
    itself. *)
Fixpoint expandReplacement (repl before matchedText after : string) : string :=
  match repl with
  | EmptyString => EmptyString
  | String c1 EmptyString => String c1 EmptyString
  | String c1 (String c2 r' as r1) =>
      if Ascii.eqb c1 "$" then
        if Ascii.eqb c2 "$" then String "$" (expandReplacement r' before matchedText after)
        else if Ascii.eqb c2 "&" then matchedText ++ expandReplacement r' before matchedText after
        else if Ascii.eqb c2 "`" then before ++ expandReplacement r' before matchedText after
        else if Ascii.eqb c2 "'" then after ++ expandReplacement r' before matchedText after
        else String c1 (String c2 (expandReplacement r' before matchedText after))
      else String c1 (expandReplacement r1 before matchedText after)
  end.

(** [s.replace(new RegExp('', 'gi'), repl)]: the empty pattern matches
    before every character and at the end. *)
Fixpoint replaceEmptyFrom (before s repl : string) : string :=
  expandReplacement repl before EmptyString s ++
  match s with
  | EmptyString => EmptyString
  | String c s' => String c (replaceEmptyFrom (before ++ String c EmptyString) s' repl)
  end.

Definition replaceEmpty (s repl : string) : string :=
  replaceEmptyFrom EmptyString s repl.

Section WithHost.

Variable host : Host.

(** [s.replace(new RegExp(pattern, 'gi'), repl)], where [pattern] is
    [condition.split(' ')[2]]: [None] is [undefined], for which the
    constructor builds the empty pattern, as it does for ['']. *)
Definition replaceAll (s : string) (pattern : option string) (repl : string)
  : Completion string :=
  match pattern with
  | None | Some EmptyString => Normal (replaceEmpty s repl)
  | Some p =>
      match regexpReplace host p s repl with
      | Some out => Normal out
      | None => Throw
      end
  end.

(** *** [evaluateCondition] *)

(** [String(row[field] || '').toLowerCase()] *)
Definition fieldText (row : Row) (fld : string) : string :=
  toLowerCase (toString (orElse (get row fld) (VStr EmptyString))).

Definition evaluateCondition (row : Row) (cond : string) : Completion bool :=
  if isEmpty cond then Normal true
  else
    let parts := split " " cond in
    let fld := nth 0 parts EmptyString in
    let fieldValue := fieldText row fld in
    match nth_error parts 2 with
    | None => Throw                 (* [value.toLowerCase()] on [undefined] *)
    | Some value =>
        let operator := nth 1 parts EmptyString in
        let compareValue := toLowerCase value in
        if String.eqb operator "=" then Normal (String.eqb fieldValue compareValue)
        else if String.eqb operator ">" then Normal (parseFloatGt host fieldValue compareValue)
        else if String.eqb operator "<" then Normal (parseFloatLt host fieldValue compareValue)
        else if String.eqb operator "contains" then Normal (includes fieldValue compareValue)
        else if String.eqb operator "starts" then Normal (startsWith fieldValue compareValue)
        else if String.eqb operator "ends" then Normal (endsWith fieldValue compareValue)
        else Normal false
    end.

(** *** [applyModification] *)

(** The test every branch of the [switch] makes on a row:
    [affectedRows.includes(index + 1) || (condition && evaluateCondition(row, condition))]. *)
Definition isSelected (m : DataModification) (idx : nat) (row : Row)
  : Completion bool :=
  if existsb (Nat.eqb (idx + 1)) (affectedRows m) then Normal true
  else if isEmpty (condition m) then Normal false
  else evaluateCondition row (condition m).

(** What a [map] callback returns: the row object it was given, or a new
    object. *)
Inductive RowOut : Type :=
| Same
| Fresh (r : Row).

Definition rowOf (row : Row) (o : RowOut) : Row :=
  match o with Same => row | Fresh r => r end.

(** The callback of [case 'update']. *)
Definition updateRow (m : DataModification) (idx : nat) (row : Row)
  : Completion RowOut :=
  bind (isSelected m idx row) (fun sel =>
  Normal (if sel then Fresh (set row (field m) (VStr (newValue m))) else Same)).

(** The callback of [case 'replace']. *)
Definition replaceRow (m : DataModification) (idx : nat) (row : Row)
  : Completion RowOut :=
  bind (isSelected m idx row) (fun sel =>
  if sel then
    let oldValue := get row (field m) in
    bind (replaceAll (toString oldValue) (nth_error (split " " (condition m)) 2)
                     (newValue m)) (fun newValue' =>
    Normal (Fresh (set row (field m) (VStr newValue'))))
  else Normal Same).

(** The callback of [case 'transform']. *)
Definition transformRow (m : DataModification) (idx : nat) (row : Row)
  : Completion RowOut :=
  bind (isSelected m idx row) (fun sel =>
  Normal (if sel
          then Fresh (set row (field m) (transformValue (get row (field m)) (newValue m)))
          else Same)).

(** The callback of [case 'delete']: [true] keeps the row. *)
Definition keepRow (m : DataModification) (idx : nat) (row : Row)
  : Completion bool :=
  bind (isSelected m idx row) (fun sel => Normal (negb sel)).

(** The row [case 'add'] builds: every available field set in turn. *)
Definition addedRow (fields : list string) (m : DataModification) : Row :=
  fold_left
    (fun newRow f =>
       set newRow f (VStr (if String.eqb f (field m) then newValue m else EmptyString)))
    fields [].

Definition mapRows (f : nat -> Row -> Completion RowOut) (data : list Row)
  : Completion (list Row) :=
  mapC (fun ir => bind (f (fst ir) (snd ir)) (fun o => Normal (rowOf (snd ir) o)))
       (indexed data).

(** The [switch] inside the [try] block. *)
Definition applyBody (data : list Row) (m : DataModification)
  : Completion (list Row) :=
  match operation m with
  | update => mapRows (updateRow m) data
  | delete =>
      bind (filterC (fun ir => keepRow m (fst ir) (snd ir)) (indexed data))
           (fun kept => Normal (map snd kept))
  | add => Normal (data ++ [addedRow (availableFields data) m])%list
  | replace => mapRows (replaceRow m) data
  | transform => mapRows (transformRow m) data
  end.

(** The updater the [catch] block hands to [setModifications]. *)
Definition setStatus (s : Status) (m : DataModification) : DataModification :=
  mkModification (id m) (command m) (operation m) (field m) (condition m)
                 (newValue m) (affectedRows m) s.

Definition markStatus (s : Status) (mid : string) (mods : list DataModification)
  : list DataModification :=
  map (fun mod' => if String.eqb (id mod') mid then setStatus s mod' else mod') mods.

(** A computation over the component state [modifications] that may end
    in an exception. *)
Definition M (A : Type) : Type :=
  list DataModification -> Completion A * list DataModification.

Definition ret {A : Type} (a : A) : M A := fun mods => (Normal a, mods).

Definition lift {A : Type} (c : Completion A) : M A := fun mods => (c, mods).

Definition setModifications
  (f : list DataModification -> list DataModification) : M unit :=
  fun mods => (Normal tt, f mods).

(** [try { return body } catch { handler } ; rest]: an exception of [body]
    runs [handler] and then falls through to [rest]. *)
Definition tryCatchThen {A : Type} (body : M A) (handler : M unit) (rest : M A)
  : M A :=
  fun mods =>
    match body mods with
    | (Normal a, mods1) => (Normal a, mods1)
    | (Throw, mods1) =>
        match handler mods1 with
        | (Normal _, mods2) => rest mods2
        | (Throw, mods2) => (Throw, mods2)
        end
    end.

(** [applyModification(modification)] on the table [data] of the
    component. *)
Definition applyModification (data : list Row) (m : DataModification)
  : M (list Row) :=
  let newData := data in               (* [...data] *)
  tryCatchThen
    (lift (applyBody newData m))
    (setModifications (markStatus failed (id m)))
    (ret newData).

(** [applyModificationToData(modification)]: the table handed to
    [onDataChange], when it is called, and the new component state. *)
Definition applyModificationToData (data : list Row) (m : DataModification)
  : list DataModification -> option (list Row) * list DataModification :=
  fun mods =>
    match applyModification data m mods with
    | (Normal newData, mods1) => (Some newData, markStatus applied (id m) mods1)
    | (Throw, mods1) => (None, markStatus failed (id m) mods1)
    end.

(** *** [processCommand] *)

(** The rows the preview lists: [index + 1] of every selected row. *)
Definition previewRows (data : list Row) (m : DataModification)
  : Completion (list nat) :=
  bind (mapC (fun ir => bind (isSelected m (fst ir) (snd ir))
                          (fun sel => Normal (if sel then [fst ir + 1] else [])))
             (indexed data))
       (fun xs => Normal (concat xs)).

Definition withAffectedRows (m : DataModification) (rows : list nat)
  : DataModification :=
  mkModification (id m) (command m) (operation m) (field m) (condition m)
                 (newValue m) rows (status m).

(** [processCommand()]: [now] is [Date.now().toString()].  The new
    modification is put in front of the list; an exception is logged and
    leaves the list as it is. *)
Definition processCommand (now : string) (previewMode : bool)
  (command0 : string) (data : list Row) (mods : list DataModification)
  : list DataModification :=
  if isEmpty (trim command0) || (List.length data =? 0)%nat then mods
  else
    match parseCommand (availableFields data) command0 with
    | None => mods
    | Some p =>
        let m := mkModification now command0 (pOperation p) (pField p)
                   (pCondition p) (pNewValue p) (pAffectedRows p) pending in
        if previewMode then
          match previewRows data m with
          | Normal rows => withAffectedRows m rows :: mods
          | Throw => mods
          end
        else m :: mods
    end.

(** *** The same function over an object store

    Rows and arrays are objects: the table is a reference to an array of
    references to rows.  A store lists the objects allocated so far; a
    reference is a position in it, and allocation appends. *)

Inductive Cell : Type :=
| RowCell (r : Row)
| ArrCell (items : list nat).

Definition Store : Type := list Cell.

Definition alloc (st : Store) (c : Cell) : nat * Store :=
  (List.length st, (st ++ [c])%list).

Definition derefRow (st : Store) (l : nat) : option Row :=
  match nth_error st l with
  | Some (RowCell r) => Some r
  | _ => None
  end.

Definition derefArr (st : Store) (l : nat) : option (list nat) :=
  match nth_error st l with
  | Some (ArrCell items) => Some items
  | _ => None
  end.

(** The rows an array of references denotes. *)
Fixpoint readRows (st : Store) (items : list nat) : option (list Row) :=
  match items with
  | [] => Some []
  | l :: rest =>
      match derefRow st l, readRows st rest with
      | Some r, Some rs => Some (r :: rs)
      | _, _ => None
      end
  end.

Definition readTable (st : Store) (arr : nat) : option (list Row) :=
  match derefArr st arr with
  | Some items => readRows st items
  | None => None
  end.

(** [items.map(callback)] where the callback returns its argument or a new
    object; an element that is no row object makes the callback throw. *)
Fixpoint mapRefs (f : nat -> Row -> Completion RowOut) (idx : nat)
  (items : list nat) (st : Store) : Completion (list nat) * Store :=
  match items with
  | [] => (Normal [], st)
  | l :: rest =>
      match derefRow st l with
      | None => (Throw, st)
      | Some row =>
          match f idx row with
          | Throw => (Throw, st)
          | Normal Same =>
              let '(out, st1) := mapRefs f (S idx) rest st in
              (bind out (fun ls => Normal (l :: ls)), st1)
          | Normal (Fresh r) =>
              let '(l', st0) := alloc st (RowCell r) in
              let '(out, st1) := mapRefs f (S idx) rest st0 in
              (bind out (fun ls => Normal (l' :: ls)), st1)
          end
      end
  end.

(** [items.filter(callback)]. *)
Fixpoint filterRefs (f : nat -> Row -> Completion bool) (idx : nat)
  (items : list nat) (st : Store) : Completion (list nat) :=
  match items with
  | [] => Normal []
  | l :: rest =>
      match derefRow st l with
      | None => Throw
      | Some row =>
          bind (f idx row) (fun keep =>
          bind (filterRefs f (S idx) rest st) (fun ls =>
          Normal (if keep then l :: ls else ls)))
      end
  end.

(** Wraps the references a branch computed into the array it returns. *)
Definition returnArray (r : Completion (list nat) * Store)
  : Completion nat * Store :=
  match r with
  | (Normal ls, st1) => let '(a, st2) := alloc st1 (ArrCell ls) in (Normal a, st2)
  | (Throw, st1) => (Throw, st1)
  end.

(** [Object.keys(data[0])], [[]] for an empty table. *)
Definition availableFieldsRef (st : Store) (items : list nat) : list string :=
  match items with
  | [] => []
  | l :: _ => match derefRow st l with Some r => keys r | None => [] end
  end.

(** The [switch], on the elements [items] of [newData]. *)
Definition applyBodyRef (fields : list string) (items : list nat)
  (m : DataModification) (st : Store) : Completion nat * Store :=
  match operation m with
  | update => returnArray (mapRefs (updateRow m) 0 items st)
  | delete => returnArray (filterRefs (keepRow m) 0 items st, st)
  | add =>
      let '(newRow, st1) := alloc st (RowCell (addedRow fields m)) in
      returnArray (Normal (items ++ [newRow])%list, st1)
  | replace => returnArray (mapRefs (replaceRow m) 0 items st)
  | transform => returnArray (mapRefs (transformRow m) 0 items st)
  end.

(** [applyModification] with the table given by reference: the result is
    the reference it returns, the store and the component state after the
    call.  [data] not being an array makes the spread [[...data]], which
    stands before the [try], throw. *)
Definition applyModificationRef (data : nat) (m : DataModification)
  (st : Store) (mods : list DataModification)
  : Completion nat * Store * list DataModification :=
  match derefArr st data with
  | None => (Throw, st, mods)
  | Some items =>
      let '(newData, st0) := alloc st (ArrCell items) in
      match applyBodyRef (availableFieldsRef st items) items m st0 with
      | (Normal out, st1) => (Normal out, st1, mods)
      | (Throw, st1) => (Normal newData, st1, markStatus failed (id m) mods)
      end
  end.

End WithHost.

End Modifier.

(* ================================================================== *)
(** ** The rule builder: [processNaturalLanguage] *)
(* ================================================================== *)

Module RuleBuilder.
Import Js Regex.

(** [interface Rule] *)
Record Rule : Type := mkRule {
  id : string;
  name : string;
  description : string;
  field : string;
  operator : string;
  value : string;
  action : string;
  priority : nat;
  isActive : bool
}.

(** [operatorMap], in the order [Object.entries] lists it. *)
Definition operatorMap : list (string * string) :=
  [ ("must be", "equals");
    ("should be", "equals");
    ("cannot be", "not_equals");
    ("must contain", "contains");
    ("cannot contain", "not_contains");
    ("must start with", "starts_with");
    ("must end with", "ends_with");
    ("must be greater than", "greater_than");
    ("must be less than", "less_than");
    ("cannot be empty", "is_not_empty");
    ("must be empty", "is_empty") ].

(** The loop over the entries: the operator of the first phrase the input
    contains, ['equals'] when it contains none. *)
Definition detectOperator (input : string) : string :=
  match find (fun entry => includes input (fst entry)) operatorMap with
  | Some entry => snd entry
  | None => "equals"
  end.

(** The pattern of the value: a double quote, a run of other characters
    as group 1, a double quote. *)
Definition isDoubleQuote (c : ascii) : bool := (code c =? 34)%nat.

Definition quotedValueRe : Re :=
  Seq (Chr isDoubleQuote)
      (Seq (Group 1 (Plus (Chr (fun c => negb (isDoubleQuote c)))))
           (Chr isDoubleQuote)).

(** The rules [fieldMatches.forEach] pushes; [now i] is [Date.now()] as
    the [i]-th callback reads it, [count] is [rules.length]. *)
Definition newRules (now : nat -> string) (count : nat)
  (naturalLanguageInput : string) (fieldMatches : list string)
  (detectedOperator value0 : string) : list Rule :=
  map (fun entry =>
         let idx := fst entry in
         mkRule (now idx ++ decimal (Z.of_nat idx))
                ("Rule " ++ decimal (Z.of_nat (count + idx + 1)))
                naturalLanguageInput (snd entry) detectedOperator value0
                "flag" (count + idx + 1) true)
      (indexed fieldMatches).

(** [processNaturalLanguage()]: the new value of [rules]. *)
Definition processNaturalLanguage (now : nat -> string)
  (availableFields : list string) (naturalLanguageInput : string)
  (rules : list Rule) : list Rule :=
  if isEmpty (trim naturalLanguageInput) then rules
  else
    let input := toLowerCase naturalLanguageInput in
    let fieldMatches :=
      filter (fun f => includes input (toLowerCase f)) availableFields in
    let detectedOperator := detectOperator input in
    let value0 := groupOr (search quotedValueRe input) 1 in
    (rules ++ newRules now (List.length rules) naturalLanguageInput fieldMatches
                       detectedOperator value0)%list.

End RuleBuilder.

(* ================================================================== *)
(** ** The validation panel: [generateSchema] and [validateData] *)
(* ================================================================== *)

Module Validation.
Import Js Regex.

(** The checks of the schema library that the model leaves open: the
    e-mail format of [z.string().email()], and whether [Date.parse] reads a
    string ([!isNaN(Date.parse(val))]). *)
Record Host : Type := mkHost {
  emailOk : string -> bool;
  dateOk : string -> bool
}.

(** The entries of [commonSchemas], each used as [.optional()]. *)
Inductive FieldSchema : Type := email | phone | date | number | required.

(** The message of an issue: one the source gives, or the library's own
    for a value of the wrong type and for a value no member of a union
    accepts. *)
Inductive Message : Type :=
| Custom (text : string)
| InvalidType (received : Value)
| InvalidUnion.

(** [interface ValidationError] *)
Record ValidationError : Type := mkError {
  field : string;
  message : Message;
  value : Value;
  rowIndex : nat
}.

(** [/^[\+]?[1-9][\d]{0,15}$/] *)
Definition phoneRe : Re :=
  Seq (Opt (chr "+")) (Seq (Chr (between 49 57)) (upTo 15 digit)).

(** The strings [Number] reads as a number: optional white space around
    nothing, a signed decimal literal or [Infinity], or a binary, octal or
    hexadecimal integer. *)
Definition sign : Re := Alt (chr "+") (chr "-").
Definition exponent : Re :=
  Seq (Alt (chr "e") (chr "E")) (Seq (Opt sign) (Plus digit)).
Definition unsignedDecimal : Re :=
  Alt (lit "Infinity")
 (Alt (Seq (Plus digit) (Seq (chr ".") (Seq (Star digit) (Opt exponent))))
 (Alt (Seq (chr ".") (Seq (Plus digit) (Opt exponent)))
      (Seq (Plus digit) (Opt exponent)))).
Definition isHexDigit (c : ascii) : bool :=
  isDigit c || between 65 70 c || between 97 102 c.
Definition nonDecimal : Re :=
  Seq (chr "0")
      (Alt (Seq (Alt (chr "b") (chr "B")) (Plus (Chr (between 48 49))))
      (Alt (Seq (Alt (chr "o") (chr "O")) (Plus (Chr (between 48 55))))
           (Seq (Alt (chr "x") (chr "X")) (Plus (Chr isHexDigit))))).
Definition numericRe : Re :=
  Seq (Star space)
      (Seq (Opt (Alt nonDecimal (Seq (Opt sign) unsignedDecimal))) (Star space)).

(** [typeof value === 'number' || !isNaN(Number(value))] *)
Definition looksNumeric (v : Value) : bool :=
  match v with
  | VNum _ => true
  | VUndefined => false
  | VNull | VBool _ => true
  | VStr s => fullMatch numericRe s
  end.

(** The schema [generateSchema] picks for one key. *)
Definition inferField (key : string) (v : Value) : FieldSchema :=
  let lowerKey := toLowerCase key in
  if includes lowerKey "email" then email
  else if includes lowerKey "phone" || includes lowerKey "mobile" then phone
  else if includes lowerKey "date" then date
  else if looksNumeric v then number
  else required.

(** [generateSchema(sampleRow)]: the shape of the object schema. *)
Definition generateSchema (sampleRow : Row) : list (string * FieldSchema) :=
  fold_left
    (fun schemaFields key => set schemaFields key (inferField key (get sampleRow key)))
    (keys sampleRow) [].

Section WithHost.

Variable host : Host.

(** Parsing one value with [commonSchemas.x.optional()]: [None] when it
    is accepted, the message of the issue otherwise. *)
Definition checkString (ok : string -> bool) (text : string) (v : Value)
  : option Message :=
  match v with
  | VStr s => if ok s then None else Some (Custom text)
  | _ => Some (InvalidType v)
  end.

Definition checkField (schema : FieldSchema) (v : Value) : option Message :=
  match v with
  | VUndefined => None
  | _ =>
      match schema with
      | email => checkString (emailOk host) "Invalid email format" v
      | phone => checkString (fullMatch phoneRe) "Invalid phone number" v
      | date => checkString (dateOk host) "Invalid date format" v
      | number =>
          match v with
          | VNum _ | VStr _ => None
          | _ => Some InvalidUnion
          end
      | required =>
          checkString (fun s => (1 <=? String.length s)%nat) "This field is required" v
      end
  end.

(** The errors [validateData] pushes for the row at [idx]: one for every
    issue of [schema.safeParse(row)], in the order of the shape. *)
Definition rowErrors (schema : list (string * FieldSchema)) (idx : nat) (row : Row)
  : list ValidationError :=
  flat_map
    (fun entry =>
       match checkField (snd entry) (get row (fst entry)) with
       | Some msg => [mkError (fst entry) msg (get row (fst entry)) (idx + 1)]
       | None => []
       end)
    schema.

(** [validateData()]: the new value of [validationErrors]; an empty table
    leaves the old one. *)
Definition validateData (data : list Row) (validationErrors : list ValidationError)
  : list ValidationError :=
  match data with
  | [] => validationErrors
  | first :: _ =>
      let schema := generateSchema first in
      flat_map (fun ir => rowErrors schema (fst ir) (snd ir)) (indexed data)
  end.

End WithHost.

End Validation.

(* ================================================================== *)
(** ** The natural-language search: [processQuery] and [searchData] *)
(* ================================================================== *)

Module Search.
Import Js Regex.

(** [interface SearchResult] *)
Record SearchResult : Type := mkResult {
  rowIndex : nat;
  row : Row;
  score : Z;
  matchedFields : list string;
  highlight : string
}.

(** [/(\w+):\s*([^\s]+)/g] *)
Definition filterRe : Re :=
  Seq (Group 1 (Plus word))
      (Seq (chr ":") (Seq (Star space) (Group 2 (Plus notSpace)))).

(** [processQuery(query)]: the keywords and the filters. *)
Definition keywordsOf (query : string) : list string :=
  let words := filter (fun w => (0 <? String.length w)%nat) (splitSpaces query) in
  filter (fun cleanWord => (2 <? String.length cleanWord)%nat)
         (map (filterStr isWord) words).

Definition filtersOf (query : string) : list (string * string) :=
  fold_left (fun filters m => set filters (groupOr (Some m) 1) (groupOr (Some m) 2))
            (allMatches filterRe query) [].

Definition processQuery (query : string) : list string * list (string * string) :=
  (keywordsOf query, filtersOf query).

(** The three accumulators of the loop over a row. *)
Record Acc : Type := mkAcc {
  accScore : Z;
  accFields : list string;
  accHighlight : string
}.

Definition mentions (fields : list string) (f : string) : bool :=
  existsb (String.eqb f) fields.

(** [score += n; if (!matchedFields.includes(field)) matchedFields.push(field);
    highlight += `${field}: ${value} `] *)
Definition hit (n : Z) (fld : string) (v : Value) (a : Acc) : Acc :=
  mkAcc (accScore a + n)
        (if mentions (accFields a) fld then accFields a else (accFields a ++ [fld])%list)
        (accHighlight a ++ fld ++ ": " ++ toString v ++ " ").

(** The filter hit pushes the field without looking. *)
Definition filterHit (fld : string) (v : Value) (a : Acc) : Acc :=
  mkAcc (accScore a + 10) (accFields a ++ [fld])%list
        (accHighlight a ++ fld ++ ": " ++ toString v ++ " ").

(** The body of [Object.entries(row).forEach]. *)
Definition visitField (query : string) (keywords : list string)
  (filters : list (string * string)) (a : Acc) (entry : string * Value) : Acc :=
  let fld := fst entry in
  let v := snd entry in
  let fieldValue := toLowerCase (toString v) in
  let a1 :=
    match lookup filters fld with
    | Some wanted =>
        if negb (isEmpty wanted) && includes fieldValue (toLowerCase wanted)
        then filterHit fld v a else a
    | None => a
    end in
  let a2 :=
    fold_left (fun acc keyword =>
                 if includes fieldValue keyword then hit 5 fld v acc else acc)
              keywords a1 in
  if String.eqb fieldValue (toLowerCase query) then hit 20 fld v a2 else a2.

Definition scoreRow (query : string) (keywords : list string)
  (filters : list (string * string)) (r : Row) : Acc :=
  fold_left (visitField query keywords filters) r (mkAcc 0 [] EmptyString).

(** The body of [data.forEach]: the result pushed for a row, if any. *)
Definition visitRow (query : string) (keywords : list string)
  (filters : list (string * string)) (idx : nat) (r : Row) : list SearchResult :=
  let a := scoreRow query keywords filters r in
  if (0 <? accScore a)%Z
  then [mkResult (idx + 1) r (accScore a) (accFields a) (trim (accHighlight a))]
  else [].

(** [(a, b) => b.score - a.score] *)
Definition byScore (a b : SearchResult) : Z := score b - score a.

(** [Array.prototype.sort] with a comparison function: the sort is stable,
    so its result is the one insertion from the right computes.  [x] stood
    before every element of the list it is inserted into. *)
Fixpoint insertSorted {A : Type} (cmp : A -> A -> Z) (x : A) (xs : list A) : list A :=
  match xs with
  | [] => [x]
  | y :: rest =>
      if (cmp x y <=? 0)%Z then x :: y :: rest
      else y :: insertSorted cmp x rest
  end.

Definition sortBy {A : Type} (cmp : A -> A -> Z) (xs : list A) : list A :=
  fold_right (insertSorted cmp) [] xs.

(** [searchData()]: the new value of [results]. *)
Definition searchData (data : list Row) (query : string) : list SearchResult :=
  if isEmpty (trim query) || (List.length data =? 0)%nat then []
  else
    let '(keywords, filters) := processQuery query in
    let searchResults :=
      flat_map (fun ir => visitRow query keywords filters (fst ir) (snd ir))
               (indexed data) in
    sortBy byScore searchResults.

End Search.

(* ================================================================== *)
(** ** The search as the component runs it: [try], [catch] and the state *)
(* ================================================================== *)

(** [Search] computes the results from the own entries of [filters].  Here
    the same functions are written with the property reads of the source as
    JavaScript performs them: [filters[field]] may reach a member every
    object inherits, and then [filters[field].toLowerCase()] throws.  The
    exception is caught by [searchData], which sets [error] and leaves
    [results] as they were. *)
Module SearchRun.
Import Js Regex Search.

(** What [filters[field]] reads. *)
Inductive Slot : Type :=
| Text (s : string)
| Member
| Absent.

(** [filters[k] = v] for a string [v]: the assignment to [__proto__] goes to
    the inherited setter, which ignores a value that is no object; every
    other name becomes, or stays, an own key. *)
Definition assign (filters : list (string * string)) (k v : string)
  : list (string * string) :=
  if String.eqb k "__proto__" then filters else set filters k v.

Definition filtersOf (query : string) : list (string * string) :=
  fold_left (fun filters m => assign filters (groupOr (Some m) 1) (groupOr (Some m) 2))
            (allMatches filterRe query) [].

Definition processQuery (query : string) : list string * list (string * string) :=
  (keywordsOf query, filtersOf query).

Definition slot (filters : list (string * string)) (fld : string) : Slot :=
  match lookup filters fld with
  | Some s => Text s
  | None => if isInherited fld then Member else Absent
  end.

(** The body of [Object.entries(row).forEach].  In
    [filters[field] && fieldValue.includes(filters[field].toLowerCase())]
    an inherited member is truthy and its [toLowerCase] is [undefined]: the
    call is a [TypeError]. *)
Definition visitField (query : string) (keywords : list string)
  (filters : list (string * string)) (a : Acc) (entry : string * Value)
  : Completion Acc :=
  let fld := fst entry in
  let v := snd entry in
  let fieldValue := toLowerCase (toString v) in
  bind
    (match slot filters fld with
     | Text wanted =>
         Normal (if negb (isEmpty wanted) && includes fieldValue (toLowerCase wanted)
                 then filterHit fld v a else a)
     | Member => Throw
     | Absent => Normal a
     end)
    (fun a1 =>
       let a2 :=
         fold_left (fun acc keyword =>
                      if includes fieldValue keyword then hit 5 fld v acc else acc)
                   keywords a1 in
       Normal (if String.eqb fieldValue (toLowerCase query)
               then hit 20 fld v a2 else a2)).

Definition scoreRow (query : string) (keywords : list string)
  (filters : list (string * string)) (r : Row) : Completion Acc :=
  foldC (visitField query keywords filters) r (mkAcc 0 [] EmptyString).

(** The body of [data.forEach]. *)
Definition visitRow (query : string) (keywords : list string)
  (filters : list (string * string)) (idx : nat) (r : Row)
  : Completion (list SearchResult) :=
  bind (scoreRow query keywords filters r) (fun a =>
  Normal (if (0 <? accScore a)%Z
          then [mkResult (idx + 1) r (accScore a) (accFields a)
                         (trim (accHighlight a))]
          else [])).

(** The block of the [try]: the sorted [searchResults]. *)
Definition found (data : list Row) (query : string)
  : Completion (list SearchResult) :=
  let '(keywords, filters) := processQuery query in
  bind (mapC (fun ir => visitRow query keywords filters (fst ir) (snd ir))
             (indexed data))
       (fun pushed => Normal (sortBy byScore (concat pushed))).

(** The two pieces of state [searchData] writes. *)
Record View : Type := mkView {
  results : list SearchResult;
  error : option string
}.

(** [searchData()], from the state it finds to the state it leaves.  The
    component is given no [onSearchResults]. *)
Definition searchData (data : list Row) (query : string) (st : View) : View :=
  if isEmpty (trim query) || (List.length data =? 0)%nat
  then mkView [] (error st)
  else
    match found data query with
    | Normal searchResults => mkView searchResults None
    | Throw => mkView (results st) (Some "Search failed. Please try again.")
    end.

End SearchRun.

(* ================================================================== *)
(** ** Rows paired with their index *)
(* ================================================================== *)

Module IndexFacts.
Import Js.

Lemma map_snd_indexedFrom {A : Type} (xs : list A) : forall i,
  map snd (indexedFrom i xs) = xs.
Proof.
  induction xs as [|x rest IH]; intros i; simpl.
  - reflexivity.
  - now rewrite IH.
Qed.

Lemma in_indexedFrom {A : Type} (xs : list A) : forall k i x,
  In (i, x) (indexedFrom k xs) -> k <= i /\ nth_error xs (i - k) = Some x.
Proof.
  induction xs as [|y rest IH]; intros k i x H; simpl in H.
  - contradiction.
  - destruct H as [H|H].
    + injection H as <- <-. split; [lia|]. now rewrite Nat.sub_diag.
    + apply IH in H. destruct H as [Hle Hnth]. split; [lia|].
      replace (i - k) with (S (i - S k)) by lia. exact Hnth.
Qed.

Lemma nth_indexedFrom {A : Type} (xs : list A) : forall k j x,
  nth_error xs j = Some x -> In (k + j, x) (indexedFrom k xs).
Proof.
  induction xs as [|y rest IH]; intros k j x H.
  - destruct j; discriminate H.
  - destruct j as [|j']; simpl in *.
    + injection H as <-. left. now rewrite Nat.add_0_r.
    + right. replace (k + S j') with (S k + j') by lia. now apply IH.
Qed.

End IndexFacts.

(* ================================================================== *)
(** ** Properties of the command parser and the modification applier *)
(* ================================================================== *)

Module ModifierFacts.
Import Js Regex Modifier IndexFacts.

(** *** Traversals whose callback changes nothing *)

Lemma mapC_fixes {A B : Type} (g : A -> Completion B) (h : A -> B) (xs : list A) :
  (forall x, In x xs -> g x = Normal (h x)) ->
  mapC g xs = Normal (map h xs).
Proof.
  induction xs as [|x rest IH]; intros Hg; simpl.
  - reflexivity.
  - rewrite (Hg x (or_introl eq_refl)). simpl.
    rewrite IH by (intros y Hy; apply Hg; now right).
    reflexivity.
Qed.

Lemma filterC_keeps_all {A : Type} (g : A -> Completion bool) (xs : list A) :
  (forall x, In x xs -> g x = Normal true) ->
  filterC g xs = Normal xs.
Proof.
  induction xs as [|x rest IH]; intros Hg; simpl.
  - reflexivity.
  - rewrite (Hg x (or_introl eq_refl)). simpl.
    rewrite IH by (intros y Hy; apply Hg; now right).
    reflexivity.
Qed.

(** Composition of the two handlers the user triggers in turn: typing a
    command ([processCommand], preview off, empty history) and pressing
    Apply on the modification it created ([applyModificationToData]).  The
    result is the table handed to [onDataChange]. *)
Definition parseAndApply (host : Host) (now command0 : string) (data : list Row)
  : option (list Row) :=
  match processCommand host now false command0 data [] with
  | m :: mods => fst (applyModificationToData host data m (m :: mods))
  | [] => None
  end.

Section Facts.

Variable host : Host.

Lemma isSelected_nothing (m : DataModification) (idx : nat) (row : Row) :
  affectedRows m = [] -> condition m = EmptyString ->
  isSelected host m idx row = Normal false.
Proof.
  intros Hrows Hcond. unfold isSelected. now rewrite Hrows, Hcond.
Qed.

Lemma mapRows_same (f : nat -> Row -> Completion RowOut) (data : list Row) :
  (forall i r, f i r = Normal Same) -> mapRows f data = Normal data.
Proof.
  intros Hf. unfold mapRows.
  rewrite (mapC_fixes _ snd).
  - unfold indexed. now rewrite map_snd_indexedFrom.
  - intros [i r] _. simpl. now rewrite Hf.
Qed.

Lemma applyBody_nothing_selected (data : list Row) (m : DataModification) :
  operation m <> add ->
  affectedRows m = [] -> condition m = EmptyString ->
  applyBody host data m = Normal data.
Proof.
  intros Hop Hrows Hcond. unfold applyBody.
  destruct (operation m) eqn:Eop.
  - apply mapRows_same. intros i r. unfold updateRow.
    now rewrite isSelected_nothing.
  - rewrite filterC_keeps_all.
    + simpl. unfold indexed. now rewrite map_snd_indexedFrom.
    + intros [i r] _. unfold keepRow. simpl. now rewrite isSelected_nothing.
  - congruence.
  - apply mapRows_same. intros i r. unfold replaceRow.
    now rewrite isSelected_nothing.
  - apply mapRows_same. intros i r. unfold transformRow.
    now rewrite isSelected_nothing.
Qed.

(** C2.  An update, delete, replace or transform whose [affectedRows] is
    empty and whose condition is absent (the empty string) selects no row:
    [applyModification] returns the table it was given and leaves the
    history untouched; no exception is involved. *)
Theorem apply_without_selection_is_noop
  (data : list Row) (m : DataModification) (mods : list DataModification) :
  operation m <> add ->
  affectedRows m = [] ->
  condition m = EmptyString ->
  applyModification host data m mods = (Normal data, mods).
Proof.
  intros Hop Hrows Hcond.
  unfold applyModification, tryCatchThen, lift.
  now rewrite applyBody_nothing_selected.
Qed.

End Facts.

(** The tables and phrases of the examples. *)
Definition johnJane : list Row :=
  [ [("name", VStr "John Doe"); ("email", VStr "j@x.com")];
    [("name", VStr "Jane"); ("email", VStr "a@x.com")] ].

Definition johnJaneEmailFirst : list Row :=
  [ [("email", VStr "j@x.com"); ("name", VStr "John Doe")];
    [("email", VStr "a@x.com"); ("name", VStr "Jane")] ].

Definition emailPhrase : string :=
  "Update email field to uppercase where name contains John".

Definition middleDoe : list Row := [ [("name", VStr "John Middle Doe")] ].

Definition wordcountPhrase : string := "Transform name field to wordcount".

Definition trimEverything : DataModification :=
  mkModification "1" "Transform name field to trim" transform "name"
                 EmptyString "trim" [] pending.

(** The theorem of C2 at a transform without row numbers and without a
    condition, on the two-row table. *)
Lemma apply_without_selection_example :
  (operation trimEverything <> add /\
   affectedRows trimEverything = [] /\
   condition trimEverything = EmptyString) /\
  forall host,
    applyModification host johnJane trimEverything [trimEverything]
    = (Normal johnJane, [trimEverything]).
Proof.
  split.
  - split; [discriminate | split; reflexivity].
  - intros host.
    apply (apply_without_selection_is_noop host johnJane trimEverything);
      [discriminate | reflexivity | reflexivity].
Defined.

(** The parser resolves the field of the e-mail phrase to [name], the
    first key of the first row that occurs in the phrase, and reads the
    transform and the condition. *)
Lemma parse_email_phrase :
  parseCommand (availableFields johnJane) emailPhrase
  = Some (mkParsed transform "name" "name contains john" "uppercase" []).
Proof. vm_compute. reflexivity. Qed.

Lemma parseAndApply_email_phrase (host : Host) (now : string) :
  parseAndApply host now emailPhrase johnJane
  = Some [ [("name", VStr "JOHN DOE"); ("email", VStr "j@x.com")];
           [("name", VStr "Jane"); ("email", VStr "a@x.com")] ].
Proof. vm_compute. reflexivity. Qed.

(** C1, as stated, fails: on the table whose rows list [name] before
    [email], the e-mail of row 1 is not upper-cased. *)
Lemma email_phrase_leaves_email :
  ~ (forall (host : Host) (now : string),
       exists row1,
         parseAndApply host now emailPhrase johnJane
         = Some [row1; [("name", VStr "Jane"); ("email", VStr "a@x.com")]]
         /\ get row1 "email" = VStr "J@X.COM").
Proof.
  intros H.
  destruct (H (mkHost (fun _ _ => false) (fun _ _ => false) (fun _ _ _ => None))
              EmptyString) as [row1 [Heq Hemail]].
  rewrite parseAndApply_email_phrase in Heq.
  injection Heq as Hrow. subst row1. discriminate Hemail.
Qed.

(** C1, amended.  With the field order name, email the phrase upper-cases
    the name of row 1 (the resolver takes the first field of the field set
    that occurs anywhere in the phrase, here in its where clause) and leaves
    both e-mails and row 2 as they were; with the field order email, name
    the e-mail of row 1 becomes J@X.COM and row 2 is unchanged. *)
Theorem email_phrase_follows_field_order (host : Host) (now : string) :
  parseAndApply host now emailPhrase johnJane
  = Some [ [("name", VStr "JOHN DOE"); ("email", VStr "j@x.com")];
           [("name", VStr "Jane"); ("email", VStr "a@x.com")] ]
  /\
  parseAndApply host now emailPhrase johnJaneEmailFirst
  = Some [ [("email", VStr "J@X.COM"); ("name", VStr "John Doe")];
           [("email", VStr "a@x.com"); ("name", VStr "Jane")] ].
Proof. split; vm_compute; reflexivity. Qed.

Lemma parseAndApply_wordcount_phrase (host : Host) (now : string) :
  parseAndApply host now wordcountPhrase middleDoe = Some middleDoe.
Proof. vm_compute. reflexivity. Qed.

(** C3, as stated, fails: the phrase names no row and has no where
    clause, so no row is selected and the name is not replaced by 3. *)
Lemma wordcount_phrase_selects_nothing :
  ~ (forall (host : Host) (now : string),
       exists row1,
         parseAndApply host now wordcountPhrase middleDoe = Some [row1]
         /\ get row1 "name" = VNum 3).
Proof.
  intros H.
  destruct (H (mkHost (fun _ _ => false) (fun _ _ => false) (fun _ _ _ => None))
              EmptyString) as [row1 [Heq Hname]].
  rewrite parseAndApply_wordcount_phrase in Heq.
  injection Heq as Hrow. subst row1. discriminate Hname.
Qed.

(** C3, amended.  The phrase parses to a transform of [name] by
    [wordcount] with no row number and no condition, and applying it
    returns the table unchanged; the same phrase with the row named,
    [... row 1], turns the name of row 1 into the number 3. *)
Theorem wordcount_needs_a_selected_row (host : Host) (now : string) :
  parseCommand (availableFields middleDoe) wordcountPhrase
  = Some (mkParsed transform "name" EmptyString "wordcount" [])
  /\
  parseAndApply host now wordcountPhrase middleDoe = Some middleDoe
  /\
  parseAndApply host now (wordcountPhrase ++ " row 1") middleDoe
  = Some [ [("name", VNum 3)] ].
Proof. repeat split; vm_compute; reflexivity. Qed.

(** *** Replace without a condition *)

Definition insertEverywhere : DataModification :=
  mkModification "2" "Replace with X in name field row 1" replace "name"
                 EmptyString "X" [1] pending.

Lemma replaceRow_without_condition (host : Host) (m : DataModification)
  (idx : nat) (row : Row) :
  condition m = EmptyString ->
  existsb (Nat.eqb (idx + 1)) (affectedRows m) = true ->
  replaceRow host m idx row
  = Normal (Fresh (set row (field m)
                       (VStr (replaceEmpty (toString (get row (field m))) (newValue m))))).
Proof.
  intros Hcond Hsel. unfold replaceRow, isSelected.
  rewrite Hsel, Hcond. reflexivity.
Qed.

(** C4 on the code.  A replace without a condition whose [affectedRows]
    names row 1 does change the field of that row: the pattern is built
    from [undefined], matches the empty string at every position, and the
    new value is inserted before every character and at the end; a field
    that held a number, or none, ends up holding a string. *)
Theorem replace_without_condition_inserts (host : Host)
  (mods : list DataModification) :
  applyModification host [ [("name", VStr "abc")] ] insertEverywhere mods
  = (Normal [ [("name", VStr "XaXbXcX")] ], mods)
  /\
  applyModification host [ [("name", VNum 7)]; [("name", VStr "abc")] ]
                    insertEverywhere mods
  = (Normal [ [("name", VStr "X7X")]; [("name", VStr "abc")] ], mods)
  /\
  applyModification host [ [("email", VStr "j@x.com")] ] insertEverywhere mods
  = (Normal [ [("email", VStr "j@x.com");
               ("name", VStr "XuXnXdXeXfXiXnXeXdX")] ], mods).
Proof. repeat split. Qed.

(** *** Exceptions stay inside [applyModification] *)

Lemma markStatus_sets (s : Status) (mid : string) (mods : list DataModification) :
  forall r, In r (markStatus s mid mods) -> id r = mid -> status r = s.
Proof.
  intros r Hin Hid. unfold markStatus in Hin.
  apply in_map_iff in Hin. destruct Hin as [r0 [Hr _]].
  destruct (String.eqb (id r0) mid) eqn:E.
  - subst r. reflexivity.
  - subst r. apply String.eqb_neq in E. contradiction.
Qed.

Lemma markStatus_length (s : Status) (mid : string) (mods : list DataModification) :
  List.length (markStatus s mid mods) = List.length mods.
Proof. unfold markStatus. apply length_map. Qed.

(** The two ways [applyModification] ends, by the way the [switch]
    ends. *)
Lemma applyModification_cases (host : Host)
  (data : list Row) (m : DataModification) (mods : list DataModification) :
  applyModification host data m mods
  = match applyBody host data m with
    | Normal out => (Normal out, mods)
    | Throw => (Normal data, markStatus failed (id m) mods)
    end.
Proof.
  unfold applyModification, tryCatchThen, lift, setModifications, ret.
  now destruct (applyBody host data m).
Qed.

(** C8.  [applyModification] ends normally on every table, modification
    and history.  When the [switch] ends normally its result is returned and
    the history is untouched.  When it throws, the exception is caught: the
    copy of the input table is returned, and the history is the old one with
    the status of every record carrying the id of the modification set to
    [failed]. *)
Theorem applyModification_total (host : Host)
  (data : list Row) (m : DataModification) (mods : list DataModification) :
  exists (out : list Row) (mods' : list DataModification),
    applyModification host data m mods = (Normal out, mods')
    /\ (forall out', applyBody host data m = Normal out' ->
          out = out' /\ mods' = mods)
    /\ (applyBody host data m = Throw ->
          out = data
          /\ mods' = markStatus failed (id m) mods
          /\ forall r, In r mods' -> id r = id m -> status r = failed).
Proof.
  rewrite applyModification_cases.
  destruct (applyBody host data m) as [out|] eqn:Ebody.
  - exists out, mods. split; [reflexivity|]. split.
    + intros out' Hout. injection Hout as <-. now split.
    + discriminate.
  - exists data, (markStatus failed (id m) mods). split; [reflexivity|]. split.
    + discriminate.
    + intros _. split; [reflexivity|]. split; [reflexivity|].
      apply markStatus_sets.
Qed.

(** The exceptional case arises: a condition of a single word has no
    value, so evaluating it throws, whatever the host does. *)
Definition brokenCondition : DataModification :=
  mkModification "3" "hand-made" update "name" "name" "x" [] pending.

Lemma applyModification_catches (host : Host) :
  applyBody host johnJane brokenCondition = Throw
  /\
  applyModification host johnJane brokenCondition [brokenCondition; trimEverything]
  = (Normal johnJane, [setStatus failed brokenCondition; trimEverything]).
Proof. split; reflexivity. Qed.

(** What the caller makes of it: [applyModificationToData] marks the
    record [applied] after [applyModification] returned, also when the
    [catch] block had marked it [failed]. *)
Lemma applyModificationToData_marks_applied (host : Host)
  (data : list Row) (m : DataModification) (mods : list DataModification) :
  forall r, In r (snd (applyModificationToData host data m mods)) ->
            id r = id m -> status r = applied.
Proof.
  intros r. unfold applyModificationToData.
  rewrite applyModification_cases.
  destruct (applyBody host data m); simpl; apply markStatus_sets.
Qed.

(** *** The coercion of [evaluateCondition] *)

Fixpoint hasChar (c : ascii) (s : string) : bool :=
  match s with
  | EmptyString => false
  | String c' s' => Ascii.eqb c' c || hasChar c s'
  end.

Lemma split_before_separator (sep : ascii) (s t : string) :
  hasChar sep s = false ->
  split sep (s ++ String sep t) = s :: split sep t.
Proof.
  induction s as [|c s' IH]; intros Hno; simpl.
  - now rewrite Ascii.eqb_refl.
  - simpl in Hno. apply orb_false_iff in Hno. destruct Hno as [Hc Hs].
    rewrite Hc. now rewrite (IH Hs).
Qed.

Lemma isEmpty_append_nonempty (s : string) (c : ascii) (t : string) :
  isEmpty (s ++ String c t) = false.
Proof. destruct s; reflexivity. Qed.

Lemma get_set_same (row : Row) (k : string) (v : Value) :
  get (set row k v) k = v.
Proof.
  induction row as [|[k' v'] rest IH]; simpl.
  - now rewrite String.eqb_refl.
  - destruct (String.eqb k' k) eqn:E; simpl; now rewrite E.
Qed.

Lemma fieldText_falsy (row : Row) (fld : string) :
  truthy (get row fld) = false -> fieldText row fld = EmptyString.
Proof.
  intros Hf. unfold fieldText, orElse. now rewrite Hf.
Qed.

(** A condition whose first word is [fld] reads the row through
    [fieldText row fld] only. *)
Lemma evaluateCondition_reads_fieldText (host : Host) (row row' : Row)
  (cond : string) :
  fieldText row (nth 0 (split " " cond) EmptyString)
  = fieldText row' (nth 0 (split " " cond) EmptyString) ->
  evaluateCondition host row cond = evaluateCondition host row' cond.
Proof.
  intros Heq. unfold evaluateCondition. now rewrite Heq.
Qed.

Lemma split_without_separator (sep : ascii) (s : string) :
  hasChar sep s = false -> split sep s = [s].
Proof.
  induction s as [|c s' IH]; intros Hno; simpl.
  - reflexivity.
  - simpl in Hno. apply orb_false_iff in Hno. destruct Hno as [Hc Hs].
    rewrite Hc. now rewrite (IH Hs).
Qed.

Lemma equality_clause (host : Host) (row : Row) (fld value0 : string) :
  hasChar " " fld = false ->
  hasChar " " value0 = false ->
  evaluateCondition host row (fld ++ " = " ++ value0)
  = Normal (String.eqb (fieldText row fld) (toLowerCase value0)).
Proof.
  intros Hfld Hval. unfold evaluateCondition.
  change (fld ++ " = " ++ value0) with (fld ++ String " " ("=" ++ String " " value0)).
  rewrite isEmpty_append_nonempty.
  rewrite (split_before_separator " " fld _ Hfld).
  rewrite (split_before_separator " " "=" value0 eq_refl).
  rewrite (split_without_separator " " value0 Hval).
  reflexivity.
Qed.

(** C10.  [evaluateCondition] reads the field as
    [String(row[field] || '').toLowerCase()], so a falsy value (the number
    0, [false], [null], an absent field, the empty string) is compared as
    the empty string: the row is treated like the same row with the field
    set to [''], whatever the clause.  In particular the clauses [fld = 0]
    and [fld = false] do not match it.  The field is a word of the clause,
    so it holds no space, and its name is not that of a member every object
    inherits: under such a name an absent field reads the inherited
    member, which is no falsy value. *)
Theorem falsy_field_compares_as_empty (host : Host) (row : Row) (fld : string) :
  hasChar " " fld = false ->
  isInherited fld = false ->
  truthy (get row fld) = false ->
  fieldText row fld = EmptyString
  /\ (forall cond, nth 0 (split " " cond) EmptyString = fld ->
        evaluateCondition host row cond
        = evaluateCondition host (set row fld (VStr EmptyString)) cond)
  /\ evaluateCondition host row (fld ++ " = 0") = Normal false
  /\ evaluateCondition host row (fld ++ " = false") = Normal false.
Proof.
  intros Hfld _ Hfalsy.
  pose proof (fieldText_falsy row fld Hfalsy) as Htext.
  split; [exact Htext|]. split.
  - intros cond Hcond. apply evaluateCondition_reads_fieldText.
    rewrite Hcond, Htext. unfold fieldText. now rewrite get_set_same.
  - split.
    + change (fld ++ " = 0") with (fld ++ " = " ++ "0").
      rewrite (equality_clause host row fld "0" Hfld eq_refl). now rewrite Htext.
    + change (fld ++ " = false") with (fld ++ " = " ++ "false").
      rewrite (equality_clause host row fld "false" Hfld eq_refl). now rewrite Htext.
Qed.

(** The theorem of C10 at a row whose [count] is the number 0 and whose
    [active] is [false]. *)
Definition zeroRow : Row :=
  [("id", VStr "a1"); ("count", VNum 0); ("active", VBool false)].

Lemma falsy_field_example :
  (hasChar " " "count" = false
   /\ isInherited "count" = false
   /\ truthy (get zeroRow "count") = false)
  /\ forall host,
       fieldText zeroRow "count" = EmptyString
       /\ (forall cond, nth 0 (split " " cond) EmptyString = "count" ->
             evaluateCondition host zeroRow cond
             = evaluateCondition host (set zeroRow "count" (VStr EmptyString)) cond)
       /\ evaluateCondition host zeroRow "count = 0" = Normal false
       /\ evaluateCondition host zeroRow "count = false" = Normal false.
Proof.
  split.
  - repeat split; reflexivity.
  - intros host.
    apply (falsy_field_compares_as_empty host zeroRow "count"); reflexivity.
Defined.

Lemma false_field_never_equals_false (host : Host) :
  evaluateCondition host zeroRow "active = false" = Normal false
  /\ evaluateCondition host zeroRow "id = a1" = Normal true.
Proof. split; reflexivity. Qed.

End ModifierFacts.

(* ================================================================== *)
(** ** The applier and the objects it is given *)
(* ================================================================== *)

Module StoreFacts.
Import Js Modifier.

(** [st'] holds every object of [st] unchanged, and possibly new ones. *)
Definition extends (st st' : Store) : Prop :=
  exists extra, st' = (st ++ extra)%list.

Lemma extends_refl (st : Store) : extends st st.
Proof. exists []. now rewrite app_nil_r. Qed.

Lemma extends_trans (a b c : Store) : extends a b -> extends b c -> extends a c.
Proof.
  intros [x ->] [y ->]. exists (x ++ y)%list. now rewrite app_assoc.
Qed.

Lemma extends_alloc (st : Store) (c : Cell) : extends st (snd (alloc st c)).
Proof. now exists [c]. Qed.

Lemma extends_length (st st' : Store) :
  extends st st' -> List.length st <= List.length st'.
Proof. intros [x ->]. rewrite length_app. lia. Qed.

Lemma extends_nth (st st' : Store) (l : nat) :
  extends st st' -> l < List.length st -> nth_error st' l = nth_error st l.
Proof. intros [x ->] Hl. now apply nth_error_app1. Qed.

Lemma nth_error_alloc (st : Store) (c : Cell) :
  nth_error (snd (alloc st c)) (fst (alloc st c)) = Some c.
Proof.
  simpl. rewrite nth_error_app2 by lia. now rewrite Nat.sub_diag.
Qed.

Lemma derefRow_bound (st : Store) (l : nat) (r : Row) :
  derefRow st l = Some r -> l < List.length st.
Proof.
  unfold derefRow. intros H. apply nth_error_Some.
  destruct (nth_error st l); [discriminate | discriminate H].
Qed.

Lemma extends_derefRow (st st' : Store) (l : nat) (r : Row) :
  extends st st' -> derefRow st l = Some r -> derefRow st' l = Some r.
Proof.
  intros Hext H. unfold derefRow.
  rewrite (extends_nth st st' l Hext (derefRow_bound st l r H)). exact H.
Qed.

Lemma extends_derefArr (st st' : Store) (l : nat) (items : list nat) :
  extends st st' -> derefArr st l = Some items -> derefArr st' l = Some items.
Proof.
  intros Hext H. unfold derefArr.
  assert (Hl : l < List.length st).
  { apply nth_error_Some. unfold derefArr in H.
    destruct (nth_error st l); [discriminate | discriminate H]. }
  rewrite (extends_nth st st' l Hext Hl). exact H.
Qed.

Lemma extends_readRows (st st' : Store) (items : list nat) :
  extends st st' ->
  forall rows, readRows st items = Some rows -> readRows st' items = Some rows.
Proof.
  intros Hext. induction items as [|l rest IH]; intros rows H; simpl in *.
  - exact H.
  - destruct (derefRow st l) as [r|] eqn:Er; [|discriminate].
    destruct (readRows st rest) as [rs|] eqn:Ers; [|discriminate].
    rewrite (extends_derefRow st st' l r Hext Er), (IH rs eq_refl). exact H.
Qed.

Lemma bind_cons_normal (out : Completion (list nat)) (l : nat) (ls0 : list nat) :
  bind out (fun ls => Normal (l :: ls)) = Normal ls0 ->
  exists ls, out = Normal ls /\ ls0 = l :: ls.
Proof.
  destruct out as [ls|]; simpl; intros H; [|discriminate].
  injection H as <-. now exists ls.
Qed.

(** An element of the result is an element of the input or was allocated
    by the traversal. *)
Definition oldOrNew (st : Store) (items : list nat) (l : nat) : Prop :=
  In l items \/ List.length st <= l.

Section Frame.

Variable host : Host.

Lemma mapRefs_frame (f : nat -> Row -> Completion RowOut) :
  forall (items : list nat) (idx : nat) (st : Store),
    extends st (snd (mapRefs f idx items st))
    /\ forall ls, fst (mapRefs f idx items st) = Normal ls ->
                  Forall (oldOrNew st items) ls.
Proof.
  induction items as [|l rest IH]; intros idx st; simpl.
  - split; [apply extends_refl|]. intros ls H. injection H as <-. constructor.
  - destruct (derefRow st l) as [row|]; [|split; [apply extends_refl|discriminate]].
    destruct (f idx row) as [[|r]|]; [| |split; [apply extends_refl|discriminate]].
    + destruct (IH (S idx) st) as [Hext Hls].
      destruct (mapRefs f (S idx) rest st) as [out st1]. simpl in *.
      split; [exact Hext|]. intros ls0 H.
      apply bind_cons_normal in H. destruct H as [ls [-> ->]].
      constructor.
      * left. now left.
      * eapply Forall_impl; [|apply (Hls ls eq_refl)].
        intros x [Hx|Hx]; [left; now right | now right].
    + destruct (IH (S idx) (st ++ [RowCell r])%list) as [Hext Hls].
      destruct (mapRefs f (S idx) rest (st ++ [RowCell r])%list) as [out st1].
      simpl in *.
      assert (Hext0 : extends st (st ++ [RowCell r])%list) by now exists [RowCell r].
      split; [eapply extends_trans; eassumption|]. intros ls0 H.
      apply bind_cons_normal in H. destruct H as [ls [-> ->]].
      constructor.
      * right. apply le_n.
      * eapply Forall_impl; [|apply (Hls ls eq_refl)].
        intros x [Hx|Hx]; [left; now right|].
        right. rewrite length_app in Hx. simpl in Hx. lia.
Qed.

Lemma filterRefs_frame (f : nat -> Row -> Completion bool) (st : Store) :
  forall (items : list nat) (idx : nat) (ls : list nat),
    filterRefs f idx items st = Normal ls -> Forall (oldOrNew st items) ls.
Proof.
  induction items as [|l rest IH]; intros idx ls H; simpl in H.
  - injection H as <-. constructor.
  - destruct (derefRow st l) as [row|]; [|discriminate].
    destruct (f idx row) as [keep|]; [|discriminate]. simpl in H.
    destruct (filterRefs f (S idx) rest st) as [ls'|] eqn:E; [|discriminate].
    simpl in H. injection H as <-.
    assert (Hrest : Forall (oldOrNew st (l :: rest)) ls').
    { eapply Forall_impl; [|apply (IH (S idx) ls' E)].
      intros x [Hx|Hx]; [left; now right | now right]. }
    destruct keep; [constructor; [left; now left | exact Hrest] | exact Hrest].
Qed.

(** What [returnArray] adds to the facts about a traversal. *)
Lemma returnArray_frame (st st1 : Store) (items : list nat)
  (out : Completion (list nat)) :
  extends st st1 ->
  (forall ls, out = Normal ls -> Forall (oldOrNew st items) ls) ->
  extends st (snd (returnArray (out, st1)))
  /\ forall a, fst (returnArray (out, st1)) = Normal a ->
       List.length st <= a
       /\ exists items', derefArr (snd (returnArray (out, st1))) a = Some items'
                         /\ Forall (oldOrNew st items) items'.
Proof.
  intros Hext Hls. destruct out as [ls|]; simpl.
  - split.
    + eapply extends_trans; [exact Hext | now exists [ArrCell ls]].
    + intros a H. injection H as <-. split.
      * now apply extends_length.
      * exists ls. split; [|now apply Hls].
        unfold derefArr. rewrite nth_error_app2 by lia.
        now rewrite Nat.sub_diag.
  - split; [exact Hext | discriminate].
Qed.

Lemma applyBodyRef_frame (fields : list string) (items : list nat)
  (m : DataModification) (st : Store) :
  extends st (snd (applyBodyRef host fields items m st))
  /\ forall a, fst (applyBodyRef host fields items m st) = Normal a ->
       List.length st <= a
       /\ exists items', derefArr (snd (applyBodyRef host fields items m st)) a
                         = Some items'
                         /\ Forall (oldOrNew st items) items'.
Proof.
  unfold applyBodyRef. destruct (operation m).
  - destruct (mapRefs_frame (updateRow host m) items 0 st) as [Hext Hls].
    destruct (mapRefs (updateRow host m) 0 items st) as [out st1].
    now apply returnArray_frame.
  - apply returnArray_frame; [apply extends_refl|].
    intros ls H. now apply (filterRefs_frame (keepRow host m) st items 0).
  - unfold alloc. cbv beta iota.
    apply returnArray_frame; [now exists [RowCell (addedRow fields m)]|].
    intros ls H. injection H as <-. apply Forall_app. split.
    + apply Forall_forall. intros x Hx. now left.
    + constructor; [right; apply le_n | constructor].
  - destruct (mapRefs_frame (replaceRow host m) items 0 st) as [Hext Hls].
    destruct (mapRefs (replaceRow host m) 0 items st) as [out st1].
    now apply returnArray_frame.
  - destruct (mapRefs_frame (transformRow host m) items 0 st) as [Hext Hls].
    destruct (mapRefs (transformRow host m) 0 items st) as [out st1].
    now apply returnArray_frame.
Qed.

(** C9.  [applyModification] does not write to any object that existed
    when it was called: after the call every reference that was valid
    before holds the same object, so the input array and each of its rows
    read as before.  The array it returns is new, and each of its elements
    is either an element of the input array (that row object, untouched) or
    a row object allocated during the call. *)
Theorem applyModification_does_not_mutate
  (data : nat) (m : DataModification) (st : Store) (mods : list DataModification) :
  let r := applyModificationRef host data m st mods in
  let st' := snd (fst r) in
  (forall l, l < List.length st -> nth_error st' l = nth_error st l)
  /\ (forall rows, readTable st data = Some rows -> readTable st' data = Some rows)
  /\ (forall out, fst (fst r) = Normal out ->
        List.length st <= out
        /\ exists items items',
             derefArr st data = Some items
             /\ derefArr st' out = Some items'
             /\ Forall (oldOrNew st items) items').
Proof.
  intros r st'.
  assert (Hext : extends st st').
  { subst st' r. unfold applyModificationRef.
    destruct (derefArr st data) as [items|]; [|apply extends_refl].
    unfold alloc. cbv beta iota.
    destruct (applyBodyRef_frame (availableFieldsRef st items) items m
                (st ++ [ArrCell items])%list) as [He _].
    destruct (applyBodyRef host (availableFieldsRef st items) items m
                (st ++ [ArrCell items])%list) as [[a|] st1]; simpl in *;
      (eapply extends_trans; [now exists [ArrCell items] | exact He]). }
  split; [intros l Hl; now apply extends_nth|]. split.
  - intros rows. unfold readTable.
    destruct (derefArr st data) as [items|] eqn:Ed; [|discriminate].
    rewrite (extends_derefArr st st' data items Hext Ed).
    now apply extends_readRows.
  - intros out Hout. subst st' r. unfold applyModificationRef in *.
    destruct (derefArr st data) as [items|] eqn:Ed; [|discriminate].
    unfold alloc in *. cbv beta iota in *.
    destruct (applyBodyRef_frame (availableFieldsRef st items) items m
                (st ++ [ArrCell items])%list) as [He Ha].
    assert (Hlen : List.length (st ++ [ArrCell items])%list = S (List.length st))
      by (rewrite length_app; simpl; lia).
    destruct (applyBodyRef host (availableFieldsRef st items) items m
                (st ++ [ArrCell items])%list) as [[a|] st1]; simpl in *.
    + injection Hout as <-. destruct (Ha a eq_refl) as [Hle [items' [Hd Hall]]].
      split; [lia|]. exists items, items'. split; [reflexivity|]. split; [exact Hd|].
      eapply Forall_impl; [|exact Hall].
      intros x [Hx|Hx]; [now left | right; lia].
    + injection Hout as <-. split; [apply le_n|].
      exists items, items. split; [reflexivity|]. split.
      * apply (extends_derefArr (st ++ [ArrCell items])%list st1 _ _ He).
        unfold derefArr. rewrite nth_error_app2 by lia.
        now rewrite Nat.sub_diag.
      * apply Forall_forall. intros x Hx. now left.
Qed.

(** *** The store-level function computes the table-level one *)

Lemma mapRefs_simulates (f : nat -> Row -> Completion RowOut) :
  forall (items : list nat) (idx : nat) (st : Store) (rows : list Row),
    readRows st items = Some rows ->
    match mapC (fun ir => bind (f (fst ir) (snd ir))
                            (fun o => Normal (rowOf (snd ir) o)))
               (indexedFrom idx rows) with
    | Normal rows' =>
        exists ls, fst (mapRefs f idx items st) = Normal ls
                   /\ readRows (snd (mapRefs f idx items st)) ls = Some rows'
    | Throw => fst (mapRefs f idx items st) = Throw
    end.
Proof.
  induction items as [|l rest IH]; intros idx st rows H; simpl in H.
  - injection H as <-. simpl. now exists [].
  - destruct (derefRow st l) as [row|] eqn:Er; [|discriminate].
    destruct (readRows st rest) as [rs|] eqn:Ers; [|discriminate].
    injection H as <-. simpl. rewrite Er.
    destruct (f idx row) as [[|r]|]; simpl; [| |reflexivity].
    + specialize (IH (S idx) st rs Ers).
      destruct (mapRefs_frame f rest (S idx) st) as [Hext _].
      destruct (mapRefs f (S idx) rest st) as [out st1]. simpl in *.
      destruct (mapC _ (indexedFrom (S idx) rs)) as [rows'|]; simpl.
      * destruct IH as [ls [-> Hread]]. exists (l :: ls). split; [reflexivity|].
        simpl. now rewrite (extends_derefRow st st1 l row Hext Er), Hread.
      * now rewrite IH.
    + assert (Hext0 : extends st (st ++ [RowCell r])%list) by now exists [RowCell r].
      specialize (IH (S idx) (st ++ [RowCell r])%list rs
                     (extends_readRows _ _ rest Hext0 rs Ers)).
      destruct (mapRefs_frame f rest (S idx) (st ++ [RowCell r])%list) as [Hext _].
      destruct (mapRefs f (S idx) rest (st ++ [RowCell r])%list) as [out st1].
      simpl in *.
      destruct (mapC _ (indexedFrom (S idx) rs)) as [rows'|]; simpl.
      * destruct IH as [ls [-> Hread]]. exists (List.length st :: ls).
        split; [reflexivity|]. simpl.
        assert (Hnew : derefRow (st ++ [RowCell r])%list (List.length st) = Some r).
        { unfold derefRow. rewrite nth_error_app2 by lia.
          now rewrite Nat.sub_diag. }
        now rewrite (extends_derefRow _ st1 _ r Hext Hnew), Hread.
      * now rewrite IH.
Qed.

Lemma filterRefs_simulates (f : nat -> Row -> Completion bool) (st : Store) :
  forall (items : list nat) (idx : nat) (rows : list Row),
    readRows st items = Some rows ->
    match filterC (fun ir => f (fst ir) (snd ir)) (indexedFrom idx rows) with
    | Normal kept =>
        exists ls, filterRefs f idx items st = Normal ls
                   /\ readRows st ls = Some (map snd kept)
    | Throw => filterRefs f idx items st = Throw
    end.
Proof.
  induction items as [|l rest IH]; intros idx rows H; simpl in H.
  - injection H as <-. simpl. now exists [].
  - destruct (derefRow st l) as [row|] eqn:Er; [|discriminate].
    destruct (readRows st rest) as [rs|] eqn:Ers; [|discriminate].
    injection H as <-. simpl. rewrite Er.
    destruct (f idx row) as [keep|]; simpl; [|reflexivity].
    specialize (IH (S idx) rs eq_refl).
    destruct (filterC _ (indexedFrom (S idx) rs)) as [kept|]; simpl.
    + destruct IH as [ls [-> Hread]]. simpl. destruct keep.
      * exists (l :: ls). split; [reflexivity|]. simpl. now rewrite Er, Hread.
      * now exists ls.
    + now rewrite IH.
Qed.

Lemma availableFieldsRef_reads (st : Store) (items : list nat) (rows : list Row) :
  readRows st items = Some rows ->
  availableFieldsRef st items = availableFields rows.
Proof.
  destruct items as [|l rest]; simpl; intros H.
  - now injection H as <-.
  - destruct (derefRow st l) as [row|]; [|discriminate].
    destruct (readRows st rest) as [rs|]; [|discriminate].
    now injection H as <-.
Qed.

Lemma readRows_app (st : Store) (xs ys : list nat) (rows rows' : list Row) :
  readRows st xs = Some rows -> readRows st ys = Some rows' ->
  readRows st (xs ++ ys) = Some (rows ++ rows')%list.
Proof.
  revert rows. induction xs as [|l rest IH]; intros rows Hx Hy; simpl in *.
  - now injection Hx as <-.
  - destruct (derefRow st l) as [row|]; [|discriminate].
    destruct (readRows st rest) as [rs|]; [|discriminate].
    injection Hx as <-. now rewrite (IH rs eq_refl Hy).
Qed.

Lemma returnArray_reads (st1 : Store) (ls : list nat) (rows : list Row) :
  readRows st1 ls = Some rows ->
  exists a, fst (returnArray (Normal ls, st1)) = Normal a
            /\ readTable (snd (returnArray (Normal ls, st1))) a = Some rows.
Proof.
  intros H. simpl. exists (List.length st1). split; [reflexivity|].
  unfold readTable, derefArr. rewrite nth_error_app2 by lia.
  rewrite Nat.sub_diag. simpl.
  apply (extends_readRows st1); [now exists [ArrCell ls] | exact H].
Qed.

Lemma applyBodyRef_simulates (items : list nat) (m : DataModification)
  (st : Store) (rows : list Row) :
  readRows st items = Some rows ->
  match applyBody host rows m with
  | Normal rows' =>
      exists a,
        fst (applyBodyRef host (availableFields rows) items m st) = Normal a
        /\ readTable (snd (applyBodyRef host (availableFields rows) items m st)) a
           = Some rows'
  | Throw => fst (applyBodyRef host (availableFields rows) items m st) = Throw
  end.
Proof.
  intros H.
  assert (Hmap : forall f,
    match mapRows f rows with
    | Normal rows' =>
        exists a, fst (returnArray (mapRefs f 0 items st)) = Normal a
                  /\ readTable (snd (returnArray (mapRefs f 0 items st))) a = Some rows'
    | Throw => fst (returnArray (mapRefs f 0 items st)) = Throw
    end).
  { intros f. pose proof (mapRefs_simulates f items 0 st rows H) as Hsim.
    unfold mapRows, indexed.
    destruct (mapC _ (indexedFrom 0 rows)) as [rows'|].
    - destruct Hsim as [ls [Hfst Hread]].
      destruct (mapRefs f 0 items st) as [out st1]. simpl in Hfst, Hread. subst out.
      now apply returnArray_reads.
    - destruct (mapRefs f 0 items st) as [out st1]. simpl in Hsim. now subst out. }
  unfold applyBody, applyBodyRef. destruct (operation m).
  - apply Hmap.
  - pose proof (filterRefs_simulates (keepRow host m) st items 0 rows H) as Hsim.
    unfold indexed.
    destruct (filterC _ (indexedFrom 0 rows)) as [kept|]; simpl.
    + destruct Hsim as [ls [-> Hread]]. now apply returnArray_reads.
    + now rewrite Hsim.
  - unfold alloc. cbv beta iota.
    apply returnArray_reads. apply readRows_app.
    + apply (extends_readRows st); [now exists [RowCell (addedRow (availableFields rows) m)] | exact H].
    + simpl. unfold derefRow. rewrite nth_error_app2 by lia.
      now rewrite Nat.sub_diag.
  - apply Hmap.
  - apply Hmap.
Qed.

(** On a store in which [data] is an array of rows, the reference
    [applyModificationRef] returns denotes the table [applyModification]
    computes from the table [data] denotes, and the two leave the same
    history. *)
Lemma applyModificationRef_refines
  (data : nat) (m : DataModification) (st : Store) (mods : list DataModification)
  (rows : list Row) :
  readTable st data = Some rows ->
  exists out rows',
    applyModification host rows m mods
    = (Normal rows', snd (applyModificationRef host data m st mods))
    /\ fst (fst (applyModificationRef host data m st mods)) = Normal out
    /\ readTable (snd (fst (applyModificationRef host data m st mods))) out
       = Some rows'.
Proof.
  unfold readTable. intros H.
  destruct (derefArr st data) as [items|] eqn:Ed; [|discriminate].
  unfold applyModificationRef, applyModification, tryCatchThen, lift,
    setModifications, ret.
  rewrite Ed. unfold alloc. cbv beta iota.
  assert (Hext0 : extends st (st ++ [ArrCell items])%list) by now exists [ArrCell items].
  rewrite (availableFieldsRef_reads st items rows H).
  pose proof (applyBodyRef_simulates items m (st ++ [ArrCell items])%list rows
                (extends_readRows _ _ items Hext0 rows H)) as Hsim.
  destruct (applyBodyRef_frame (availableFields rows) items m
              (st ++ [ArrCell items])%list) as [Hext _].
  destruct (applyBody host rows m) as [rows'|].
  - destruct Hsim as [a [Hfst Hread]].
    destruct (applyBodyRef host (availableFields rows) items m
                (st ++ [ArrCell items])%list) as [out st1].
    simpl in *. subst out. exists a, rows'. now repeat split.
  - destruct (applyBodyRef host (availableFields rows) items m
                (st ++ [ArrCell items])%list) as [out st1].
    simpl in *. subst out. exists (List.length st), rows. simpl.
    split; [reflexivity|]. split; [reflexivity|].
    unfold readTable.
    assert (Hnew : derefArr (st ++ [ArrCell items])%list (List.length st) = Some items).
    { unfold derefArr. rewrite nth_error_app2 by lia. now rewrite Nat.sub_diag. }
    rewrite (extends_derefArr _ st1 _ _ Hext Hnew).
    apply (extends_readRows st); [|exact H].
    eapply extends_trans; eassumption.
Qed.

End Frame.

(** A store with the two-row table: objects 0 and 1 are the rows, object
    2 is the array.  Upper-casing the name where it contains john leaves
    the three objects as they were and allocates a copy of the array, a new
    first row and the result array, which shares the second row. *)
Definition johnJaneStore : Store :=
  [ RowCell [("name", VStr "John Doe"); ("email", VStr "j@x.com")];
    RowCell [("name", VStr "Jane"); ("email", VStr "a@x.com")];
    ArrCell [0; 1] ].

Definition upperJohn : DataModification :=
  mkModification "4" "hand-made" transform "name" "name contains john"
                 "uppercase" [] pending.

Lemma applyModificationRef_example (host : Host) :
  applyModificationRef host 2 upperJohn johnJaneStore []
  = (Normal 5,
     (johnJaneStore ++
      [ ArrCell [0; 1];
        RowCell [("name", VStr "JOHN DOE"); ("email", VStr "j@x.com")];
        ArrCell [4; 1] ])%list,
     []).
Proof. reflexivity. Qed.

End StoreFacts.

(* ================================================================== *)
(** ** Properties of the rule builder *)
(* ================================================================== *)

Module RuleBuilderFacts.
Import Js Regex RuleBuilder.

Lemma prefix_append (p q : string) : forall s,
  String.prefix (p ++ q) s = true -> String.prefix p s = true.
Proof.
  induction p as [|a p' IH]; intros s H.
  - destruct s; reflexivity.
  - destruct s as [|b s']; simpl in *; [discriminate|].
    destruct (ascii_dec a b); [now apply IH | discriminate].
Qed.

Lemma includes_unfold (s p : string) :
  includes s p
  = if String.prefix p s then true
    else match s with
         | EmptyString => false
         | String _ s' => includes s' p
         end.
Proof. destruct s; reflexivity. Qed.

(** A string that contains [p ++ q] contains [p]. *)
Lemma includes_append (p q : string) : forall s,
  includes s (p ++ q) = true -> includes s p = true.
Proof.
  induction s as [|c s' IH]; intros H;
    rewrite includes_unfold in H; rewrite includes_unfold.
  - destruct (String.prefix (p ++ q) EmptyString) eqn:E; [|discriminate].
    now rewrite (prefix_append p q _ E).
  - destruct (String.prefix (p ++ q) (String c s')) eqn:E.
    + now rewrite (prefix_append p q _ E).
    + destruct (String.prefix p (String c s')); [reflexivity | now apply IH].
Qed.

(** The entries for [must be greater than], [must be less than] and
    [must be empty] stand after [must be], which every input containing
    them contains; the loop stops there. *)
Lemma must_be_shadows (tail input : string) :
  includes input ("must be" ++ tail) = true -> detectOperator input = "equals".
Proof.
  intros H. apply includes_append in H.
  unfold detectOperator, operatorMap. simpl. now rewrite H.
Qed.

(** Likewise [cannot be empty] stands after [cannot be]. *)
Lemma cannot_be_shadows (tail input : string) :
  includes input ("cannot be" ++ tail) = true ->
  detectOperator input = "equals" \/ detectOperator input = "not_equals".
Proof.
  intros H. apply includes_append in H.
  unfold detectOperator, operatorMap. simpl.
  destruct (includes input "must be"); [now left|].
  destruct (includes input "should be"); [now left|].
  rewrite H. now right.
Qed.

Lemma newRules_operator (now : nat -> string) (count : nat)
  (text : string) (fields : list string) (op value0 : string) :
  forall r, In r (newRules now count text fields op value0) -> operator r = op.
Proof.
  intros r H. unfold newRules in H. apply in_map_iff in H.
  destruct H as [entry [<- _]]. reflexivity.
Qed.

(** Every rule extracted from a phrase that contains [must be greater
    than] has the operator [equals]; every rule extracted from a phrase that
    contains [cannot be empty] has [equals] or [not_equals]. *)
Lemma shadowed_phrases (now : nat -> string) (fields : list string)
  (phrase : string) (rules : list Rule) (r : Rule) :
  In r (processNaturalLanguage now fields phrase rules) ->
  (includes (toLowerCase phrase) "must be greater than" = true ->
   In r rules \/ operator r = "equals")
  /\
  (includes (toLowerCase phrase) "cannot be empty" = true ->
   In r rules \/ operator r = "equals" \/ operator r = "not_equals").
Proof.
  intros Hin. unfold processNaturalLanguage in Hin.
  destruct (isEmpty (trim phrase)); [split; intros _; now left|].
  apply in_app_or in Hin. destruct Hin as [Hold|Hnew]; [split; intros _; now left|].
  apply newRules_operator in Hnew. split; intros H; right.
  - rewrite Hnew. now apply (must_be_shadows " greater than").
  - rewrite Hnew. now apply (cannot_be_shadows " empty").
Qed.

(** C6 on the code.  The phrase [Age must be greater than 18] over the
    field [age] yields one rule, with the operator [equals]; the phrase
    [Email cannot be empty] over the field [email] yields one rule, with the
    operator [not_equals]. *)
Theorem greater_than_phrase_yields_equals (now : nat -> string) :
  processNaturalLanguage now ["age"] "Age must be greater than 18" []
  = [ mkRule (now 0 ++ "0") "Rule 1" "Age must be greater than 18" "age"
             "equals" EmptyString "flag" 1 true ]
  /\
  processNaturalLanguage now ["email"] "Email cannot be empty" []
  = [ mkRule (now 0 ++ "0") "Rule 1" "Email cannot be empty" "email"
             "not_equals" EmptyString "flag" 1 true ].
Proof. split; reflexivity. Qed.

(** The phrases whose entry comes first in the table are detected. *)
Lemma contains_phrase_detected (now : nat -> string) :
  map operator
      (processNaturalLanguage now ["email"; "age"] "Email field must contain @" [])
  = ["contains"].
Proof. reflexivity. Qed.

End RuleBuilderFacts.

(* ================================================================== *)
(** ** Properties of the validation panel *)
(* ================================================================== *)

Module ValidationFacts.
Import Js Regex Validation IndexFacts.

(** The value the row numbered [rowIndex e] holds in the field of [e]. *)
Definition offending (data : list Row) (e : ValidationError) : Value :=
  get (nth (rowIndex e - 1) data []) (field e).

Section Facts.

Variable host : Host.

Lemma checkField_undefined (schema : FieldSchema) :
  checkField host schema VUndefined = None.
Proof. reflexivity. Qed.

Lemma rowErrors_sound (schema : list (string * FieldSchema)) (idx : nat)
  (r : Row) (e : ValidationError) :
  In e (rowErrors host schema idx r) ->
  rowIndex e = idx + 1 /\ value e = get r (field e) /\ value e <> VUndefined.
Proof.
  unfold rowErrors. intros H. apply in_flat_map in H.
  destruct H as [[key fs] [_ H]]. simpl in H.
  destruct (checkField host fs (get r key)) as [msg|] eqn:E; [|contradiction].
  destruct H as [<-|[]]. simpl. repeat split.
  intros Hundef. rewrite Hundef in E. discriminate E.
Qed.

(** C5, amended.  Validation of a table against the schema inferred from
    its first row never reports a field that is absent from the row: the
    value of every issue is the value the row holds in that field, and it is
    not [undefined].  The empty string is a present value: the numeric rule
    accepts it, the non-empty-string rule and the phone rule report it. *)
Theorem absent_fields_are_never_reported (data : list Row) :
  Forall (fun e => value e = offending data e /\ offending data e <> VUndefined)
         (validateData host data [])
  /\ checkField host number (VStr EmptyString) = None
  /\ checkField host required (VStr EmptyString)
     = Some (Custom "This field is required")
  /\ checkField host phone (VStr EmptyString)
     = Some (Custom "Invalid phone number").
Proof.
  split; [|repeat split].
  apply Forall_forall. intros e He. unfold validateData in He.
  destruct data as [|first rest]; [contradiction|].
  apply in_flat_map in He. destruct He as [[idx r] [Hin He]]. simpl in He.
  apply rowErrors_sound in He. destruct He as [Hidx [Hval Hdef]].
  apply in_indexedFrom in Hin. destruct Hin as [_ Hnth].
  rewrite Nat.sub_0_r in Hnth.
  assert (Hoff : offending (first :: rest) e = get r (field e)).
  { unfold offending. rewrite Hidx.
    replace (idx + 1 - 1) with idx by lia.
    now rewrite (nth_error_nth _ _ _ Hnth). }
  rewrite Hoff. split; [exact Hval | now rewrite <- Hval].
Qed.

End Facts.

(** A table whose first row makes [name] a non-empty-string field and
    whose second row leaves the name empty. *)
Definition bobAndNobody : list Row :=
  [ [("name", VStr "Bob")]; [("name", VStr EmptyString)] ].

Lemma empty_name_is_reported (host : Host) :
  validateData host bobAndNobody []
  = [ mkError "name" (Custom "This field is required") (VStr EmptyString) 2 ].
Proof. reflexivity. Qed.

(** C5, as stated, fails: an issue is produced for a field whose value
    is the empty string. *)
Lemma empty_string_is_reported :
  ~ (forall (host : Host) (data : list Row),
       Forall (fun e => offending data e <> VUndefined
                        /\ offending data e <> VStr EmptyString)
              (validateData host data [])).
Proof.
  intros H.
  specialize (H (mkHost (fun _ => true) (fun _ => true)) bobAndNobody).
  rewrite empty_name_is_reported in H.
  apply Forall_inv in H. destruct H as [_ H]. now apply H.
Qed.

End ValidationFacts.

(* ================================================================== *)
(** ** Properties of the search *)
(* ================================================================== *)

Module SearchFacts.
Import Js Regex Search IndexFacts.

(** The total score the loop over the fields gives a row. *)
Definition rowScore (query : string) (r : Row) : Z :=
  accScore (scoreRow query (keywordsOf query) (filtersOf query) r).

(** The result pushed for the row [r] at position [i]. *)
Definition resultFor (query : string) (i : nat) (r : Row) : SearchResult :=
  let a := scoreRow query (keywordsOf query) (filtersOf query) r in
  mkResult (i + 1) r (accScore a) (accFields a) (trim (accHighlight a)).

(** [searchResults] when [data.forEach] is done, before the sort. *)
Definition candidates (data : list Row) (query : string) : list SearchResult :=
  flat_map (fun ir => visitRow query (keywordsOf query) (filtersOf query)
                               (fst ir) (snd ir))
           (indexed data).

(** The order of the results: a higher score first, and for equal scores
    the lower row number first. *)
Definition ranked (a b : SearchResult) : Prop :=
  (score b < score a)%Z \/ (score a = score b /\ rowIndex a < rowIndex b).

Definition earlier (a b : SearchResult) : Prop := rowIndex a < rowIndex b.

(** *** The sort *)

Lemma insertSorted_perm {A : Type} (cmp : A -> A -> Z) (x : A) (xs : list A) :
  Permutation (insertSorted cmp x xs) (x :: xs).
Proof.
  induction xs as [|y rest IH]; simpl.
  - apply Permutation_refl.
  - destruct (cmp x y <=? 0)%Z.
    + apply Permutation_refl.
    + eapply perm_trans; [apply perm_skip, IH | apply perm_swap].
Qed.

Lemma sortBy_perm {A : Type} (cmp : A -> A -> Z) (xs : list A) :
  Permutation (sortBy cmp xs) xs.
Proof.
  induction xs as [|x rest IH]; simpl.
  - apply perm_nil.
  - eapply perm_trans; [apply insertSorted_perm | now apply perm_skip].
Qed.

Lemma insertSorted_ranked (x : SearchResult) (xs : list SearchResult) :
  StronglySorted ranked xs ->
  Forall (earlier x) xs ->
  StronglySorted ranked (insertSorted byScore x xs).
Proof.
  induction xs as [|y rest IH]; intros Hs Hx; simpl.
  - constructor; constructor.
  - apply StronglySorted_inv in Hs. destruct Hs as [Hrest Hy].
    pose proof (Forall_inv Hx) as Hxy. pose proof (Forall_inv_tail Hx) as Hxrest.
    unfold byScore. destruct (score y - score x <=? 0)%Z eqn:E.
    + apply Z.leb_le in E. constructor.
      * now constructor.
      * constructor.
        -- unfold ranked, earlier in *. lia.
        -- rewrite Forall_forall in *. intros z Hz.
           specialize (Hy z Hz). specialize (Hxrest z Hz).
           unfold ranked, earlier in *. lia.
    + apply Z.leb_gt in E. constructor.
      * now apply IH.
      * apply (Permutation_Forall (Permutation_sym (insertSorted_perm byScore x rest))).
        constructor; [|exact Hy]. unfold ranked. lia.
Qed.

Lemma sortBy_ranked (xs : list SearchResult) :
  StronglySorted earlier xs -> StronglySorted ranked (sortBy byScore xs).
Proof.
  induction xs as [|x rest IH]; intros Hs; simpl.
  - constructor.
  - apply StronglySorted_inv in Hs. destruct Hs as [Hrest Hx].
    apply insertSorted_ranked; [now apply IH|].
    now apply (Permutation_Forall (Permutation_sym (sortBy_perm byScore rest))).
Qed.

(** *** The results before the sort *)

Lemma visitRow_cases (query : string) (idx : nat) (r : Row) :
  visitRow query (keywordsOf query) (filtersOf query) idx r
  = if (0 <? rowScore query r)%Z then [resultFor query idx r] else [].
Proof. reflexivity. Qed.

Lemma candidates_from_earlier (query : string) (data : list Row) : forall k,
  StronglySorted earlier
    (flat_map (fun ir => visitRow query (keywordsOf query) (filtersOf query)
                                  (fst ir) (snd ir))
              (indexedFrom k data))
  /\ Forall (fun x => k < rowIndex x)
       (flat_map (fun ir => visitRow query (keywordsOf query) (filtersOf query)
                                     (fst ir) (snd ir))
                 (indexedFrom k data)).
Proof.
  induction data as [|r rest IH]; intros k; simpl.
  - split; constructor.
  - destruct (IH (S k)) as [Hs Hk]. rewrite visitRow_cases.
    destruct (0 <? rowScore query r)%Z; simpl.
    + split.
      * constructor; [exact Hs|].
        eapply Forall_impl; [|exact Hk]. intros x Hx.
        unfold earlier, resultFor. simpl in *. lia.
      * constructor; [unfold resultFor; simpl; lia|].
        eapply Forall_impl; [|exact Hk]. intros x Hx. simpl in Hx. lia.
    + split; [exact Hs|].
      eapply Forall_impl; [|exact Hk]. intros x Hx. simpl in Hx. lia.
Qed.

Lemma in_candidates (data : list Row) (query : string) (x : SearchResult) :
  In x (candidates data query)
  <-> exists i r, nth_error data i = Some r
                  /\ (0 < rowScore query r)%Z
                  /\ x = resultFor query i r.
Proof.
  unfold candidates, indexed. split.
  - intros H. apply in_flat_map in H. destruct H as [[i r] [Hin Hx]].
    simpl in Hx. rewrite visitRow_cases in Hx.
    destruct (0 <? rowScore query r)%Z eqn:E; [|contradiction].
    destruct Hx as [<-|[]]. apply in_indexedFrom in Hin.
    destruct Hin as [_ Hnth]. rewrite Nat.sub_0_r in Hnth.
    exists i, r. split; [exact Hnth|]. split; [now apply Z.ltb_lt | reflexivity].
  - intros [i [r [Hnth [Hpos ->]]]]. apply in_flat_map.
    exists (i, r). split.
    + now apply (nth_indexedFrom data 0 i r).
    + simpl. rewrite visitRow_cases.
      apply Z.ltb_lt in Hpos. rewrite Hpos. now left.
Qed.

(** *** [searchData] *)

Lemma searchData_blank (data : list Row) (query : string) :
  isEmpty (trim query) = true -> searchData data query = [].
Proof. intros H. unfold searchData. now rewrite H. Qed.

Lemma searchData_sorts_candidates (data : list Row) (query : string) :
  isEmpty (trim query) = false ->
  searchData data query = sortBy byScore (candidates data query).
Proof.
  intros H. unfold searchData. rewrite H. simpl.
  destruct data as [|r rest]; reflexivity.
Qed.

(** Whatever the query, the results are in ranked order. *)
Lemma searchData_ranked (data : list Row) (query : string) :
  StronglySorted ranked (searchData data query).
Proof.
  destruct (isEmpty (trim query)) eqn:E.
  - rewrite searchData_blank by exact E. constructor.
  - rewrite searchData_sorts_candidates by exact E.
    apply sortBy_ranked. apply (candidates_from_earlier query data 0).
Qed.

(** *** The search as it runs *)

(** No column of the table bears the name of a member every object
    inherits. *)
Definition plainColumns (data : list Row) : bool :=
  forallb (fun r => forallb (fun k => negb (isInherited k)) (keys r)) data.

Lemma lookup_after_set {A : Type} (o : list (string * A)) (k k' : string) (v : A) :
  lookup (set o k v) k' = if String.eqb k k' then Some v else lookup o k'.
Proof.
  induction o as [|[k0 v0] rest IH]; simpl.
  - reflexivity.
  - destruct (String.eqb k0 k) eqn:E; simpl.
    + apply String.eqb_eq in E. subst k0.
      now destruct (String.eqb k k').
    + rewrite IH. destruct (String.eqb k0 k') eqn:E'; [|reflexivity].
      apply String.eqb_eq in E'. subst k0. now rewrite String.eqb_sym, E.
Qed.

Lemma plain_is_not_proto (fld : string) :
  isInherited fld = false -> String.eqb fld "__proto__" = false.
Proof.
  unfold isInherited, inheritedNames. simpl. intros H.
  repeat (apply orb_false_iff in H; destruct H as [? H]); assumption.
Qed.

(** On every name but [__proto__] the filters have the same own entries
    whether the assignments are run or read as insertions. *)
Lemma filters_agree (query fld : string) :
  String.eqb fld "__proto__" = false ->
  lookup (SearchRun.filtersOf query) fld = lookup (filtersOf query) fld.
Proof.
  intros Hfld. unfold SearchRun.filtersOf, filtersOf.
  assert (H : forall ms f1 f2, lookup f1 fld = lookup f2 fld ->
    lookup (fold_left (fun filters m =>
                         SearchRun.assign filters (groupOr (Some m) 1)
                                          (groupOr (Some m) 2)) ms f1) fld
    = lookup (fold_left (fun filters m =>
                           set filters (groupOr (Some m) 1)
                               (groupOr (Some m) 2)) ms f2) fld).
  { induction ms as [|m rest IH]; intros f1 f2 Heq; cbn [fold_left]; [exact Heq|].
    apply IH. unfold SearchRun.assign.
    destruct (String.eqb (groupOr (Some m) 1) "__proto__") eqn:E.
    - apply String.eqb_eq in E. rewrite E, lookup_after_set.
      now rewrite String.eqb_sym, Hfld.
    - rewrite !lookup_after_set. now rewrite Heq. }
  now apply H.
Qed.

Lemma visitField_runs (query : string) (a : Acc) (entry : string * Value) :
  isInherited (fst entry) = false ->
  SearchRun.visitField query (keywordsOf query) (SearchRun.filtersOf query) a entry
  = Normal (visitField query (keywordsOf query) (filtersOf query) a entry).
Proof.
  intros Hplain. unfold SearchRun.visitField, visitField, SearchRun.slot.
  rewrite (filters_agree query (fst entry) (plain_is_not_proto _ Hplain)).
  destruct (lookup (filtersOf query) (fst entry)) as [wanted|].
  - reflexivity.
  - rewrite Hplain. reflexivity.
Qed.

Lemma scoreRow_runs (query : string) (r : Row) :
  forallb (fun k => negb (isInherited k)) (keys r) = true ->
  SearchRun.scoreRow query (keywordsOf query) (SearchRun.filtersOf query) r
  = Normal (scoreRow query (keywordsOf query) (filtersOf query) r).
Proof.
  unfold SearchRun.scoreRow, scoreRow. generalize (mkAcc 0 [] EmptyString).
  induction r as [|entry rest IH]; intros a Hplain; simpl.
  - reflexivity.
  - simpl in Hplain. apply andb_true_iff in Hplain. destruct Hplain as [Hk Hrest].
    apply negb_true_iff in Hk. rewrite (visitField_runs query a entry Hk). simpl.
    now apply IH.
Qed.

Lemma visitRow_runs (query : string) (idx : nat) (r : Row) :
  forallb (fun k => negb (isInherited k)) (keys r) = true ->
  SearchRun.visitRow query (keywordsOf query) (SearchRun.filtersOf query) idx r
  = Normal (visitRow query (keywordsOf query) (filtersOf query) idx r).
Proof.
  intros Hplain. unfold SearchRun.visitRow. now rewrite (scoreRow_runs query r Hplain).
Qed.

Lemma rows_run (query : string) (data : list Row) :
  plainColumns data = true -> forall k,
  mapC (fun ir => SearchRun.visitRow query (keywordsOf query)
                    (SearchRun.filtersOf query) (fst ir) (snd ir))
       (indexedFrom k data)
  = Normal (map (fun ir => visitRow query (keywordsOf query) (filtersOf query)
                             (fst ir) (snd ir))
                (indexedFrom k data)).
Proof.
  induction data as [|r rest IH]; intros Hplain k; simpl.
  - reflexivity.
  - simpl in Hplain. apply andb_true_iff in Hplain. destruct Hplain as [Hr Hrest].
    rewrite (visitRow_runs query k r Hr). simpl.
    now rewrite (IH Hrest (S k)).
Qed.

(** With plain columns the block of the [try] ends normally, with the
    sorted candidates. *)
Lemma found_runs (data : list Row) (query : string) :
  plainColumns data = true ->
  SearchRun.found data query = Normal (sortBy byScore (candidates data query)).
Proof.
  intros Hplain. unfold SearchRun.found, SearchRun.processQuery, indexed.
  rewrite (rows_run query data Hplain 0). simpl.
  unfold candidates, indexed. now rewrite flat_map_concat_map.
Qed.

Lemma searchData_runs (data : list Row) (query : string) (st : SearchRun.View) :
  isEmpty (trim query) = false ->
  plainColumns data = true ->
  SearchRun.searchData data query st
  = SearchRun.mkView (searchData data query)
      match data with
      | [] => SearchRun.error st
      | _ :: _ => None
      end.
Proof.
  intros Hq Hplain. unfold SearchRun.searchData.
  rewrite Hq, orb_false_l, (searchData_sorts_candidates data query Hq).
  rewrite (found_runs data query Hplain).
  destruct data as [|r rest]; reflexivity.
Qed.

(** C7, amended.  Take a table none of whose columns bears the name of a
    member every object inherits, and an ASCII query that is not blank.
    Then [searchData] ends without an exception: it sets no error, and the
    results it sets are exactly the results of the rows whose total score is
    positive, each once, in descending order of score with rows of equal
    score in table order; when no row scores, the result is the empty
    list. *)
Theorem search_returns_ranked_positive_rows (data : list Row) (query : string) :
  isAscii query = true ->
  isEmpty (trim query) = false ->
  plainColumns data = true ->
  (forall st, SearchRun.searchData data query st
              = SearchRun.mkView (searchData data query)
                  match data with
                  | [] => SearchRun.error st
                  | _ :: _ => None
                  end)
  /\ Permutation (searchData data query) (candidates data query)
  /\ (forall x, In x (searchData data query)
                <-> exists i r, nth_error data i = Some r
                                /\ (0 < rowScore query r)%Z
                                /\ x = resultFor query i r)
  /\ StronglySorted ranked (searchData data query)
  /\ ((forall r, In r data -> rowScore query r = 0%Z) ->
      searchData data query = []).
Proof.
  intros _ Hq Hplain.
  assert (Hperm : Permutation (searchData data query) (candidates data query)).
  { rewrite searchData_sorts_candidates by exact Hq. apply sortBy_perm. }
  assert (Hin : forall x, In x (searchData data query)
                <-> exists i r, nth_error data i = Some r
                                /\ (0 < rowScore query r)%Z
                                /\ x = resultFor query i r).
  { intros x. rewrite <- in_candidates. split; intros H.
    - eapply Permutation_in; [exact Hperm | exact H].
    - eapply Permutation_in; [apply Permutation_sym; exact Hperm | exact H]. }
  split; [intros st; now apply searchData_runs|].
  split; [exact Hperm|]. split; [exact Hin|]. split; [apply searchData_ranked|].
  intros Hzero. destruct (searchData data query) as [|x rest] eqn:E; [reflexivity|].
  destruct (proj1 (Hin x) (or_introl eq_refl)) as [i [r [Hnth [Hpos _]]]].
  apply nth_error_In in Hnth. rewrite (Hzero r Hnth) in Hpos. lia.
Qed.

(** Three rows that all mention [urgent]; the first also passes the
    filter on the name, the third mentions it twice like the second. *)
Definition notes : list Row :=
  [ [("name", VStr "x"); ("notes", VStr "urgent")];
    [("name", VStr "urgent"); ("notes", VStr "urgent call")];
    [("name", VStr "John Smith"); ("notes", VStr "urgent review")];
    [("name", VStr "y"); ("notes", VStr "nothing")];
    [("name", VStr "urgent"); ("notes", VStr "urgent visit")] ].

Lemma search_example :
  map (fun x => (rowIndex x, score x)) (searchData notes "name:john urgent")
  = [ (3, 15%Z); (2, 10%Z); (5, 10%Z); (1, 5%Z) ].
Proof. reflexivity. Qed.

(** The theorem of C7 at that table and query. *)
Lemma search_ranked_example :
  (isAscii "name:john urgent" = true
   /\ isEmpty (trim "name:john urgent") = false
   /\ plainColumns notes = true)
  /\ (forall st, SearchRun.searchData notes "name:john urgent" st
                 = SearchRun.mkView (searchData notes "name:john urgent") None)
  /\ Permutation (searchData notes "name:john urgent")
                 (candidates notes "name:john urgent")
  /\ StronglySorted ranked (searchData notes "name:john urgent").
Proof.
  split; [repeat split; reflexivity|].
  destruct (search_returns_ranked_positive_rows notes "name:john urgent"
              eq_refl eq_refl eq_refl)
    as [Hrun [Hperm [_ [Hsorted _]]]].
  split; [exact Hrun|]. split; assumption.
Defined.

(** Outside the theorem: a column named [constructor] with no filter on it.
    [filters.constructor] is the inherited function, the exception is
    caught, the results stay as they were and the error is shown. *)
Lemma inherited_column_fails_the_search (st : SearchRun.View) :
  SearchRun.searchData [ [("constructor", VStr "urgent")] ] "urgent" st
  = SearchRun.mkView (SearchRun.results st)
                     (Some "Search failed. Please try again.").
Proof. reflexivity. Qed.

(** C7, as stated, fails: for the query of one space, a row whose field
    is one space scores 20 (its value equals the query), yet [searchData]
    returns nothing, since a blank query ends the search at once. *)
Lemma blank_query_returns_nothing :
  ~ (forall (data : list Row) (query : string) (i : nat) (r : Row),
       nth_error data i = Some r ->
       (0 < rowScore query r)%Z ->
       exists x, In x (searchData data query) /\ rowIndex x = i + 1 /\ row x = r).
Proof.
  intros H.
  destruct (H [ [("a", VStr " ")] ] " " 0 [("a", VStr " ")] eq_refl eq_refl)
    as [x [Hin _]].
  exact Hin.
Qed.

End SearchFacts.

(* ================================================================== *)
(** ** Characters and strings: case, reversal, trimming *)
(* ================================================================== *)

Module StringFacts.
Import Js.

Ltac by_cases_on_char c :=
  destruct c as [[] [] [] [] [] [] [] []]; reflexivity.

Lemma lowerChar_not_upper (c : ascii) : isUpper (lowerChar c) = false.
Proof. by_cases_on_char c. Qed.

Lemma lowerChar_idem (c : ascii) : lowerChar (lowerChar c) = lowerChar c.
Proof. by_cases_on_char c. Qed.

Lemma upperChar_idem (c : ascii) : upperChar (upperChar c) = upperChar c.
Proof. by_cases_on_char c. Qed.

Lemma lower_upper_char (c : ascii) : lowerChar (upperChar c) = lowerChar c.
Proof. by_cases_on_char c. Qed.

Lemma mapStr_idem (f : ascii -> ascii) :
  (forall c, f (f c) = f c) -> forall s, mapStr f (mapStr f s) = mapStr f s.
Proof.
  intros Hf s. induction s as [|c s' IH]; simpl; [reflexivity|].
  now rewrite Hf, IH.
Qed.

Lemma toLowerCase_idem (s : string) : toLowerCase (toLowerCase s) = toLowerCase s.
Proof. apply mapStr_idem, lowerChar_idem. Qed.

Lemma toUpperCase_idem (s : string) : toUpperCase (toUpperCase s) = toUpperCase s.
Proof. apply mapStr_idem, upperChar_idem. Qed.

Lemma toLowerCase_toUpperCase (s : string) :
  toLowerCase (toUpperCase s) = toLowerCase s.
Proof.
  unfold toLowerCase, toUpperCase.
  induction s as [|c s' IH]; cbn [mapStr]; [reflexivity|].
  now rewrite lower_upper_char, IH.
Qed.

(** No upper-case letter occurs in the string. *)
Fixpoint noUpper (s : string) : bool :=
  match s with
  | EmptyString => true
  | String c s' => negb (isUpper c) && noUpper s'
  end.

Lemma noUpper_toLowerCase (s : string) : noUpper (toLowerCase s) = true.
Proof.
  unfold toLowerCase.
  induction s as [|c s' IH]; cbn [mapStr noUpper]; [reflexivity|].
  now rewrite lowerChar_not_upper, IH.
Qed.

Lemma noUpper_append (a b : string) :
  noUpper (a ++ b) = noUpper a && noUpper b.
Proof.
  induction a as [|c a' IH]; simpl; [reflexivity|].
  now rewrite IH, andb_assoc.
Qed.

Lemma noUpper_tail (c : ascii) (s : string) :
  noUpper (String c s) = true -> noUpper s = true.
Proof. simpl. intros H. apply andb_true_iff in H. tauto. Qed.

Lemma noUpper_substring (s : string) : forall n m,
  noUpper s = true -> noUpper (substring n m s) = true.
Proof.
  induction s as [|c s' IH]; intros n m H.
  - destruct n, m; reflexivity.
  - simpl in H. apply andb_true_iff in H. destruct H as [Hc Hs].
    destruct n as [|n']; simpl.
    + destruct m as [|m']; [reflexivity|]. simpl. now rewrite Hc, IH.
    + now apply IH.
Qed.

(** *** Reversal *)

Lemma revStr_snoc (s : string) (c : ascii) :
  revStr (s ++ String c EmptyString) = String c (revStr s).
Proof.
  induction s as [|d s' IH]; simpl; [reflexivity|]. now rewrite IH.
Qed.

Lemma revStr_involutive (s : string) : revStr (revStr s) = s.
Proof.
  induction s as [|c s' IH]; simpl; [reflexivity|].
  now rewrite revStr_snoc, IH.
Qed.

Lemma append_empty_r (s : string) : s ++ EmptyString = s.
Proof. induction s as [|c s' IH]; simpl; [reflexivity | now rewrite IH]. Qed.

Lemma append_assoc (a b c : string) : (a ++ b) ++ c = a ++ (b ++ c).
Proof. induction a as [|d a' IH]; simpl; [reflexivity | now rewrite IH]. Qed.

Lemma revStr_append (a b : string) : revStr (a ++ b) = revStr b ++ revStr a.
Proof.
  induction a as [|c a' IH]; simpl.
  - now rewrite append_empty_r.
  - now rewrite IH, append_assoc.
Qed.

(** *** Trimming *)

(** The string is empty or starts with a character [p] rejects. *)
Definition headOk (p : ascii -> bool) (s : string) : bool :=
  match s with
  | EmptyString => true
  | String c _ => negb (p c)
  end.

Lemma dropWhileStr_headOk (p : ascii -> bool) (s : string) :
  headOk p (dropWhileStr p s) = true.
Proof.
  induction s as [|c s' IH]; simpl; [reflexivity|].
  destruct (p c) eqn:E; [exact IH | simpl; now rewrite E].
Qed.

Lemma dropWhileStr_fixed (p : ascii -> bool) (s : string) :
  headOk p s = true -> dropWhileStr p s = s.
Proof.
  destruct s as [|c s']; simpl; [reflexivity|].
  intros H. apply negb_true_iff in H. now rewrite H.
Qed.

(** What [dropWhileStr] removes stands in front of what it keeps. *)
Lemma dropWhileStr_split (p : ascii -> bool) (s : string) :
  exists w, s = w ++ dropWhileStr p s.
Proof.
  induction s as [|c s' [w Hw]]; simpl.
  - now exists EmptyString.
  - destruct (p c).
    + exists (String c w). simpl. now rewrite <- Hw.
    + now exists EmptyString.
Qed.

Lemma headOk_append (p : ascii -> bool) (a b : string) :
  a <> EmptyString -> headOk p (a ++ b) = headOk p a.
Proof. destruct a; [congruence | reflexivity]. Qed.

Lemma revStr_empty (s : string) : revStr s = EmptyString -> s = EmptyString.
Proof.
  intros H. rewrite <- (revStr_involutive s), H. reflexivity.
Qed.

Lemma trim_idem (s : string) : trim (trim s) = trim s.
Proof.
  unfold trim.
  set (t := dropWhileStr isSpace s).
  set (u := dropWhileStr isSpace (revStr t)).
  assert (Ht : headOk isSpace t = true) by apply dropWhileStr_headOk.
  assert (Hu : headOk isSpace u = true) by apply dropWhileStr_headOk.
  assert (Hru : headOk isSpace (revStr u) = true).
  { destruct (dropWhileStr_split isSpace (revStr t)) as [w Hw]. fold u in Hw.
    assert (Hsplit : t = revStr u ++ revStr w).
    { rewrite <- (revStr_involutive t), Hw. apply revStr_append. }
    destruct (revStr u) as [|c r] eqn:Er; [reflexivity|].
    rewrite Hsplit in Ht. exact Ht. }
  rewrite (dropWhileStr_fixed isSpace (revStr u) Hru).
  rewrite revStr_involutive.
  now rewrite (dropWhileStr_fixed isSpace u Hu).
Qed.

End StringFacts.

(* ================================================================== *)
(** ** What the matcher hands on: tails of the input, pieces of it *)
(* ================================================================== *)

Module RegexFacts.
Import Js Regex.

Section Invariant.

(** [P] holds of the input and of its tails, [C] of every piece of a
    string of which [P] holds. *)
Variable P : string -> Prop.
Variable C : string -> Prop.
Hypothesis P_tail : forall c s, P (String c s) -> P s.
Hypothesis P_piece : forall s n, P s -> C (substring 0 n s).

Definition capsOk (caps : Caps) : Prop := Forall (fun e => C (snd e)) caps.

Lemma rmatch_invariant {A : Type} (R : A -> Prop) :
  forall (r : Re) (s : string) (caps : Caps)
         (k : string -> Caps -> option A) (x : A),
    P s -> capsOk caps ->
    (forall s1 c1 y, P s1 -> capsOk c1 -> k s1 c1 = Some y -> R y) ->
    rmatch r s caps k = Some x -> R x.
Proof.
  induction r as [p| |r1 IH1 r2 IH2|r1 IH1 r2 IH2|r1 IH1|n r1 IH1];
    intros s caps k x Hs Hc Hk H; simpl in H.
  - destruct s as [|c s']; [discriminate|].
    destruct (p c); [|discriminate].
    apply (Hk s' caps x); [now apply (P_tail c) | exact Hc | exact H].
  - now apply (Hk s caps x).
  - refine (IH1 s caps _ x Hs Hc _ H).
    intros s1 c1 y Hs1 Hc1 H1. now apply (IH2 s1 c1 k y).
  - destruct (rmatch r1 s caps k) as [y|] eqn:E.
    + injection H as <-. now apply (IH1 s caps k y).
    + now apply (IH2 s caps k x).
  - revert H. generalize (String.length s) as fuel. intros fuel.
    revert s caps x Hs Hc.
    induction fuel as [|fuel' IHf]; intros s caps x Hs Hc H.
    + now apply (Hk s caps x).
    + match type of H with
      | match ?m with _ => _ end = _ => destruct m as [y|] eqn:E
      end.
      * injection H as <-.
        refine (IH1 s caps _ y Hs Hc _ E).
        intros s1 c1 z Hs1 Hc1 H1.
        destruct (String.length s1 <? String.length s)%nat; [|discriminate].
        now apply (IHf s1 c1 z).
      * now apply (Hk s caps x).
  - refine (IH1 s caps _ x Hs Hc _ H).
    intros s1 c1 y Hs1 Hc1 H1. refine (Hk s1 _ y Hs1 _ H1).
    constructor; [now apply P_piece | exact Hc1].
Qed.

Definition matchOk (m : Match) : Prop :=
  C (matched m) /\ capsOk (groups m) /\ P (rest m).

Lemma matchHere_invariant (r : Re) (i : nat) (s : string) (m : Match) :
  P s -> matchHere r i s = Some m -> matchOk m.
Proof.
  intros Hs H. unfold matchHere in H.
  refine (rmatch_invariant matchOk r s [] _ m Hs (Forall_nil _) _ H).
  intros s1 c1 y Hs1 Hc1 Hy. injection Hy as <-.
  split; [now apply P_piece | now split].
Qed.

Lemma searchFrom_invariant (r : Re) (s : string) : forall (i : nat) (m : Match),
  P s -> searchFrom r i s = Some m -> matchOk m.
Proof.
  induction s as [|c s' IH]; intros i m Hs H; simpl in H.
  - destruct (matchHere r i EmptyString) as [m'|] eqn:E; [|discriminate].
    injection H as <-. now apply (matchHere_invariant r i EmptyString).
  - destruct (matchHere r i (String c s')) as [m'|] eqn:E.
    + injection H as <-. now apply (matchHere_invariant r i (String c s')).
    + apply (IH (S i) m); [now apply (P_tail c) | exact H].
Qed.

Lemma capture_invariant (caps : Caps) (n : nat) (t : string) :
  capsOk caps -> capture caps n = Some t -> C t.
Proof.
  induction caps as [|[k v] rest IH]; intros Hc H; simpl in H; [discriminate|].
  apply Forall_cons_iff in Hc. destruct Hc as [Hv Hrest].
  destruct (k =? n)%nat; [injection H as <-; exact Hv | now apply IH].
Qed.

Lemma groupOr_invariant (r : Re) (s : string) (n : nat) :
  C EmptyString -> P s -> C (groupOr (search r s) n).
Proof.
  intros Hempty Hs. unfold groupOr, search.
  destruct (searchFrom r 0 s) as [m|] eqn:E; [|exact Hempty].
  destruct (searchFrom_invariant r s 0 m Hs E) as [_ [Hc _]].
  unfold group. destruct (capture (groups m) n) as [t|] eqn:Et; [|exact Hempty].
  now apply (capture_invariant (groups m) n t).
Qed.

End Invariant.

End RegexFacts.

(* ================================================================== *)
(** ** More on [parseCommand] and [transformValue] *)
(* ================================================================== *)

Module ParserFacts.
Import Js Regex Modifier StringFacts RegexFacts.

Lemma find_first {A : Type} (p : A -> bool) (xs : list A) (x : A) :
  find p xs = Some x ->
  exists before after,
    xs = (before ++ x :: after)%list
    /\ p x = true
    /\ forall y, In y before -> p y = false.
Proof.
  induction xs as [|y rest IH]; intros H; simpl in H; [discriminate|].
  destruct (p y) eqn:E.
  - injection H as <-. exists [], rest. repeat split; [exact E | intros z []].
  - destruct (IH H) as [before [after [-> [Hx Hbefore]]]].
    exists (y :: before), after. repeat split; [exact Hx|].
    intros z [<-|Hz]; [exact E | now apply Hbefore].
Qed.

Lemma isEmpty_true (s : string) : isEmpty s = true -> s = EmptyString.
Proof. destruct s; [reflexivity | discriminate]. Qed.

(** The field of a parsed command, read off [parseCommand]. *)
Lemma parseCommand_field (fields : list string) (command0 : string) (p : Parsed) :
  parseCommand fields command0 = Some p ->
  pField p = matchField fields (toLowerCase command0)
  /\ isEmpty (pField p) = false.
Proof.
  unfold parseCommand. intros H.
  destruct (detectOperation (toLowerCase command0)) as [op nv].
  destruct (isEmpty (matchField fields (toLowerCase command0))) eqn:E;
    [discriminate|].
  injection H as <-. simpl. now split.
Qed.

(** X1.  When [parseCommand] returns a command, its field is a member of
    the field set, is not the empty name, and is the first field of the set
    whose normalized name occurs in the normalized phrase: no field before
    it occurs there. *)
Theorem parsed_field_is_first_match
  (fields : list string) (command0 : string) (p : Parsed) :
  parseCommand fields command0 = Some p ->
  pField p <> EmptyString
  /\ exists before after,
       fields = (before ++ pField p :: after)%list
       /\ includes (normalize (toLowerCase command0)) (normalize (pField p)) = true
       /\ forall f, In f before ->
            includes (normalize (toLowerCase command0)) (normalize f) = false.
Proof.
  intros H. apply parseCommand_field in H. destruct H as [Hf Hne].
  split; [intros Heq; rewrite Heq in Hne; discriminate|].
  unfold matchField in Hf.
  destruct (find _ fields) as [f|] eqn:E.
  - subst f. now apply find_first in E.
  - rewrite Hf in Hne. discriminate.
Qed.

Lemma parsed_field_example :
  parseCommand ["id"; "name"; "email"]
               "Update email field to uppercase where name contains John"
  = Some (mkParsed transform "name" "name contains john" "uppercase" [])
  /\ pField (mkParsed transform "name" "name contains john" "uppercase" [])
     <> EmptyString
  /\ exists before after,
       ["id"; "name"; "email"] = (before ++ "name" :: after)%list
       /\ includes (normalize (toLowerCase
            "Update email field to uppercase where name contains John"))
            (normalize "name") = true
       /\ forall f, In f before ->
            includes (normalize (toLowerCase
              "Update email field to uppercase where name contains John"))
              (normalize f) = false.
Proof.
  split; [reflexivity|].
  apply (parsed_field_is_first_match ["id"; "name"; "email"]
           "Update email field to uppercase where name contains John").
  reflexivity.
Defined.

(** X2.  A phrase in which no field of the table occurs, after
    normalization, is not parsed, whatever else it says, and
    [processCommand] then leaves the history as it is. *)
Theorem phrase_without_field_is_rejected (host : Host) (now : string)
  (previewMode : bool) (command0 : string) (data : list Row)
  (mods : list DataModification) :
  (forall f, In f (availableFields data) ->
     includes (normalize (toLowerCase command0)) (normalize f) = false) ->
  parseCommand (availableFields data) command0 = None
  /\ processCommand host now previewMode command0 data mods = mods.
Proof.
  intros Hnone.
  assert (Hp : parseCommand (availableFields data) command0 = None).
  { unfold parseCommand.
    destruct (detectOperation (toLowerCase command0)) as [op nv].
    unfold matchField.
    destruct (find _ (availableFields data)) as [f|] eqn:E; [|reflexivity].
    apply find_some in E. destruct E as [Hin Hf].
    rewrite (Hnone f Hin) in Hf. discriminate. }
  split; [exact Hp|].
  unfold processCommand. rewrite Hp.
  now destruct (isEmpty (trim command0) || (List.length data =? 0)%nat).
Qed.

Definition threeRows : list Row :=
  [ [("name", VStr "Ann"); ("email", VStr "ann@x.com")];
    [("name", VStr "Bob"); ("email", VStr "bob@x.com")];
    [("name", VStr "Cy"); ("email", VStr "cy@x.com")] ].

Lemma delete_row_phrase_is_rejected :
  (forall f, In f (availableFields threeRows) ->
     includes (normalize (toLowerCase "Delete row 2")) (normalize f) = false)
  /\ forall host now previewMode mods,
       parseCommand (availableFields threeRows) "Delete row 2" = None
       /\ processCommand host now previewMode "Delete row 2" threeRows mods = mods.
Proof.
  assert (H : forall f, In f (availableFields threeRows) ->
     includes (normalize (toLowerCase "Delete row 2")) (normalize f) = false).
  { intros f [<-|[<-|[]]]; reflexivity. }
  split; [exact H|].
  intros host now previewMode mods.
  exact (phrase_without_field_is_rejected host now previewMode "Delete row 2"
           threeRows mods H).
Defined.

(** *** Everything read from the phrase is lower-case *)

Definition lower (s : string) : Prop := noUpper s = true.

Lemma lower_group (r : Re) (s : string) (n : nat) :
  lower s -> lower (groupOr (search r s) n).
Proof.
  intros Hs.
  apply (groupOr_invariant lower lower noUpper_tail
           (fun s0 n0 H => noUpper_substring s0 0 n0 H) r s n eq_refl Hs).
Qed.

Lemma lower_append (a b : string) : lower a -> lower b -> lower (a ++ b).
Proof. unfold lower. intros Ha Hb. now rewrite noUpper_append, Ha, Hb. Qed.

Lemma detectOperation_lower (lc : string) :
  lower lc -> lower (snd (detectOperation lc)).
Proof.
  intros Hlc. unfold detectOperation.
  destruct (search transformRe lc) as [m|] eqn:E.
  - rewrite <- E. cbn [snd]. now apply lower_group.
  - destruct (includes lc "delete" || includes lc "remove"); [reflexivity|].
    destruct (includes lc "add" || includes lc "insert"); [reflexivity|].
    destruct (includes lc "replace" || includes lc "swap"); [reflexivity|].
    destruct (includes lc "transform" || includes lc "convert"); [|reflexivity].
    cbn [snd]. now apply lower_group.
Qed.

Lemma extractNewValue_lower (lc : string) : lower lc -> lower (extractNewValue lc).
Proof.
  intros Hlc. unfold extractNewValue.
  destruct (negb (isEmpty (groupOr (search (valueRe "to") lc) 1)));
    [now apply lower_group|].
  destruct (negb (isEmpty (groupOr (search (valueRe "with") lc) 1)));
    now apply lower_group.
Qed.

Lemma extractCondition_lower (lc : string) : lower lc -> lower (extractCondition lc).
Proof.
  intros Hlc. unfold extractCondition.
  destruct (search whereRe lc) as [m|] eqn:E; [|reflexivity].
  rewrite <- E.
  repeat (apply lower_append; [try reflexivity; now apply lower_group|]).
  now apply lower_group.
Qed.

(** X3.  The parser works on the lower-cased phrase, so the new value
    and the condition of a parsed command hold no upper-case letter: the
    case of a literal the user typed is lost before it reaches the table or
    the pattern of a replace. *)
Theorem parsed_text_is_lower_case
  (fields : list string) (command0 : string) (p : Parsed) :
  parseCommand fields command0 = Some p ->
  noUpper (pNewValue p) = true /\ noUpper (pCondition p) = true.
Proof.
  unfold parseCommand. intros H.
  pose proof (noUpper_toLowerCase command0) as Hlc.
  pose proof (detectOperation_lower _ Hlc) as Hnv.
  destruct (detectOperation (toLowerCase command0)) as [op nv]. simpl in Hnv.
  destruct (isEmpty (matchField fields (toLowerCase command0))); [discriminate|].
  injection H as <-. simpl. split.
  - destruct (isEmpty nv && _); [now apply extractNewValue_lower | exact Hnv].
  - now apply extractCondition_lower.
Qed.

Lemma parsed_text_example :
  parseCommand ["name"] "Update name to Grace HOPPER where name = ADA"
  = Some (mkParsed update "name" "name = ada" "grace hopper where name = ada" [])
  /\ noUpper "grace hopper where name = ada" = true
  /\ noUpper "name = ada" = true.
Proof.
  split; [reflexivity|].
  apply (parsed_text_is_lower_case ["name"]
           "Update name to Grace HOPPER where name = ADA"
           (mkParsed update "name" "name = ada" "grace hopper where name = ada" [])).
  reflexivity.
Defined.

(** *** Transforms *)

Lemma capitalize_idem (s : string) : capitalize (capitalize s) = capitalize s.
Proof.
  destruct s as [|c s']; simpl; [reflexivity|].
  now rewrite upperChar_idem, toLowerCase_idem.
Qed.

(** X4.  The transforms [uppercase], [lowercase], [capitalize] and [trim]
    are idempotent on every value whose text is ASCII, whatever the case of
    the ASCII transform name: applying one to its own result changes
    nothing. *)
Theorem case_and_trim_transforms_are_idempotent (v : Value) (t : string) :
  isAscii (toString v) = true ->
  isAscii t = true ->
  In (toLowerCase t) ["uppercase"; "lowercase"; "capitalize"; "trim"] ->
  transformValue (transformValue v t) t = transformValue v t.
Proof.
  intros _ _ [H|[H|[H|[H|[]]]]]; unfold transformValue; rewrite <- H; simpl.
  - now rewrite toUpperCase_idem.
  - now rewrite toLowerCase_idem.
  - now rewrite capitalize_idem.
  - now rewrite trim_idem.
Qed.

Lemma idempotent_transform_example :
  (isAscii (toString (VStr "aDA lovelace")) = true
   /\ isAscii "Capitalize" = true
   /\ In (toLowerCase "Capitalize") ["uppercase"; "lowercase"; "capitalize"; "trim"])
  /\ transformValue (transformValue (VStr "aDA lovelace") "Capitalize") "Capitalize"
     = transformValue (VStr "aDA lovelace") "Capitalize".
Proof.
  split.
  - split; [reflexivity|]. split; [reflexivity|]. right; right; left; reflexivity.
  - apply (case_and_trim_transforms_are_idempotent (VStr "aDA lovelace") "Capitalize");
      [reflexivity | reflexivity | right; right; left; reflexivity].
Defined.

(** X5.  [reverse] applied twice gives back the text of the value: a
    string is restored, a number or a boolean comes back as the string that
    prints it. *)
Theorem reverse_twice_restores_the_text (v : Value) (t : string) :
  toLowerCase t = "reverse" ->
  transformValue (transformValue v t) t = VStr (toString v).
Proof.
  intros H. unfold transformValue. rewrite H. simpl.
  now rewrite revStr_involutive.
Qed.

Lemma reverse_twice_example :
  toLowerCase "REVERSE" = "reverse"
  /\ transformValue (transformValue (VNum 120) "REVERSE") "REVERSE" = VStr "120".
Proof.
  split; [reflexivity|].
  apply (reverse_twice_restores_the_text (VNum 120) "REVERSE"). reflexivity.
Defined.

End ParserFacts.

(* ================================================================== *)
(** ** More on [evaluateCondition] *)
(* ================================================================== *)

Module ConditionFacts.
Import Js Regex Modifier ModifierFacts.

(** The comparison [evaluateCondition] makes once the condition is cut
    into field, operator and value. *)
Definition clause (host : Host) (row : Row) (fld operator value0 : string)
  : Completion bool :=
  let fieldValue := fieldText row fld in
  let compareValue := toLowerCase value0 in
  if String.eqb operator "=" then Normal (String.eqb fieldValue compareValue)
  else if String.eqb operator ">" then Normal (parseFloatGt host fieldValue compareValue)
  else if String.eqb operator "<" then Normal (parseFloatLt host fieldValue compareValue)
  else if String.eqb operator "contains" then Normal (includes fieldValue compareValue)
  else if String.eqb operator "starts" then Normal (startsWith fieldValue compareValue)
  else if String.eqb operator "ends" then Normal (endsWith fieldValue compareValue)
  else Normal false.

Lemma evaluateCondition_words (host : Host) (row : Row) (cond : string)
  (fld operator value0 : string) (more : list string) :
  isEmpty cond = false ->
  split " " cond = fld :: operator :: value0 :: more ->
  evaluateCondition host row cond = clause host row fld operator value0.
Proof.
  intros Hne Hsplit. unfold evaluateCondition, clause.
  rewrite Hne, Hsplit. reflexivity.
Qed.

Lemma split_three_words (fld operator value0 : string) :
  hasChar " " fld = false ->
  hasChar " " operator = false ->
  hasChar " " value0 = false ->
  split " " (fld ++ " " ++ operator ++ " " ++ value0) = [fld; operator; value0].
Proof.
  intros Hf Ho Hv.
  change (fld ++ " " ++ operator ++ " " ++ value0)
    with (fld ++ String " " (operator ++ String " " value0)).
  rewrite (split_before_separator " " fld _ Hf).
  rewrite (split_before_separator " " operator _ Ho).
  now rewrite (split_without_separator " " value0 Hv).
Qed.

Lemma split_more_words (fld operator value0 rest0 : string) :
  hasChar " " fld = false ->
  hasChar " " operator = false ->
  hasChar " " value0 = false ->
  split " " (fld ++ " " ++ operator ++ " " ++ value0 ++ " " ++ rest0)
  = fld :: operator :: value0 :: split " " rest0.
Proof.
  intros Hf Ho Hv.
  change (fld ++ " " ++ operator ++ " " ++ value0 ++ " " ++ rest0)
    with (fld ++ String " " (operator ++ String " " (value0 ++ String " " rest0))).
  rewrite (split_before_separator " " fld _ Hf).
  rewrite (split_before_separator " " operator _ Ho).
  now rewrite (split_before_separator " " value0 _ Hv).
Qed.

(** X6.  [evaluateCondition] reads the first three words of the
    condition and nothing else: whatever follows the first word of the
    value is ignored, so a value of several words is compared by its first
    word only. *)
Theorem condition_is_read_by_three_words (host : Host) (row : Row)
  (fld operator value0 rest0 : string) :
  hasChar " " fld = false ->
  hasChar " " operator = false ->
  hasChar " " value0 = false ->
  evaluateCondition host row (fld ++ " " ++ operator ++ " " ++ value0 ++ " " ++ rest0)
  = evaluateCondition host row (fld ++ " " ++ operator ++ " " ++ value0).
Proof.
  intros Hf Ho Hv.
  rewrite (evaluateCondition_words host row _ fld operator value0 (split " " rest0)).
  - rewrite (evaluateCondition_words host row _ fld operator value0 []).
    + reflexivity.
    + apply isEmpty_append_nonempty.
    + now apply split_three_words.
  - apply isEmpty_append_nonempty.
  - now apply split_more_words.
Qed.

Lemma three_words_example :
  (hasChar " " "name" = false /\ hasChar " " "=" = false
   /\ hasChar " " "john" = false)
  /\ forall host row,
       evaluateCondition host row "name = john doe"
       = evaluateCondition host row "name = john".
Proof.
  split; [repeat split|].
  intros host row.
  apply (condition_is_read_by_three_words host row "name" "=" "john" "doe");
    reflexivity.
Defined.

(** X7.  The conditions the parser writes for [starts with] and [ends
    with] hold the operator in two words; [evaluateCondition] takes the
    second one, [with], for the value: the row is selected when the text of
    its field starts, or ends, with the word with, whatever value the user
    gave. *)
Theorem starts_with_compares_against_with (host : Host) (row : Row)
  (fld value0 : string) :
  hasChar " " fld = false ->
  evaluateCondition host row (fld ++ " starts with " ++ value0)
  = Normal (startsWith (fieldText row fld) "with")
  /\
  evaluateCondition host row (fld ++ " ends with " ++ value0)
  = Normal (endsWith (fieldText row fld) "with").
Proof.
  intros Hf. split.
  - rewrite (evaluateCondition_words host row _ fld "starts" "with" (split " " value0)).
    + reflexivity.
    + apply isEmpty_append_nonempty.
    + change (fld ++ " starts with " ++ value0)
        with (fld ++ String " " ("starts" ++ String " " ("with" ++ String " " value0))).
      rewrite (split_before_separator " " fld _ Hf).
      rewrite (split_before_separator " " "starts" _ eq_refl).
      now rewrite (split_before_separator " " "with" _ eq_refl).
  - rewrite (evaluateCondition_words host row _ fld "ends" "with" (split " " value0)).
    + reflexivity.
    + apply isEmpty_append_nonempty.
    + change (fld ++ " ends with " ++ value0)
        with (fld ++ String " " ("ends" ++ String " " ("with" ++ String " " value0))).
      rewrite (split_before_separator " " fld _ Hf).
      rewrite (split_before_separator " " "ends" _ eq_refl).
      now rewrite (split_before_separator " " "with" _ eq_refl).
Qed.

Lemma starts_with_example :
  extractCondition "update email to x where name starts with john"
  = "name starts with john"
  /\ hasChar " " "name" = false
  /\ forall host,
       evaluateCondition host [("name", VStr "John Doe")] "name starts with john"
       = Normal false
       /\ evaluateCondition host [("name", VStr "Withers")] "name starts with john"
          = Normal true.
Proof.
  split; [reflexivity|]. split; [reflexivity|].
  intros host.
  split.
  - exact (proj1 (starts_with_compares_against_with host
                    [("name", VStr "John Doe")] "name" "john" eq_refl)).
  - exact (proj1 (starts_with_compares_against_with host
                    [("name", VStr "Withers")] "name" "john" eq_refl)).
Defined.

(** *** Conditions written by the parser do not throw *)

Lemma split_nonempty (sep : ascii) (s : string) : 1 <= List.length (split sep s).
Proof.
  induction s as [|c s' IH]; simpl; [lia|].
  destruct (Ascii.eqb c sep); simpl; [lia|].
  destruct (split sep s'); simpl in *; lia.
Qed.

Lemma split_length_append (sep : ascii) (a t : string) :
  List.length (split sep (a ++ String sep t))
  = List.length (split sep a) + List.length (split sep t).
Proof.
  induction a as [|c a' IH]; simpl.
  - now rewrite Ascii.eqb_refl.
  - destruct (Ascii.eqb c sep); simpl; [now rewrite IH|].
    pose proof (split_nonempty sep (a' ++ String sep t)) as H1.
    pose proof (split_nonempty sep a') as H2.
    destruct (split sep (a' ++ String sep t)); destruct (split sep a');
      simpl in *; lia.
Qed.

Lemma evaluateCondition_normal (host : Host) (row : Row) (cond : string) :
  3 <= List.length (split " " cond) ->
  exists b, evaluateCondition host row cond = Normal b.
Proof.
  intros Hlen. unfold evaluateCondition.
  destruct (isEmpty cond); [now exists true|].
  destruct (nth_error (split " " cond) 2) as [v|] eqn:E.
  - repeat match goal with
           | |- context [if ?c then _ else _] => destruct c
           end; eexists; reflexivity.
  - apply nth_error_None in E. lia.
Qed.

Lemma extractCondition_normal (host : Host) (row : Row) (lc : string) :
  exists b, evaluateCondition host row (extractCondition lc) = Normal b.
Proof.
  unfold extractCondition. destruct (search whereRe lc) as [m|].
  - apply evaluateCondition_normal.
    change (groupOr (Some m) 1 ++ " " ++ groupOr (Some m) 2 ++ " " ++ groupOr (Some m) 3)
      with (groupOr (Some m) 1 ++
            String " " (groupOr (Some m) 2 ++ String " " (groupOr (Some m) 3))).
    rewrite !split_length_append.
    pose proof (split_nonempty " " (groupOr (Some m) 1)).
    pose proof (split_nonempty " " (groupOr (Some m) 2)).
    pose proof (split_nonempty " " (groupOr (Some m) 3)).
    lia.
  - now exists true.
Qed.

End ConditionFacts.

(* ================================================================== *)
(** ** More on [applyModification] and its callers *)
(* ================================================================== *)

Module ApplierFacts.
Import Js Regex Modifier IndexFacts ModifierFacts ConditionFacts.

(** The record [processCommand] builds from a parsed command. *)
Definition modificationOf (now command0 : string) (p : Parsed) : DataModification :=
  mkModification now command0 (pOperation p) (pField p) (pCondition p)
                 (pNewValue p) (pAffectedRows p) pending.

Lemma processCommand_records (host : Host) (now command0 : string)
  (data : list Row) (mods : list DataModification) :
  processCommand host now false command0 data mods
  = if isEmpty (trim command0) || (List.length data =? 0)%nat then mods
    else match parseCommand (availableFields data) command0 with
         | Some p => modificationOf now command0 p :: mods
         | None => mods
         end.
Proof. reflexivity. Qed.

Lemma parseCommand_condition (fields : list string) (command0 : string) (p : Parsed) :
  parseCommand fields command0 = Some p ->
  pCondition p = extractCondition (toLowerCase command0).
Proof.
  unfold parseCommand. intros H.
  destruct (detectOperation (toLowerCase command0)) as [op nv].
  destruct (isEmpty (matchField fields (toLowerCase command0))); [discriminate|].
  now injection H as <-.
Qed.

Lemma mapC_total {A B : Type} (g : A -> Completion B) (xs : list A) :
  (forall x, In x xs -> exists y, g x = Normal y) ->
  exists ys, mapC g xs = Normal ys.
Proof.
  induction xs as [|x rest IH]; intros Hg; simpl.
  - now exists [].
  - destruct (Hg x (or_introl eq_refl)) as [y ->]. simpl.
    destruct IH as [ys ->]; [intros z Hz; apply Hg; now right|].
    now exists (y :: ys).
Qed.

Lemma filterC_total {A : Type} (g : A -> Completion bool) (xs : list A) :
  (forall x, In x xs -> exists b, g x = Normal b) ->
  exists ys, filterC g xs = Normal ys.
Proof.
  induction xs as [|x rest IH]; intros Hg; simpl.
  - now exists [].
  - destruct (Hg x (or_introl eq_refl)) as [b ->]. simpl.
    destruct IH as [ys ->]; [intros z Hz; apply Hg; now right|].
    simpl. now eexists.
Qed.

Section Facts.

Variable host : Host.

Lemma isSelected_normal (m : DataModification) (idx : nat) (row : Row) :
  (exists b, evaluateCondition host row (condition m) = Normal b) ->
  exists b, isSelected host m idx row = Normal b.
Proof.
  intros Hc. unfold isSelected.
  destruct (existsb _ (affectedRows m)); [now exists true|].
  destruct (isEmpty (condition m)); [now exists false | exact Hc].
Qed.

(** X8.  A command the parser accepted and that is not a replace cannot
    fail when it is applied: the [switch] ends normally on every table, so
    [applyModification] returns its result and never marks the record
    [failed]. *)
Theorem parsed_commands_apply_without_exception
  (fields : list string) (now command0 : string) (p : Parsed)
  (data : list Row) (mods : list DataModification) :
  parseCommand fields command0 = Some p ->
  pOperation p <> replace ->
  exists out,
    applyBody host data (modificationOf now command0 p) = Normal out
    /\ applyModification host data (modificationOf now command0 p) mods
       = (Normal out, mods).
Proof.
  intros Hp Hop.
  assert (Hsel : forall idx row,
            exists b, isSelected host (modificationOf now command0 p) idx row
                      = Normal b).
  { intros idx row. apply isSelected_normal. simpl.
    rewrite (parseCommand_condition fields command0 p Hp).
    apply extractCondition_normal. }
  assert (Hbody : exists out,
            applyBody host data (modificationOf now command0 p) = Normal out).
  { unfold applyBody. simpl. destruct (pOperation p) eqn:Eop.
    - apply mapC_total. intros [i r] _. unfold updateRow. simpl.
      destruct (Hsel i r) as [b ->]. simpl. now eexists.
    - destruct (filterC_total
                  (fun ir => keepRow host (modificationOf now command0 p)
                                     (fst ir) (snd ir)) (indexed data))
        as [kept Hk].
      + intros [i r] _. unfold keepRow. simpl.
        destruct (Hsel i r) as [b ->]. simpl. now eexists.
      + rewrite Hk. simpl. now eexists.
    - now eexists.
    - congruence.
    - apply mapC_total. intros [i r] _. unfold transformRow. simpl.
      destruct (Hsel i r) as [b ->]. simpl. now eexists. }
  destruct Hbody as [out Hout]. exists out. split; [exact Hout|].
  rewrite applyModification_cases. now rewrite Hout.
Qed.

End Facts.

Lemma parsed_command_example :
  (parseCommand ["name"; "email"] "Delete rows where email ends with x.com"
   = Some (mkParsed delete "email" "email ends with x.com" EmptyString [])
   /\ pOperation (mkParsed delete "email" "email ends with x.com" EmptyString [])
      <> replace)
  /\ forall host0 data mods,
       exists out,
         applyBody host0 data
           (modificationOf "7" "Delete rows where email ends with x.com"
              (mkParsed delete "email" "email ends with x.com" EmptyString []))
         = Normal out
         /\ applyModification host0 data
              (modificationOf "7" "Delete rows where email ends with x.com"
                 (mkParsed delete "email" "email ends with x.com" EmptyString []))
              mods
            = (Normal out, mods).
Proof.
  split; [split; [reflexivity | discriminate]|].
  intros host0 data mods.
  apply (parsed_commands_apply_without_exception host0 ["name"; "email"] "7"
           "Delete rows where email ends with x.com"); [reflexivity | discriminate].
Defined.

End ApplierFacts.

(* ================================================================== *)
(** ** What each operation does to the table *)
(* ================================================================== *)

Module TableFacts.
Import Js Regex Modifier IndexFacts ModifierFacts ApplierFacts.

(** [ys] is [xs] with some elements left out, the others in order. *)
Inductive Subseq {A : Type} : list A -> list A -> Prop :=
| subseq_nil : Subseq [] []
| subseq_skip (x : A) (ys xs : list A) : Subseq ys xs -> Subseq ys (x :: xs)
| subseq_keep (x : A) (ys xs : list A) : Subseq ys xs -> Subseq (x :: ys) (x :: xs).

Lemma Subseq_length {A : Type} (ys xs : list A) :
  Subseq ys xs -> List.length ys <= List.length xs.
Proof. induction 1; simpl; lia. Qed.

Lemma Subseq_full {A : Type} (ys xs : list A) :
  Subseq ys xs -> List.length ys = List.length xs -> ys = xs.
Proof.
  induction 1 as [|x ys xs H IH|x ys xs H IH]; simpl; intros Hlen.
  - reflexivity.
  - apply Subseq_length in H. lia.
  - f_equal. apply IH. lia.
Qed.

Lemma Subseq_map {A B : Type} (f : A -> B) (ys xs : list A) :
  Subseq ys xs -> Subseq (map f ys) (map f xs).
Proof. induction 1; simpl; now constructor. Qed.

Lemma filterC_subseq {A : Type} (g : A -> Completion bool) (xs : list A) :
  forall ys, filterC g xs = Normal ys -> Subseq ys xs.
Proof.
  induction xs as [|x rest IH]; intros ys H; simpl in H.
  - injection H as <-. constructor.
  - destruct (g x) as [keep|]; [|discriminate]. simpl in H.
    destruct (filterC g rest) as [ys'|]; [|discriminate]. simpl in H.
    injection H as <-. destruct keep; constructor; now apply IH.
Qed.

Lemma mapC_ext_in {A B : Type} (g g' : A -> Completion B) (xs : list A) :
  (forall x, In x xs -> g x = g' x) -> mapC g xs = mapC g' xs.
Proof.
  induction xs as [|x rest IH]; intros H; simpl; [reflexivity|].
  rewrite (H x (or_introl eq_refl)).
  now rewrite IH by (intros y Hy; apply H; now right).
Qed.

Lemma filterC_ext_in {A : Type} (g g' : A -> Completion bool) (xs : list A) :
  (forall x, In x xs -> g x = g' x) -> filterC g xs = filterC g' xs.
Proof.
  induction xs as [|x rest IH]; intros H; simpl; [reflexivity|].
  rewrite (H x (or_introl eq_refl)).
  now rewrite IH by (intros y Hy; apply H; now right).
Qed.

Lemma get_set_other (row : Row) (f k : string) (v : Value) :
  String.eqb f k = false -> get (set row f v) k = get row k.
Proof.
  intros Hfk. induction row as [|[k' v'] rest IH]; simpl.
  - now rewrite Hfk.
  - destruct (String.eqb k' f) eqn:E; simpl.
    + apply String.eqb_eq in E. subst k'. now rewrite Hfk.
    + now rewrite IH.
Qed.

Lemma get_fold_set (g : string -> Value) (fields : list string) :
  forall (acc : Row) (k : string),
    get (fold_left (fun newRow f => set newRow f (g f)) fields acc) k
    = if existsb (fun f => String.eqb f k) fields then g k else get acc k.
Proof.
  induction fields as [|f rest IH]; intros acc k; simpl; [reflexivity|].
  rewrite IH. destruct (String.eqb f k) eqn:E; simpl.
  - apply String.eqb_eq in E. subst f.
    rewrite get_set_same. now destruct (existsb _ rest).
  - now rewrite (get_set_other acc f k (g f) E).
Qed.

(** [r'] holds what [r] holds in every field but [fld]. *)
Definition sameExcept (fld : string) (r r' : Row) : Prop :=
  forall k, String.eqb fld k = false -> get r' k = get r k.

Lemma sameExcept_refl (fld : string) (r : Row) : sameExcept fld r r.
Proof. now intros k _. Qed.

Lemma sameExcept_set (fld : string) (r : Row) (v : Value) :
  sameExcept fld r (set r fld v).
Proof. intros k Hk. now apply get_set_other. Qed.

Lemma mapC_frame (f : nat -> Row -> Completion RowOut) (fld : string) :
  (forall i r o, f i r = Normal o -> sameExcept fld r (rowOf r o)) ->
  forall (data : list Row) (k : nat) (out : list Row),
    mapC (fun ir => bind (f (fst ir) (snd ir))
                         (fun o => Normal (rowOf (snd ir) o)))
         (indexedFrom k data) = Normal out ->
    Forall2 (sameExcept fld) data out.
Proof.
  intros Hf. induction data as [|r rest IH]; intros k out H; simpl in H.
  - injection H as <-. constructor.
  - destruct (f k r) as [o|] eqn:E; [|discriminate]. simpl in H.
    destruct (mapC _ (indexedFrom (S k) rest)) as [out'|] eqn:E'; [|discriminate].
    simpl in H. injection H as <-. constructor.
    + now apply (Hf k r o).
    + now apply (IH (S k)).
Qed.

Section Facts.

Variable host : Host.

(** X9.  A delete returns the table with some rows left out and the
    others in their order: it never adds or reorders rows, so the result is
    at most as long as the table, and exactly as long only when it is the
    table itself. *)
Theorem delete_keeps_a_subsequence
  (data : list Row) (m : DataModification) (out : list Row) :
  operation m = delete ->
  applyBody host data m = Normal out ->
  Subseq out data
  /\ List.length out <= List.length data
  /\ (List.length out = List.length data -> out = data).
Proof.
  intros Hop H. unfold applyBody in H. rewrite Hop in H.
  destruct (filterC _ (indexed data)) as [kept|] eqn:E; [|discriminate].
  simpl in H. injection H as <-.
  assert (Hsub : Subseq (map snd kept) data).
  { apply filterC_subseq in E. apply (Subseq_map snd) in E.
    unfold indexed in E. now rewrite map_snd_indexedFrom in E. }
  split; [exact Hsub|]. split.
  - now apply Subseq_length.
  - now apply Subseq_full.
Qed.

(** X10.  An add appends exactly one row and never fails.  The new row
    holds, for every field of the first row of the table, the new value if
    it is the field of the command and the empty string otherwise, and
    nothing else: a field the first row lacks is not created, and on an
    empty table the new row has no field at all. *)
Theorem add_appends_one_row
  (data : list Row) (m : DataModification) (mods : list DataModification) :
  operation m = add ->
  exists newRow,
    applyModification host data m mods = (Normal (data ++ [newRow])%list, mods)
    /\ forall k,
         get newRow k
         = if existsb (fun f => String.eqb f k) (availableFields data)
           then VStr (if String.eqb k (field m) then newValue m else EmptyString)
           else VUndefined.
Proof.
  intros Hop. exists (addedRow (availableFields data) m). split.
  - rewrite applyModification_cases. unfold applyBody. now rewrite Hop.
  - intros k. unfold addedRow.
    now rewrite (get_fold_set
                   (fun f => VStr (if String.eqb f (field m) then newValue m
                                   else EmptyString))).
Qed.

Lemma callbacks_touch_one_field (m : DataModification) :
  (forall i r o, updateRow host m i r = Normal o ->
                 sameExcept (field m) r (rowOf r o))
  /\ (forall i r o, replaceRow host m i r = Normal o ->
                    sameExcept (field m) r (rowOf r o))
  /\ (forall i r o, transformRow host m i r = Normal o ->
                    sameExcept (field m) r (rowOf r o)).
Proof.
  repeat split; intros i r o H.
  - unfold updateRow in H. destruct (isSelected host m i r) as [[|]|];
      simpl in H; try discriminate; injection H as <-; simpl;
      [apply sameExcept_set | apply sameExcept_refl].
  - unfold replaceRow in H. destruct (isSelected host m i r) as [[|]|];
      simpl in H; try discriminate.
    + destruct (replaceAll host _ _ _) as [t|]; simpl in H; [|discriminate].
      injection H as <-. apply sameExcept_set.
    + injection H as <-. apply sameExcept_refl.
  - unfold transformRow in H. destruct (isSelected host m i r) as [[|]|];
      simpl in H; try discriminate; injection H as <-; simpl;
      [apply sameExcept_set | apply sameExcept_refl].
Qed.

(** X11.  An update, a replace or a transform that ends normally returns
    a table of the same length in which every row holds, in every field
    other than the field of the command, what the row at the same position
    held before. *)
Theorem other_fields_are_untouched
  (data : list Row) (m : DataModification) (out : list Row) :
  operation m = update \/ operation m = replace \/ operation m = transform ->
  applyBody host data m = Normal out ->
  List.length out = List.length data
  /\ Forall2 (sameExcept (field m)) data out.
Proof.
  intros Hop H.
  destruct (callbacks_touch_one_field m) as [Hu [Hr Ht]].
  assert (Hall : Forall2 (sameExcept (field m)) data out).
  { unfold applyBody in H.
    destruct Hop as [Hop|[Hop|Hop]]; rewrite Hop in H;
      unfold mapRows, indexed in H.
    - now apply (mapC_frame (updateRow host m) (field m) Hu data 0).
    - now apply (mapC_frame (replaceRow host m) (field m) Hr data 0).
    - now apply (mapC_frame (transformRow host m) (field m) Ht data 0). }
  split; [symmetry; now apply (Forall2_length Hall) | exact Hall].
Qed.

(** X13.  Pressing Apply always hands a table to [onDataChange] and
    always leaves the record marked [applied]: when the applier caught an
    exception the table handed over is the unchanged input, and the
    [failed] mark of the [catch] block is overwritten. *)
Theorem apply_always_ends_applied
  (data : list Row) (m : DataModification) (mods : list DataModification) :
  exists out,
    fst (applyModificationToData host data m mods) = Some out
    /\ (applyBody host data m = Throw -> out = data)
    /\ List.length (snd (applyModificationToData host data m mods))
       = List.length mods
    /\ forall r, In r (snd (applyModificationToData host data m mods)) ->
                 id r = id m -> status r = applied.
Proof.
  unfold applyModificationToData. rewrite applyModification_cases.
  destruct (applyBody host data m) as [out|]; simpl.
  - exists out. split; [reflexivity|]. split; [discriminate|]. split.
    + apply markStatus_length.
    + apply markStatus_sets.
  - exists data. split; [reflexivity|]. split; [reflexivity|]. split.
    + now rewrite !markStatus_length.
    + apply markStatus_sets.
Qed.

End Facts.

Definition threeNames : list Row :=
  [ [("name", VStr "Ann")]; [("name", VStr "Bob")]; [("name", VStr "Cy")] ].

Definition annAndCy : list Row :=
  [ [("name", VStr "Ann")]; [("name", VStr "Cy")] ].

Definition dropSecond : DataModification :=
  mkModification "5" "hand-made" delete "name" EmptyString EmptyString [2] pending.

Lemma delete_example :
  (operation dropSecond = delete
   /\ forall host, applyBody host threeNames dropSecond = Normal annAndCy)
  /\ forall host : Host,
       Subseq annAndCy threeNames
       /\ List.length annAndCy <= List.length threeNames
       /\ (List.length annAndCy = List.length threeNames -> annAndCy = threeNames).
Proof.
  split; [split; [reflexivity | intros host; reflexivity]|].
  intros host.
  apply (delete_keeps_a_subsequence host threeNames dropSecond annAndCy);
    reflexivity.
Defined.

Definition addPhone : DataModification :=
  mkModification "6" "hand-made" add "email" EmptyString "new@x.com" [] pending.

Lemma add_example :
  operation addPhone = add
  /\ forall host mods,
       exists newRow,
         applyModification host johnJane addPhone mods
         = (Normal (johnJane ++ [newRow])%list, mods)
         /\ forall k,
              get newRow k
              = if existsb (fun f => String.eqb f k) (availableFields johnJane)
                then VStr (if String.eqb k (field addPhone) then newValue addPhone
                           else EmptyString)
                else VUndefined.
Proof.
  split; [reflexivity|].
  intros host mods.
  apply (add_appends_one_row host johnJane addPhone mods). reflexivity.
Defined.

Lemma untouched_fields_example :
  ((operation insertEverywhere = update \/ operation insertEverywhere = replace
    \/ operation insertEverywhere = transform)
   /\ forall host,
        applyBody host [ [("id", VNum 1); ("name", VStr "abc")] ] insertEverywhere
        = Normal [ [("id", VNum 1); ("name", VStr "XaXbXcX")] ])
  /\ forall host : Host,
       List.length [ [("id", VNum 1); ("name", VStr "XaXbXcX")] ]
       = List.length [ [("id", VNum 1); ("name", VStr "abc")] ]
       /\ Forall2 (sameExcept (field insertEverywhere))
                  [ [("id", VNum 1); ("name", VStr "abc")] ]
                  [ [("id", VNum 1); ("name", VStr "XaXbXcX")] ].
Proof.
  split; [split; [right; left; reflexivity | intros host; reflexivity]|].
  intros host.
  apply (other_fields_are_untouched host
           [ [("id", VNum 1); ("name", VStr "abc")] ] insertEverywhere).
  - right; left; reflexivity.
  - reflexivity.
Defined.

End TableFacts.

(* ================================================================== *)
(** ** The preview of [processCommand] *)
(* ================================================================== *)

Module PreviewFacts.
Import Js Regex Modifier IndexFacts ModifierFacts ApplierFacts TableFacts.

Section Facts.

Variable host : Host.

(** The callback of the [data.map] of the preview, with the [filter] that
    follows folded in: the row number when the row is selected. *)
Definition previewPiece (m : DataModification) (ir : nat * Row)
  : Completion (list nat) :=
  bind (isSelected host m (fst ir) (snd ir))
       (fun sel => Normal (if sel then [fst ir + 1] else [])).

Lemma preview_pieces (m : DataModification) :
  forall (xs : list (nat * Row)) (ys : list (list nat)),
    mapC (previewPiece m) xs = Normal ys ->
    (forall i r, In (i, r) xs ->
       exists b, isSelected host m i r = Normal b
                 /\ (b = true -> In (i + 1) (concat ys)))
    /\ (forall j, In j (concat ys) ->
          exists i r, In (i, r) xs
                      /\ isSelected host m i r = Normal true /\ j = i + 1).
Proof.
  induction xs as [|[i0 r0] rest IH]; intros ys H; simpl in H.
  - injection H as <-. split; [intros i r [] | intros j []].
  - unfold previewPiece at 1 in H. simpl in H.
    destruct (isSelected host m i0 r0) as [sel|] eqn:Esel; [|discriminate].
    simpl in H.
    destruct (mapC (previewPiece m) rest) as [ys'|] eqn:Erest; [|discriminate].
    simpl in H. injection H as <-.
    destruct (IH ys' eq_refl) as [IH1 IH2]. split.
    + intros i r [Hx|Hx].
      * injection Hx as <- <-. exists sel. split; [exact Esel|].
        intros ->. simpl. now left.
      * destruct (IH1 i r Hx) as [b [Hb Hin]]. exists b. split; [exact Hb|].
        intros Ht. simpl. apply in_or_app. right. now apply Hin.
    + intros j Hj. simpl in Hj. apply in_app_or in Hj. destruct Hj as [Hj|Hj].
      * destruct sel; [|contradiction]. destruct Hj as [<-|[]].
        exists i0, r0. split; [now left | now split].
      * destruct (IH2 j Hj) as [i [r [Hin [Hs Heq]]]].
        exists i, r. split; [now right | now split].
Qed.

Lemma previewRows_pieces (data : list Row) (m : DataModification) (rows : list nat) :
  previewRows host data m = Normal rows ->
  exists ys, mapC (previewPiece m) (indexed data) = Normal ys /\ rows = concat ys.
Proof.
  unfold previewRows. fold (previewPiece m).
  change (fun ir : nat * Row =>
            bind (isSelected host m (fst ir) (snd ir))
                 (fun sel => Normal (if sel then [fst ir + 1] else [])))
    with (previewPiece m).
  destruct (mapC (previewPiece m) (indexed data)) as [ys|]; simpl; [|discriminate].
  intros H. injection H as <-. now exists ys.
Qed.

Lemma indexed_functional (data : list Row) (i : nat) (r r' : Row) :
  In (i, r) (indexed data) -> In (i, r') (indexed data) -> r = r'.
Proof.
  intros H H'. apply in_indexedFrom in H. apply in_indexedFrom in H'.
  destruct H as [_ H]. destruct H' as [_ H']. congruence.
Qed.

Lemma isSelected_after_preview (data : list Row) (m : DataModification)
  (rows : list nat) :
  previewRows host data m = Normal rows ->
  forall i r, In (i, r) (indexed data) ->
    isSelected host (withAffectedRows m rows) i r = isSelected host m i r.
Proof.
  intros Hprev i r Hin.
  destruct (previewRows_pieces data m rows Hprev) as [ys [Hys ->]].
  destruct (preview_pieces m (indexed data) ys Hys) as [H1 H2].
  destruct (H1 i r Hin) as [b [Hb Hrows]].
  unfold isSelected at 1.
  cbn [affectedRows condition withAffectedRows]. destruct b.
  - assert (Hex : existsb (Nat.eqb (i + 1)) (concat ys) = true).
    { apply existsb_exists. exists (i + 1). split; [now apply Hrows|].
      apply Nat.eqb_refl. }
    now rewrite Hex, Hb.
  - assert (Hex : existsb (Nat.eqb (i + 1)) (concat ys) = false).
    { destruct (existsb (Nat.eqb (i + 1)) (concat ys)) eqn:E; [|reflexivity].
      apply existsb_exists in E. destruct E as [j [Hj Heq]].
      apply Nat.eqb_eq in Heq. subst j.
      destruct (H2 (i + 1) Hj) as [i' [r' [Hin' [Hs Heq]]]].
      assert (i' = i) by lia. subst i'.
      rewrite (indexed_functional data i r r' Hin Hin') in Hb. congruence. }
    rewrite Hex. unfold isSelected in Hb |- *.
    destruct (existsb (Nat.eqb (i + 1)) (affectedRows m));
      [discriminate Hb | reflexivity].
Qed.

(** X12.  When the preview of [processCommand] succeeds, the row numbers
    it stores in the modification are exactly the numbers of the rows the
    modification selects, and storing them changes nothing about what
    applying the modification to the same table does. *)
Theorem preview_agrees_with_apply
  (data : list Row) (m : DataModification) (rows : list nat) :
  previewRows host data m = Normal rows ->
  (forall i r, nth_error data i = Some r ->
     (In (i + 1) rows <-> isSelected host m i r = Normal true))
  /\ applyBody host data (withAffectedRows m rows) = applyBody host data m.
Proof.
  intros Hprev. split.
  - intros i r Hnth.
    assert (Hin : In (i, r) (indexed data))
      by exact (nth_indexedFrom data 0 i r Hnth).
    destruct (previewRows_pieces data m rows Hprev) as [ys [Hys ->]].
    destruct (preview_pieces m (indexed data) ys Hys) as [H1 H2]. split.
    + intros Hj. destruct (H2 (i + 1) Hj) as [i' [r' [Hin' [Hs Heq]]]].
      assert (i' = i) by lia. subst i'.
      now rewrite (indexed_functional data i r r' Hin Hin').
    + intros Hs. destruct (H1 i r Hin) as [b [Hb Hrows]].
      apply Hrows. congruence.
  - pose proof (isSelected_after_preview data m rows Hprev) as Hsel.
    unfold applyBody. simpl. destruct (operation m).
    + unfold mapRows. apply mapC_ext_in. intros [i r] Hin.
      unfold updateRow. simpl. now rewrite (Hsel i r Hin).
    + f_equal. apply filterC_ext_in. intros [i r] Hin.
      unfold keepRow. simpl. now rewrite (Hsel i r Hin).
    + reflexivity.
    + unfold mapRows. apply mapC_ext_in. intros [i r] Hin.
      unfold replaceRow. simpl. now rewrite (Hsel i r Hin).
    + unfold mapRows. apply mapC_ext_in. intros [i r] Hin.
      unfold transformRow. simpl. now rewrite (Hsel i r Hin).
Qed.

End Facts.

Definition upperWhereJohn : DataModification :=
  mkModification "8" "hand-made" transform "name" "name contains john"
                 "uppercase" [2] pending.

Lemma preview_example :
  (forall host, previewRows host johnJane upperWhereJohn = Normal [1; 2])
  /\ forall host : Host,
       (forall i r, nth_error johnJane i = Some r ->
          (In (i + 1) [1; 2] <-> isSelected host upperWhereJohn i r = Normal true))
       /\ applyBody host johnJane (withAffectedRows upperWhereJohn [1; 2])
          = applyBody host johnJane upperWhereJohn.
Proof.
  split; [intros host; reflexivity|].
  intros host.
  apply (preview_agrees_with_apply host johnJane upperWhereJohn [1; 2]).
  reflexivity.
Defined.

End PreviewFacts.

(* ================================================================== *)
(** ** Row objects shared between the input and the result *)
(* ================================================================== *)

Module SharingFacts.
Import Js Regex Modifier IndexFacts ModifierFacts StoreFacts.

Lemma mapRefs_all_same (f : nat -> Row -> Completion RowOut) (st : Store) :
  (forall i r, f i r = Normal Same) ->
  forall (items : list nat) (idx : nat) (rows : list Row),
    readRows st items = Some rows ->
    mapRefs f idx items st = (Normal items, st).
Proof.
  intros Hf. induction items as [|l rest IH]; intros idx rows H; simpl in *.
  - reflexivity.
  - destruct (derefRow st l) as [row|]; [|discriminate].
    destruct (readRows st rest) as [rs|]; [|discriminate].
    rewrite Hf. now rewrite (IH (S idx) rs eq_refl).
Qed.

Lemma filterRefs_all_kept (f : nat -> Row -> Completion bool) (st : Store) :
  (forall i r, f i r = Normal true) ->
  forall (items : list nat) (idx : nat) (rows : list Row),
    readRows st items = Some rows ->
    filterRefs f idx items st = Normal items.
Proof.
  intros Hf. induction items as [|l rest IH]; intros idx rows H; simpl in *.
  - reflexivity.
  - destruct (derefRow st l) as [row|]; [|discriminate].
    destruct (readRows st rest) as [rs|]; [|discriminate].
    rewrite Hf. simpl. now rewrite (IH (S idx) rs eq_refl).
Qed.

(** X14.  On a table of row objects, a modification that selects nothing
    (no row number, no condition, not an add) allocates two arrays and no
    row: the array it returns is a new object whose elements are the very
    row objects of the input array. *)
Theorem noop_returns_the_same_row_objects (host : Host)
  (data : nat) (m : DataModification) (st : Store)
  (mods : list DataModification) (items : list nat) (rows : list Row) :
  derefArr st data = Some items ->
  readRows st items = Some rows ->
  operation m <> add ->
  affectedRows m = [] ->
  condition m = EmptyString ->
  applyModificationRef host data m st mods
  = (Normal (S (List.length st)),
     (st ++ [ArrCell items; ArrCell items])%list, mods).
Proof.
  intros Hd Hr Hop Hrows Hcond.
  unfold applyModificationRef. rewrite Hd. unfold alloc. cbv beta iota.
  assert (Hr0 : readRows (st ++ [ArrCell items])%list items = Some rows).
  { apply (extends_readRows st); [now exists [ArrCell items] | exact Hr]. }
  assert (Hlen : List.length (st ++ [ArrCell items])%list = S (List.length st))
    by (rewrite length_app; simpl; lia).
  assert (Hfinal : ((st ++ [ArrCell items]) ++ [ArrCell items])%list
                   = (st ++ [ArrCell items; ArrCell items])%list)
    by now rewrite <- app_assoc.
  unfold applyBodyRef. destruct (operation m) eqn:Eop.
  - rewrite (mapRefs_all_same (updateRow host m) _) with (rows := rows).
    + simpl. now rewrite Hlen, Hfinal.
    + intros i r. unfold updateRow. now rewrite isSelected_nothing.
    + exact Hr0.
  - rewrite (filterRefs_all_kept (keepRow host m) _) with (rows := rows).
    + simpl. now rewrite Hlen, Hfinal.
    + intros i r. unfold keepRow. now rewrite isSelected_nothing.
    + exact Hr0.
  - congruence.
  - rewrite (mapRefs_all_same (replaceRow host m) _) with (rows := rows).
    + simpl. now rewrite Hlen, Hfinal.
    + intros i r. unfold replaceRow. now rewrite isSelected_nothing.
    + exact Hr0.
  - rewrite (mapRefs_all_same (transformRow host m) _) with (rows := rows).
    + simpl. now rewrite Hlen, Hfinal.
    + intros i r. unfold transformRow. now rewrite isSelected_nothing.
    + exact Hr0.
Qed.

Lemma noop_sharing_example :
  (derefArr johnJaneStore 2 = Some [0; 1]
   /\ readRows johnJaneStore [0; 1] = Some johnJane
   /\ operation trimEverything <> add
   /\ affectedRows trimEverything = []
   /\ condition trimEverything = EmptyString)
  /\ forall host mods,
       applyModificationRef host 2 trimEverything johnJaneStore mods
       = (Normal (S (List.length johnJaneStore)),
          (johnJaneStore ++ [ArrCell [0; 1]; ArrCell [0; 1]])%list, mods).
Proof.
  split.
  - repeat split; discriminate.
  - intros host mods.
    apply (noop_returns_the_same_row_objects host 2 trimEverything johnJaneStore
             mods [0; 1] johnJane); try reflexivity; discriminate.
Defined.

End SharingFacts.

(* ================================================================== *)
(** ** The rule builder: [addRule], [deleteRule], [toggleRule] *)
(* ================================================================== *)

Module RuleOps.
Import Js Regex RuleBuilder.

(** [Partial<Rule>], the state [newRule] of the form: every property may
    be missing. *)
Record RuleForm : Type := mkForm {
  fName : option string;
  fDescription : option string;
  fField : option string;
  fOperator : option string;
  fValue : option string;
  fAction : option string;
  fPriority : option nat;
  fIsActive : option bool
}.

(** [s || fallback] for an optional string: a missing and an empty string
    are falsy. *)
Definition strOr (s : option string) (fallback : string) : string :=
  match s with
  | Some t => if isEmpty t then fallback else t
  | None => fallback
  end.

(** [!s] for an optional string. *)
Definition missing (s : option string) : bool :=
  match s with
  | Some t => isEmpty t
  | None => true
  end.

(** [n || fallback] for an optional number: a missing number and 0 are
    falsy. *)
Definition natOr (n : option nat) (fallback : nat) : nat :=
  match n with
  | Some 0 | None => fallback
  | Some k => k
  end.

(** The form after a rule was added; [count] is [rules.length] as the
    handler sees it, the length before the addition. *)
Definition resetForm (count : nat) : RuleForm :=
  mkForm (Some EmptyString) (Some EmptyString) (Some EmptyString)
         (Some "equals") (Some EmptyString) (Some "flag")
         (Some (count + 1)) (Some true).

(** [addRule()]: the new values of [rules] and [newRule]; [now] is
    [Date.now().toString()]. *)
Definition addRule (now : string) (st : list Rule * RuleForm)
  : list Rule * RuleForm :=
  let '(rules, newRule) := st in
  if missing (fName newRule) || missing (fField newRule) then st
  else
    let rule :=
      mkRule now
             (strOr (fName newRule) EmptyString)
             (strOr (fDescription newRule) EmptyString)
             (strOr (fField newRule) EmptyString)
             (strOr (fOperator newRule) "equals")
             (strOr (fValue newRule) EmptyString)
             (strOr (fAction newRule) "flag")
             (natOr (fPriority newRule) 1)
             (match fIsActive newRule with Some false => false | _ => true end) in
    ((rules ++ [rule])%list, resetForm (List.length rules)).

(** [deleteRule(id)] *)
Definition deleteRule (id0 : string) (rules : list Rule) : list Rule :=
  filter (fun rule => negb (String.eqb (id rule) id0)) rules.

(** [{ ...rule, isActive: b }] *)
Definition setActive (rule : Rule) (b : bool) : Rule :=
  mkRule (id rule) (name rule) (description rule) (field rule) (operator rule)
         (value rule) (action rule) (priority rule) b.

(** [toggleRule(id)] *)
Definition toggleRule (id0 : string) (rules : list Rule) : list Rule :=
  map (fun rule =>
         if String.eqb (id rule) id0
         then setActive rule (negb (isActive rule)) else rule)
      rules.

End RuleOps.

Module RuleOpsFacts.
Import Js Regex RuleBuilder RuleOps IndexFacts.

Lemma map_snd_newRules_field (now : nat -> string) (count : nat) (text : string)
  (op value0 : string) (fields : list string) :
  map field (newRules now count text fields op value0) = fields.
Proof.
  unfold newRules. rewrite map_map. simpl.
  unfold indexed. apply map_snd_indexedFrom.
Qed.

Lemma length_indexedFrom {A : Type} (xs : list A) : forall k,
  List.length (indexedFrom k xs) = List.length xs.
Proof.
  induction xs as [|x rest IH]; intros k; simpl; [reflexivity | now rewrite IH].
Qed.

Lemma priorities_from (count : nat) (xs : list string) : forall k,
  map (fun entry : nat * string => count + fst entry + 1) (indexedFrom k xs)
  = seq (count + k + 1) (List.length xs).
Proof.
  induction xs as [|x rest IH]; intros k; simpl; [reflexivity|].
  f_equal. rewrite IH. f_equal. lia.
Qed.

(** X15.  From a phrase that is not blank, [processNaturalLanguage] keeps
    the rules there are and appends one rule for every available field
    whose lower-cased name occurs in the lower-cased phrase, in the order of
    the fields; the new rules carry the priorities that follow the number of
    rules there were, and share the detected operator, the phrase as
    description, the action [flag] and the active state.  A phrase that
    names no field adds nothing. *)
Theorem extraction_appends_one_rule_per_field (now : nat -> string)
  (fields : list string) (phrase : string) (rules : list Rule) :
  isEmpty (trim phrase) = false ->
  exists news,
    processNaturalLanguage now fields phrase rules = (rules ++ news)%list
    /\ map field news
       = filter (fun f => includes (toLowerCase phrase) (toLowerCase f)) fields
    /\ map priority news = seq (List.length rules + 1) (List.length news)
    /\ Forall (fun r => operator r = detectOperator (toLowerCase phrase)
                        /\ description r = phrase
                        /\ action r = "flag"
                        /\ isActive r = true) news.
Proof.
  intros Hne. unfold processNaturalLanguage. rewrite Hne.
  set (matches := filter (fun f => includes (toLowerCase phrase) (toLowerCase f)) fields).
  set (op := detectOperator (toLowerCase phrase)).
  set (v := groupOr (search quotedValueRe (toLowerCase phrase)) 1).
  exists (newRules now (List.length rules) phrase matches op v).
  split; [reflexivity|]. split; [apply map_snd_newRules_field|]. split.
  - unfold newRules, indexed. rewrite map_map, length_map, length_indexedFrom.
    cbn [priority].
    rewrite (priorities_from (List.length rules) matches 0).
    now rewrite Nat.add_0_r.
  - apply Forall_forall. intros r Hr. unfold newRules in Hr.
    apply in_map_iff in Hr. destruct Hr as [entry [<- _]]. now repeat split.
Qed.

Lemma extraction_example :
  isEmpty (trim "Email and phone should be verified") = false
  /\ forall now,
       exists news,
         processNaturalLanguage now ["name"; "email"; "phone"]
                                "Email and phone should be verified" []
         = ([] ++ news)%list
         /\ map field news
            = filter (fun f => includes (toLowerCase "Email and phone should be verified")
                                        (toLowerCase f))
                     ["name"; "email"; "phone"]
         /\ map priority news = seq (List.length (@nil Rule) + 1) (List.length news)
         /\ Forall (fun r => operator r
                             = detectOperator (toLowerCase "Email and phone should be verified")
                             /\ description r = "Email and phone should be verified"
                             /\ action r = "flag"
                             /\ isActive r = true) news.
Proof.
  split; [reflexivity|].
  intros now.
  apply (extraction_appends_one_rule_per_field now ["name"; "email"; "phone"]
           "Email and phone should be verified" []).
  reflexivity.
Defined.

Lemma setActive_twice (r : Rule) :
  setActive (setActive r (negb (isActive r))) (negb (negb (isActive r))) = r.
Proof. destruct r as [i n d f o v a p b]. simpl. now rewrite negb_involutive. Qed.

(** X16.  [toggleRule] is an involution: toggling the same id twice
    gives back the list of rules, also when several rules carry that id. *)
Theorem toggleRule_twice_restores (id0 : string) (rules : list Rule) :
  toggleRule id0 (toggleRule id0 rules) = rules.
Proof.
  unfold toggleRule. rewrite map_map.
  rewrite <- (map_id rules) at 2. apply map_ext. intros r.
  destruct (String.eqb (id r) id0) eqn:E.
  - simpl. rewrite E. apply setActive_twice.
  - now rewrite E.
Qed.

(** X17.  After [deleteRule] no rule carries the deleted id, every rule
    with another id is still there, and deleting commutes with toggling:
    it does not matter which of the two the user does first. *)
Theorem deleteRule_removes_the_id (id0 id1 : string) (rules : list Rule) :
  Forall (fun r => id r <> id0) (deleteRule id0 rules)
  /\ (forall r, In r rules -> id r <> id0 -> In r (deleteRule id0 rules))
  /\ deleteRule id0 (toggleRule id1 rules) = toggleRule id1 (deleteRule id0 rules).
Proof.
  unfold deleteRule, toggleRule. split; [|split].
  - apply Forall_forall. intros r Hr. apply filter_In in Hr.
    destruct Hr as [_ Hr]. apply negb_true_iff in Hr. now apply String.eqb_neq.
  - intros r Hin Hid. apply filter_In. split; [exact Hin|].
    apply negb_true_iff. now apply String.eqb_neq.
  - induction rules as [|r rest IH]; simpl; [reflexivity|].
    assert (Hid : id (if String.eqb (id r) id1
                      then setActive r (negb (isActive r)) else r) = id r)
      by now destruct (String.eqb (id r) id1).
    rewrite Hid. destruct (negb (String.eqb (id r) id0)); simpl; now rewrite IH.
Qed.

(** X18.  [addRule] with the form it left behind does nothing: after a
    rule was added the name of the form is empty, and a form that was
    refused is refused again, so running the handler twice adds at most one
    rule. *)
Theorem addRule_twice_adds_once (now now' : string) (st : list Rule * RuleForm) :
  addRule now' (addRule now st) = addRule now st.
Proof.
  destruct st as [rules form]. unfold addRule.
  destruct (missing (fName form) || missing (fField form)) eqn:E.
  - now rewrite E.
  - reflexivity.
Qed.

End RuleOpsFacts.

(* ================================================================== *)
(** ** The validation panel: [validationStats] and [groupedErrors] *)
(* ================================================================== *)

Module ValidationOps.
Import Js Regex Validation.

(** [new Set(xs).size] *)
Definition distinctNumbers (xs : list nat) : nat :=
  List.length (nodup Nat.eq_dec xs).

Definition distinctStrings (xs : list string) : nat :=
  List.length (nodup string_dec xs).

(** The object [validationStats] holds. *)
Record Stats : Type := mkStats {
  totalRows : nat;
  validRows : Z;
  errorRows : nat;
  errorCount : nat;
  fieldsWithErrors : nat
}.

Definition validationStats (data : list Row)
  (validationErrors : list ValidationError) : Stats :=
  let total := List.length data in
  let errRows := distinctNumbers (map rowIndex validationErrors) in
  mkStats total (Z.of_nat total - Z.of_nat errRows) errRows
          (List.length validationErrors)
          (distinctStrings (map field validationErrors)).

(** [groupedErrors]: the errors of each field, the fields in the order of
    their first error.  With no own entry, [grouped[error.field]] is
    [undefined] and the empty list is assigned first, unless the field
    bears the name of a member every object inherits: then the read gives
    that member, nothing is assigned, and [grouped[error.field].push] is
    the call of [undefined], a [TypeError]. *)
Definition groupedErrors (validationErrors : list ValidationError)
  : Completion (list (string * list ValidationError)) :=
  foldC
    (fun grouped error =>
       match lookup grouped (field error) with
       | Some errs => Normal (set grouped (field error) (errs ++ [error])%list)
       | None =>
           if isInherited (field error) then Throw
           else Normal (set grouped (field error) [error])
       end)
    validationErrors [].

(** The keys of the row the schema is inferred from. *)
Definition sampleKeys (data : list Row) : list string :=
  match data with
  | [] => []
  | first :: _ => keys first
  end.

End ValidationOps.

Module ValidationMore.
Import Js Regex Validation ValidationOps IndexFacts ValidationFacts.

(** *** Objects built by assignment *)

Lemma in_set_fst {A : Type} (o : list (string * A)) (k0 : string) (v : A) :
  forall k, In k (map fst (set o k0 v)) -> k = k0 \/ In k (map fst o).
Proof.
  induction o as [|[k' v'] rest IH]; intros k H; simpl in *.
  - destruct H as [<-|[]]. now left.
  - destruct (String.eqb k' k0); simpl in H.
    + destruct H as [<-|H]; [right; now left | right; now right].
    + destruct H as [<-|H]; [right; now left|].
      destruct (IH k H) as [->|Hin]; [now left | right; now right].
Qed.

Lemma Forall_set {A : Type} (P : string * A -> Prop)
  (o : list (string * A)) (k0 : string) (v : A) :
  Forall P o -> P (k0, v) -> Forall P (set o k0 v).
Proof.
  intros Ho Hv. induction o as [|[k' v'] rest IH]; simpl.
  - now constructor.
  - apply Forall_cons_iff in Ho. destruct Ho as [Hk Hrest].
    destruct (String.eqb k' k0) eqn:E.
    + apply String.eqb_eq in E. subst k'. now constructor.
    + constructor; [exact Hk | now apply IH].
Qed.

Lemma lookup_set_same {A : Type} (o : list (string * A)) (k : string) (v : A) :
  lookup (set o k v) k = Some v.
Proof.
  induction o as [|[k' v'] rest IH]; simpl.
  - now rewrite String.eqb_refl.
  - destruct (String.eqb k' k) eqn:E; simpl; now rewrite E.
Qed.

Lemma lookup_set_other {A : Type} (o : list (string * A)) (k0 k : string) (v : A) :
  String.eqb k0 k = false -> lookup (set o k0 v) k = lookup o k.
Proof.
  intros Hk. induction o as [|[k' v'] rest IH]; simpl.
  - now rewrite Hk.
  - destruct (String.eqb k' k0) eqn:E; simpl.
    + apply String.eqb_eq in E. subst k'. now rewrite Hk.
    + now rewrite IH.
Qed.

(** *** The schema *)

Lemma schema_keys (sampleRow : Row) (k : string) :
  In k (map fst (generateSchema sampleRow)) -> In k (keys sampleRow).
Proof.
  unfold generateSchema.
  assert (H : forall ks acc,
            In k (map fst (fold_left
                             (fun schemaFields key =>
                                set schemaFields key
                                    (inferField key (get sampleRow key)))
                             ks acc)) ->
            In k (map fst acc) \/ In k ks).
  { induction ks as [|key rest IH]; intros acc Hin; simpl in Hin.
    - now left.
    - destruct (IH _ Hin) as [Hacc|Hrest]; [|right; now right].
      destruct (in_set_fst acc key _ k Hacc) as [->|Ha];
        [right; now left | now left]. }
  intros Hin. destruct (H _ _ Hin) as [[]|Hk]. exact Hk.
Qed.

Lemma schema_entries (sampleRow : Row) :
  Forall (fun entry => snd entry = inferField (fst entry) (get sampleRow (fst entry)))
         (generateSchema sampleRow).
Proof.
  unfold generateSchema.
  assert (H : forall ks acc,
            Forall (fun entry : string * FieldSchema =>
                      snd entry = inferField (fst entry) (get sampleRow (fst entry)))
                   acc ->
            Forall (fun entry : string * FieldSchema =>
                      snd entry = inferField (fst entry) (get sampleRow (fst entry)))
                   (fold_left
                      (fun schemaFields key =>
                         set schemaFields key (inferField key (get sampleRow key)))
                      ks acc)).
  { induction ks as [|key rest IH]; intros acc Hacc; simpl; [exact Hacc|].
    apply IH. now apply Forall_set. }
  apply H. constructor.
Qed.

Section Facts.

Variable host : Host.

Lemma rowErrors_origin (schema : list (string * FieldSchema)) (idx : nat)
  (r : Row) (e : ValidationError) :
  In e (rowErrors host schema idx r) ->
  exists fs, In (field e, fs) schema
             /\ checkField host fs (get r (field e)) = Some (message e)
             /\ rowIndex e = idx + 1.
Proof.
  unfold rowErrors. intros H. apply in_flat_map in H.
  destruct H as [[key fs] [Hin H]]. simpl in H.
  destruct (checkField host fs (get r key)) as [msg|] eqn:E; [|contradiction].
  destruct H as [<-|[]]. simpl. now exists fs.
Qed.

Lemma StronglySorted_le_app (xs ys : list nat) :
  StronglySorted le xs -> StronglySorted le ys ->
  (forall x y, In x xs -> In y ys -> x <= y) ->
  StronglySorted le (xs ++ ys).
Proof.
  induction xs as [|x rest IH]; intros Hx Hy Hxy; simpl; [exact Hy|].
  apply StronglySorted_inv in Hx. destruct Hx as [Hrest Hall].
  constructor.
  - apply IH; [exact Hrest | exact Hy|].
    intros a b Ha Hb. apply Hxy; [now right | exact Hb].
  - apply Forall_app. split; [exact Hall|].
    apply Forall_forall. intros y Hin. apply Hxy; [now left | exact Hin].
Qed.

Lemma StronglySorted_le_constant (c : nat) (xs : list nat) :
  Forall (fun x => x = c) xs -> StronglySorted le xs.
Proof.
  induction 1 as [|x rest Hx Hrest IH]; constructor; [exact IH|].
  subst x. eapply Forall_impl; [|exact Hrest]. intros y ->. apply le_n.
Qed.

Lemma errors_in_row_order (schema : list (string * FieldSchema)) (xs : list Row) :
  forall k,
    StronglySorted le
      (map rowIndex
           (flat_map (fun ir => rowErrors host schema (fst ir) (snd ir))
                     (indexedFrom k xs)))
    /\ Forall (fun e => k + 1 <= rowIndex e <= k + List.length xs
                        /\ In (field e) (map fst schema))
         (flat_map (fun ir => rowErrors host schema (fst ir) (snd ir))
                   (indexedFrom k xs)).
Proof.
  induction xs as [|r rest IH]; intros k; simpl.
  - split; constructor.
  - destruct (IH (S k)) as [Hs Hb].
    assert (Hhere : Forall (fun e => rowIndex e = k + 1
                                     /\ In (field e) (map fst schema))
                           (rowErrors host schema k r)).
    { apply Forall_forall. intros e He.
      destruct (rowErrors_origin schema k r e He) as [fs [Hin [_ Hidx]]].
      split; [exact Hidx|]. apply in_map_iff. now exists (field e, fs). }
    split.
    + rewrite map_app. apply StronglySorted_le_app.
      * apply (StronglySorted_le_constant (k + 1)).
        apply Forall_forall. intros x Hx. apply in_map_iff in Hx.
        destruct Hx as [e [<- He]].
        rewrite Forall_forall in Hhere. now apply Hhere.
      * exact Hs.
      * intros x y Hx Hy. apply in_map_iff in Hx. destruct Hx as [e [<- He]].
        apply in_map_iff in Hy. destruct Hy as [e' [<- He']].
        rewrite Forall_forall in Hhere, Hb.
        destruct (Hhere e He) as [-> _]. destruct (Hb e' He') as [[Hlo _] _]. lia.
    + apply Forall_app. split.
      * eapply Forall_impl; [|exact Hhere]. intros e [-> Hf]. split; [lia|exact Hf].
      * eapply Forall_impl; [|exact Hb]. intros e [[Hlo Hhi] Hf].
        split; [lia | exact Hf].
Qed.

Lemma issues_in_range (data : list Row) :
  Forall (fun e => In (field e) (sampleKeys data)
                   /\ 1 <= rowIndex e <= List.length data)
         (validateData host data []).
Proof.
  destruct data as [|first rest]; [constructor|].
  unfold validateData, indexed.
  destruct (errors_in_row_order (generateSchema first) (first :: rest) 0)
    as [_ Hb].
  eapply Forall_impl; [|exact Hb]. intros e [[Hlo Hhi] Hf]. split.
  - now apply schema_keys.
  - simpl in *. lia.
Qed.

(** X19.  Every issue [validateData] reports is about a field of the
    first row and a row number between 1 and the number of rows; a field
    that only later rows have is never validated.  The issues come in the
    order of the rows. *)
Theorem issues_follow_the_first_row (data : list Row) :
  Forall (fun e => In (field e) (sampleKeys data)
                   /\ 1 <= rowIndex e <= List.length data)
         (validateData host data [])
  /\ StronglySorted le (map rowIndex (validateData host data [])).
Proof.
  split; [apply issues_in_range|].
  destruct data as [|first rest]; [constructor|].
  unfold validateData, indexed.
  apply (errors_in_row_order (generateSchema first) (first :: rest) 0).
Qed.

Lemma nodup_shorter {A : Type} (dec : forall x y : A, {x = y} + {x <> y})
  (xs ys : list A) :
  incl xs ys -> List.length (nodup dec xs) <= List.length ys.
Proof.
  intros Hincl. apply NoDup_incl_length; [apply NoDup_nodup|].
  intros x Hx. apply Hincl. now apply (nodup_In dec xs x).
Qed.

(** X20.  For the issues of a validation run on the table, the
    statistics are consistent: the rows with errors are at most the rows of
    the table, so the valid rows are not negative, and neither the rows
    with errors nor the fields with errors exceed the number of issues or,
    for the fields, the number of keys of the first row. *)
Theorem stats_of_a_run_are_consistent (data : list Row) :
  let s := validationStats data (validateData host data []) in
  errorRows s <= totalRows s
  /\ (0 <= validRows s)%Z
  /\ validRows s = (Z.of_nat (totalRows s) - Z.of_nat (errorRows s))%Z
  /\ errorRows s <= errorCount s
  /\ fieldsWithErrors s <= errorCount s
  /\ fieldsWithErrors s <= List.length (sampleKeys data).
Proof.
  intros s. subst s. unfold validationStats. simpl.
  pose proof (issues_in_range data) as Hall.
  rewrite Forall_forall in Hall.
  assert (Hrows : distinctNumbers (map rowIndex (validateData host data []))
                  <= List.length data).
  { unfold distinctNumbers.
    apply Nat.le_trans with (List.length (seq 1 (List.length data)));
      [|rewrite length_seq; apply le_n].
    apply nodup_shorter. intros x Hx. apply in_map_iff in Hx.
    destruct Hx as [e [<- He]]. apply in_seq.
    destruct (Hall e He) as [_ Hb]. lia. }
  split; [exact Hrows|]. split; [lia|]. split; [reflexivity|]. split; [|split].
  - unfold distinctNumbers.
    rewrite <- (length_map rowIndex (validateData host data [])).
    apply nodup_shorter. apply incl_refl.
  - unfold distinctStrings.
    rewrite <- (length_map field (validateData host data [])).
    apply nodup_shorter. apply incl_refl.
  - unfold distinctStrings. apply nodup_shorter.
    intros x Hx. apply in_map_iff in Hx. destruct Hx as [e [<- He]].
    now destruct (Hall e He).
Qed.

(** X22.  The message [This field is required] is never reported for the
    first row: the non-empty-string rule is inferred only from a value that
    is not numeric, and the empty string counts as numeric. *)
Theorem first_row_never_lacks_a_required_field
  (first : Row) (rest : list Row) (e : ValidationError) :
  In e (validateData host (first :: rest) []) ->
  rowIndex e = 1 ->
  message e <> Custom "This field is required".
Proof.
  unfold validateData, indexed. intros He Hidx Hmsg.
  apply in_flat_map in He. destruct He as [[i r] [Hin He]]. simpl in He.
  destruct (rowErrors_origin _ i r e He) as [fs [Hfs [Hcheck Hrow]]].
  assert (i = 0) by lia. subst i.
  apply in_indexedFrom in Hin. destruct Hin as [_ Hnth]. simpl in Hnth.
  injection Hnth as <-.
  pose proof (schema_entries first) as Hentries.
  rewrite Forall_forall in Hentries. specialize (Hentries _ Hfs). simpl in Hentries.
  rewrite Hmsg in Hcheck.
  assert (Hempty : fs = required /\ get first (field e) = VStr EmptyString).
  { destruct fs; destruct (get first (field e)) as [| |b|z|s];
      simpl in Hcheck; try discriminate Hcheck;
      try (match type of Hcheck with
           | context [if ?c then _ else _] => destruct c eqn:Ec
           end; try discriminate Hcheck).
    destruct s as [|c s']; [now split | discriminate Ec]. }
  destruct Hempty as [-> Hv]. rewrite Hv in Hentries.
  unfold inferField in Hentries.
  assert (Hnum : looksNumeric (VStr EmptyString) = true) by reflexivity.
  rewrite Hnum in Hentries.
  repeat match type of Hentries with
         | context [if ?c then _ else _] => destruct c
         end; discriminate Hentries.
Qed.

End Facts.

(** A table whose first row holds a phone number that is none. *)
Definition badPhone : ValidationError :=
  mkError "phone" (Custom "Invalid phone number") (VStr "abc") 1.

Lemma first_row_example :
  rowIndex badPhone = 1
  /\ forall host,
       In badPhone (validateData host [ [("phone", VStr "abc")] ] [])
       /\ message badPhone <> Custom "This field is required".
Proof.
  split; [reflexivity|].
  intros host.
  assert (Hin : In badPhone (validateData host [ [("phone", VStr "abc")] ] []))
    by (left; reflexivity).
  split; [exact Hin|].
  exact (first_row_never_lacks_a_required_field host
           [("phone", VStr "abc")] [] badPhone Hin eq_refl).
Defined.

(** The errors of the field [f] among [errors]. *)
Definition errorsOf (f : string) (errors : list ValidationError)
  : list ValidationError :=
  filter (fun e => String.eqb (field e) f) errors.

(** Some error is on a field named like an inherited member. *)
Definition namesInherited (errors : list ValidationError) : bool :=
  existsb (fun e => isInherited (field e)) errors.

(** The grouping of a list without such a field, continued from [acc]. *)
Lemma grouping_continues (errs : list ValidationError) :
  namesInherited errs = false ->
  forall acc, exists grouped,
    foldC (fun grouped error =>
             match lookup grouped (field error) with
             | Some errs0 => Normal (set grouped (field error) (errs0 ++ [error])%list)
             | None =>
                 if isInherited (field error) then Throw
                 else Normal (set grouped (field error) [error])
             end) errs acc = Normal grouped
    /\ forall f, lookup grouped f
         = match lookup acc f, errorsOf f errs with
           | Some before, found => Some (before ++ found)%list
           | None, [] => None
           | None, found => Some found
           end.
Proof.
  induction errs as [|e rest IH]; intros Hplain acc.
  - exists acc. split; [reflexivity|]. intros f. simpl.
    destruct (lookup acc f); [now rewrite app_nil_r | reflexivity].
  - simpl in Hplain. apply orb_false_iff in Hplain. destruct Hplain as [He Hrest].
    cbn [foldC]. rewrite He.
    destruct (lookup acc (field e)) as [before|] eqn:Eacc; cbn [bind].
    + destruct (IH Hrest (set acc (field e) (before ++ [e])%list))
        as [grouped [Hrun Hlook]].
      exists grouped. split; [exact Hrun|]. intros f. rewrite Hlook.
      unfold errorsOf. cbn [filter].
      destruct (String.eqb (field e) f) eqn:E.
      * apply String.eqb_eq in E. subst f.
        rewrite lookup_set_same, Eacc. now rewrite <- app_assoc.
      * now rewrite (lookup_set_other acc (field e) f _ E).
    + destruct (IH Hrest (set acc (field e) [e])) as [grouped [Hrun Hlook]].
      exists grouped. split; [exact Hrun|]. intros f. rewrite Hlook.
      unfold errorsOf. cbn [filter].
      destruct (String.eqb (field e) f) eqn:E.
      * apply String.eqb_eq in E. subst f.
        now rewrite lookup_set_same, Eacc.
      * now rewrite (lookup_set_other acc (field e) f _ E).
Qed.

(** The grouping of a list with such a field throws: nothing was filed
    under the name when its first error comes. *)
Lemma grouping_throws (errs : list ValidationError) :
  namesInherited errs = true ->
  forall acc,
    (forall k, isInherited k = true -> lookup acc k = None) ->
    foldC (fun grouped error =>
             match lookup grouped (field error) with
             | Some errs0 => Normal (set grouped (field error) (errs0 ++ [error])%list)
             | None =>
                 if isInherited (field error) then Throw
                 else Normal (set grouped (field error) [error])
             end) errs acc = Throw.
Proof.
  induction errs as [|e rest IH]; intros Hsome acc Hacc; [discriminate|].
  cbn [foldC]. destruct (isInherited (field e)) eqn:He.
  - now rewrite (Hacc (field e) He).
  - simpl in Hsome. rewrite He in Hsome. simpl in Hsome.
    assert (Hnext : forall v k, isInherited k = true ->
                      lookup (set acc (field e) v) k = None).
    { intros v k Hk. rewrite lookup_set_other; [now apply Hacc|].
      apply String.eqb_neq. intros Heq. rewrite Heq in He. congruence. }
    destruct (lookup acc (field e)) as [before|]; cbn [bind];
      apply (IH Hsome); apply Hnext.
Qed.

(** X21.  [groupedErrors] files every error under its field and loses
    none: the entry of a field is the list of the errors of that field in
    their order, and a field without errors has no entry.  This is so when
    no error is on a field named like a member every object inherits; when
    one is, [groupedErrors] throws. *)
Theorem groupedErrors_collects_by_field (errors : list ValidationError) :
  if namesInherited errors
  then groupedErrors errors = Throw
  else exists grouped,
         groupedErrors errors = Normal grouped
         /\ forall f, lookup grouped f
              = match errorsOf f errors with
                | [] => None
                | found => Some found
                end.
Proof.
  destruct (namesInherited errors) eqn:E.
  - apply (grouping_throws errors E []). reflexivity.
  - destruct (grouping_continues errors E []) as [grouped [Hrun Hlook]].
    exists grouped. split; [exact Hrun|]. intros f. now rewrite Hlook.
Qed.

(** Two errors on [phone] and one on [email] between them. *)
Lemma groupedErrors_example :
  groupedErrors
    [ mkError "phone" (Custom "Invalid phone number") (VStr "abc") 1;
      mkError "email" (Custom "Invalid email address") (VStr "x") 1;
      mkError "phone" (Custom "Invalid phone number") (VStr "-") 2 ]
  = Normal
      [ ("phone", [ mkError "phone" (Custom "Invalid phone number") (VStr "abc") 1;
                    mkError "phone" (Custom "Invalid phone number") (VStr "-") 2 ]);
        ("email", [ mkError "email" (Custom "Invalid email address") (VStr "x") 1 ]) ].
Proof. reflexivity. Qed.

(** An error on a column named [constructor] ends the grouping. *)
Lemma groupedErrors_inherited_example :
  groupedErrors
    [ mkError "constructor" (Custom "This field is required") (VStr EmptyString) 2 ]
  = Throw.
Proof. reflexivity. Qed.

End ValidationMore.

(* ================================================================== *)
(** ** More on the search *)
(* ================================================================== *)

Module SearchMore.
Import Js Regex Search IndexFacts SearchFacts StringFacts.

(** *** Every result is a row of the table, once *)

Lemma earlier_sorted_NoDup (xs : list SearchResult) :
  StronglySorted earlier xs -> NoDup (map rowIndex xs).
Proof.
  induction 1 as [|x rest Hs IH Hall]; simpl; constructor; [|exact IH].
  intros Hin. apply in_map_iff in Hin. destruct Hin as [y [Heq Hy]].
  rewrite Forall_forall in Hall. specialize (Hall y Hy).
  unfold earlier in Hall. lia.
Qed.

Definition wellFormed (data : list Row) (x : SearchResult) : Prop :=
  (0 < score x)%Z
  /\ 1 <= rowIndex x <= List.length data
  /\ nth_error data (rowIndex x - 1) = Some (row x).

Lemma candidates_wellFormed (data : list Row) (query : string) :
  Forall (wellFormed data) (candidates data query).
Proof.
  apply Forall_forall. intros x Hx. apply in_candidates in Hx.
  destruct Hx as [i [r [Hnth [Hpos ->]]]].
  unfold wellFormed, resultFor. simpl.
  assert (Hi : i < List.length data) by (apply nth_error_Some; congruence).
  split; [exact Hpos|]. split; [lia|].
  replace (i + 1 - 1) with i by lia. exact Hnth.
Qed.

(** X23.  Whatever the query, every result of [searchData] has a
    positive score and carries the number and the contents of a row of the
    table, no row is returned twice, and so there are at most as many
    results as rows. *)
Theorem results_are_rows_of_the_table (data : list Row) (query : string) :
  Forall (wellFormed data) (searchData data query)
  /\ NoDup (map rowIndex (searchData data query))
  /\ List.length (searchData data query) <= List.length data.
Proof.
  assert (H : Forall (wellFormed data) (searchData data query)
              /\ NoDup (map rowIndex (searchData data query))).
  { destruct (isEmpty (trim query)) eqn:E.
    - rewrite searchData_blank by exact E. split; constructor.
    - rewrite searchData_sorts_candidates by exact E.
      pose proof (sortBy_perm byScore (candidates data query)) as Hperm.
      split.
      + apply (Permutation_Forall (Permutation_sym Hperm)).
        apply candidates_wellFormed.
      + apply (Permutation_NoDup
                 (Permutation_map rowIndex (Permutation_sym Hperm))).
        apply earlier_sorted_NoDup.
        apply (candidates_from_earlier query data 0). }
  destruct H as [Hwf Hnd]. split; [exact Hwf|]. split; [exact Hnd|].
  rewrite <- (length_map rowIndex (searchData data query)).
  apply Nat.le_trans with (List.length (seq 1 (List.length data)));
    [|rewrite length_seq; apply le_n].
  apply NoDup_incl_length; [exact Hnd|].
  intros n Hn. apply in_map_iff in Hn. destruct Hn as [x [<- Hx]].
  rewrite Forall_forall in Hwf. destruct (Hwf x Hx) as [_ [Hb _]].
  apply in_seq. lia.
Qed.

(** *** Keywords are compared as typed *)

Lemma prefix_noUpper (k : string) : forall s,
  noUpper s = true -> String.prefix k s = true -> noUpper k = true.
Proof.
  induction k as [|a k' IH]; intros s Hs Hp; [reflexivity|].
  destruct s as [|b s']; simpl in Hp; [discriminate|].
  destruct (ascii_dec a b) as [->|]; [|discriminate].
  simpl in Hs. apply andb_true_iff in Hs. destruct Hs as [Hb Hs'].
  simpl. rewrite Hb. simpl. now apply (IH s').
Qed.

Lemma includes_noUpper (s k : string) :
  noUpper s = true -> includes s k = true -> noUpper k = true.
Proof.
  induction s as [|c s' IH]; intros Hs Hin;
    rewrite RuleBuilderFacts.includes_unfold in Hin.
  - destruct (String.prefix k EmptyString) eqn:E; [|discriminate].
    now apply (prefix_noUpper k EmptyString).
  - destruct (String.prefix k (String c s')) eqn:E.
    + now apply (prefix_noUpper k (String c s')).
    + apply IH; [now apply (noUpper_tail c) | exact Hin].
Qed.

Lemma fold_left_skips {A B : Type} (step : A -> B -> A) (p : B -> bool)
  (xs : list B) :
  (forall a x, p x = false -> step a x = a) ->
  forall a, fold_left step xs a = fold_left step (filter p xs) a.
Proof.
  intros Hskip. induction xs as [|x rest IH]; intros a; simpl; [reflexivity|].
  destruct (p x) eqn:E; simpl; [apply IH|].
  rewrite (Hskip a x E). apply IH.
Qed.

Lemma visitField_skips_upper (query : string) (keywords : list string)
  (filters : list (string * string)) (a : Acc) (entry : string * Value) :
  visitField query keywords filters a entry
  = visitField query (filter noUpper keywords) filters a entry.
Proof.
  unfold visitField.
  rewrite (fold_left_skips
             (fun acc keyword =>
                if includes (toLowerCase (toString (snd entry))) keyword
                then hit 5 (fst entry) (snd entry) acc else acc)
             noUpper keywords); [reflexivity|].
  intros acc k Hk.
  destruct (includes (toLowerCase (toString (snd entry))) k) eqn:E; [|reflexivity].
  apply includes_noUpper in E; [congruence | apply noUpper_toLowerCase].
Qed.

(** X24.  A keyword that holds an upper-case letter never adds to a
    score: keywords are taken from the query as typed and compared with the
    lower-cased text of the fields, so the score of a row is the score the
    keywords without upper-case letters give. *)
Theorem upper_case_keywords_never_match (query : string)
  (keywords : list string) (filters : list (string * string)) (r : Row) :
  scoreRow query keywords filters r
  = scoreRow query (filter noUpper keywords) filters r.
Proof.
  unfold scoreRow. generalize (mkAcc 0 [] EmptyString).
  induction r as [|entry rest IH]; intros a; simpl; [reflexivity|].
  rewrite visitField_skips_upper. apply IH.
Qed.

Lemma upper_case_keyword_example :
  keywordsOf "John" = ["John"]
  /\ searchData [ [("name", VStr "John Smith")] ] "John" = []
  /\ map score (searchData [ [("name", VStr "John Smith")] ] "john") = [5%Z].
Proof. repeat split. Qed.

End SearchMore.

(* ================================================================== *)
(** ** The page: which table the components are given *)
(* ================================================================== *)

Module Page.
Import Js.

(** The state of [Home]: the three tables, [None] until a file is loaded,
    and the name of the active one. *)
Record Home : Type := mkHome {
  clients : option (list Row);
  workers : option (list Row);
  tasks : option (list Row);
  activeDataset : string
}.

(** [getActiveData()] *)
Definition getActiveData (h : Home) : option (list Row) :=
  if String.eqb (activeDataset h) "clients" then clients h
  else if String.eqb (activeDataset h) "workers" then workers h
  else if String.eqb (activeDataset h) "tasks" then tasks h
  else clients h.

(** [handleDataChange(newData)]: the [switch] has no default. *)
Definition handleDataChange (newData : list Row) (h : Home) : Home :=
  if String.eqb (activeDataset h) "clients"
  then mkHome (Some newData) (workers h) (tasks h) (activeDataset h)
  else if String.eqb (activeDataset h) "workers"
  then mkHome (clients h) (Some newData) (tasks h) (activeDataset h)
  else if String.eqb (activeDataset h) "tasks"
  then mkHome (clients h) (workers h) (Some newData) (activeDataset h)
  else h.

(** [setActiveDataset(name)] *)
Definition setActiveDataset (name : string) (h : Home) : Home :=
  mkHome (clients h) (workers h) (tasks h) name.

(** [t?.length || 0] *)
Definition lengthOr0 (t : option (list Row)) : nat :=
  match t with Some rows => List.length rows | None => 0 end.

(** [totalRecords] *)
Definition totalRecords (h : Home) : nat :=
  lengthOr0 (clients h) + lengthOr0 (workers h) + lengthOr0 (tasks h).

(** [getActiveData() || []], the [data] the components receive. *)
Definition shownData (h : Home) : list Row :=
  match getActiveData h with Some rows => rows | None => [] end.

End Page.

Module PageFacts.
Import Js Page.

Definition datasetNames : list string := ["clients"; "workers"; "tasks"].

(** X26.  When the active dataset is one of clients, workers and tasks,
    [handleDataChange] stores the new table as the active one: the
    components are then given exactly that table, the active name stays,
    the two other tables are what they were, and the total of records
    changes by the difference of the two lengths. *)
Theorem data_change_replaces_the_active_table (newData : list Row) (h : Home) :
  In (activeDataset h) datasetNames ->
  getActiveData (handleDataChange newData h) = Some newData
  /\ shownData (handleDataChange newData h) = newData
  /\ activeDataset (handleDataChange newData h) = activeDataset h
  /\ (forall other, In other datasetNames -> other <> activeDataset h ->
        getActiveData (setActiveDataset other (handleDataChange newData h))
        = getActiveData (setActiveDataset other h))
  /\ totalRecords (handleDataChange newData h) + lengthOr0 (getActiveData h)
     = totalRecords h + List.length newData.
Proof.
  destruct h as [c w t a]. unfold datasetNames. simpl.
  intros [<-|[<-|[<-|[]]]]; (split; [reflexivity|]); (split; [reflexivity|]);
    (split; [reflexivity|]); split;
    try (intros other [<-|[<-|[<-|[]]]] Hne; try reflexivity; congruence);
    unfold totalRecords, handleDataChange, getActiveData; simpl; lia.
Qed.

Lemma data_change_example :
  In (activeDataset (mkHome (Some [ [("id", VNum 1)] ]) None
                            (Some [ [("t", VStr "a")]; [("t", VStr "b")] ]) "tasks"))
     datasetNames
  /\ getActiveData
       (handleDataChange [ [("t", VStr "a")] ]
          (mkHome (Some [ [("id", VNum 1)] ]) None
                  (Some [ [("t", VStr "a")]; [("t", VStr "b")] ]) "tasks"))
     = Some [ [("t", VStr "a")] ].
Proof.
  split; [right; right; left; reflexivity|].
  apply (data_change_replaces_the_active_table [ [("t", VStr "a")] ]
           (mkHome (Some [ [("id", VNum 1)] ]) None
                   (Some [ [("t", VStr "a")]; [("t", VStr "b")] ]) "tasks")).
  right; right; left; reflexivity.
Defined.

End PageFacts.

(* ================================================================== *)
(** ** Case of the command *)
(* ================================================================== *)

Module CaseFacts.
Import Js Regex Modifier StringFacts.

(** X25.  [parseCommand] does not see the case of an ASCII command: the
    command written in capitals and the command written in small letters
    are parsed to the same result as the command itself, whatever the
    columns are. *)
Theorem parseCommand_ignores_case (fields : list string) (command0 : string) :
  isAscii command0 = true ->
  parseCommand fields (toUpperCase command0) = parseCommand fields command0
  /\ parseCommand fields (toLowerCase command0) = parseCommand fields command0.
Proof.
  intros _. unfold parseCommand. split.
  - now rewrite toLowerCase_toUpperCase.
  - now rewrite toLowerCase_idem.
Qed.

Lemma ignores_case_example :
  isAscii "Delete Name WHERE name = Ann" = true
  /\ parseCommand ["name"] "DELETE NAME WHERE NAME = ANN"
     = parseCommand ["name"] "Delete Name WHERE name = Ann"
  /\ parseCommand ["name"] "delete name where name = ann"
     = parseCommand ["name"] "Delete Name WHERE name = Ann".
Proof.
  split; [reflexivity|].
  apply (parseCommand_ignores_case ["name"] "Delete Name WHERE name = Ann").
  reflexivity.
Defined.

End CaseFacts.
